(** * The extraction driver of osrm-backend (src/extractor/extractor.cpp)

    A shallow embedding of the driver's own functions: [SetClassNames],
    [SetExcludableClasses], [ParseOSMData] and its relation pre-pass,
    [FindComponents], [BuildRTree], [WriteCompressedNodeBasedGraph],
    [IsSegregated] and [FindSegregatedNodes], followed by the properties
    proved about them.

    Conventions.
    - [util::exception] is the [Throw] outcome; a failing [BOOST_ASSERT] is the
      [AssertionFailed] outcome (the behaviour of a build with assertions on);
      a write at an index for which a store of fixed size has no slot is the
      [OutOfBounds] outcome.
    - [std::size_t] counters and vector indices are [nat]; 32-bit ids are [N]
      with their wrap-around written out; [ClassData] is a bit mask in [N];
      [double] is the kernel's binary64 [float].
    - [std::unordered_map<std::string, ClassData>] is [gmap string ClassData];
      its iteration order is the order of [map_to_list], about which the
      theorems assume nothing. *)

From Stdlib Require Import ZArith NArith Ascii String List Lia PrimFloat Uint63.
From Stdlib Require Import FloatOps FloatAxioms SpecFloat.
From stdpp Require Import base list gmap strings sorting relations.

(** ** Exceptions and outcomes *)

(** The [util::exception]s of extractor.cpp, one constructor per throw site. *)
Inductive exception : Type :=
(* "Invalid class name ... only [a-Z0-9] allowed." *)
| InvalidClassName (name : string)
(* "Maximum number of classes if ..." *)
| MaximumNumberOfClasses
(* "Profile used unknown class name: ..." *)
| UnknownClassName (name : string)
(* "Only ... excludable combinations allowed." *)
| TooManyExcludableCombinations
(* "There are no edges remaining after parsing." *)
| NoEdgesRemaining
(* "There are no snappable edges left after processing. ..." *)
| NoSnappableEdges.

(** How a call ends: normally, by a thrown exception, in a failed
    [BOOST_ASSERT], or in a write outside a store of fixed size, after which
    nothing is known of the run. *)
Inductive outcome (A : Type) : Type :=
| Ok (a : A)
| Throw (e : exception)
| AssertionFailed
| OutOfBounds.
Arguments Ok {A} a.
Arguments Throw {A} e.
Arguments AssertionFailed {A}.
Arguments OutOfBounds {A}.

#[global] Instance outcome_ret : MRet outcome := fun A a => Ok a.
#[global] Instance outcome_bind : MBind outcome := fun A B f m =>
  match m with
  | Ok a => f a
  | Throw e => Throw e
  | AssertionFailed => AssertionFailed
  | OutOfBounds => OutOfBounds
  end.

(** [BOOST_ASSERT(cond)] *)
Definition BOOST_ASSERT (cond : bool) : outcome unit :=
  if cond then Ok tt else AssertionFailed.

Definition throws {A : Type} (o : outcome A) : Prop := exists e, o = Throw e.

(** ** Class data and profile properties *)

Definition ClassData : Type := N.

(** Modelled from the spec: [ProfileProperties]
    (extractor/profile_properties.hpp) is missing.  ".osrm.properties: Profile
    properties including class names and excludable masks": the class names by
    class index and the excludable masks by combination index.
    "ExcludableMask: up to MAX_EXCLUDABLE_CLASSES saved bitmasks; index 0 is
    reserved as nothing excluded": the masks have MAX_EXCLUDABLE_CLASSES slots,
    the indices below MAX_EXCLUDABLE_CLASSES, and a write at another index is
    out of bounds. *)
Module ProfileProperties.
Record t : Type := mk {
  class_names : gmap nat string;
  excludable_classes : gmap nat ClassData
}.

Definition SetClassName (index : nat) (name : string) (p : t) : t :=
  {| class_names := <[index := name]> (class_names p);
     excludable_classes := excludable_classes p |}.

Definition SetExcludableClasses (MAX_EXCLUDABLE_CLASSES : nat)
    (index : nat) (mask : ClassData) (p : t) : outcome t :=
  if index <? MAX_EXCLUDABLE_CLASSES
  then Ok {| class_names := class_names p;
             excludable_classes := <[index := mask]> (excludable_classes p) |}
  else OutOfBounds.

Definition empty : t := {| class_names := ∅; excludable_classes := ∅ |}.
End ProfileProperties.

Section ClassNames.
(** The constants and the name check of extractor/class_data.hpp, which is
    missing, are parameters. *)
Variable MAX_CLASS_INDEX : nat.
Variable MAX_EXCLUDABLE_CLASSES : nat.
Variable isValidClassName : string -> bool.

(** Modelled from the spec: [getClassData] and [getClassIndexes] of
    extractor/class_data.hpp are missing.  "ClassData: fixed-width bitmask
    over user-defined road classes (maximum MAX_CLASS_INDEX+1 classes)": the
    class of index [i] is bit [i] of a mask of [MAX_CLASS_INDEX + 1] bits. *)
Definition class_data_width : nat := S MAX_CLASS_INDEX.

Definition getClassData (index : nat) : ClassData :=
  N.land (N.shiftl 1 (N.of_nat index)) (N.ones (N.of_nat class_data_width)).

Definition getClassIndexes (data : ClassData) : list nat :=
  List.filter (fun i => N.testbit data (N.of_nat i)) (seq 0 class_data_width).

(** [std::find(class_names.begin(), class_names.end(), name) != end] *)
Definition std_find (class_names : list string) (name : string) : bool :=
  existsb (String.eqb name) class_names.

(** The first loop of [SetClassNames]: validate every declared name and give
    the ones no way used the next free index. *)
Fixpoint add_declared_classes (class_names : list string)
    (classes_map : gmap string ClassData) : outcome (gmap string ClassData) :=
  match class_names with
  | [] => Ok classes_map
  | name :: rest =>
      if negb (isValidClassName name) then Throw (InvalidClassName name)
      else
        match classes_map !! name with
        | Some _ => add_declared_classes rest classes_map
        | None =>
            let index := size classes_map in
            if MAX_CLASS_INDEX <? index then Throw MaximumNumberOfClasses
            else add_declared_classes rest (<[name := getClassData index]> classes_map)
        end
  end.

(** The second loop: every class of the map has to be a declared one. *)
Fixpoint check_known_classes (class_names : list string)
    (entries : list (string * ClassData)) : outcome unit :=
  match entries with
  | [] => Ok tt
  | (name, _) :: rest =>
      if std_find class_names name then check_known_classes class_names rest
      else Throw (UnknownClassName name)
  end.

(** The last loop: store each class name under the index of its bit. *)
Fixpoint store_class_names (entries : list (string * ClassData))
    (profile_properties : ProfileProperties.t) : outcome ProfileProperties.t :=
  match entries with
  | [] => Ok profile_properties
  | (name, data) :: rest =>
      let range := getClassIndexes data in
      _ ← BOOST_ASSERT (length range =? 1);
      store_class_names rest
        (ProfileProperties.SetClassName (hd 0 range) name profile_properties)
  end.

(** [SetClassNames]: the class map and the profile properties are passed by
    reference, so both come back. *)
Definition SetClassNames (class_names : list string)
    (classes_map : gmap string ClassData)
    (profile_properties : ProfileProperties.t)
    : outcome (gmap string ClassData * ProfileProperties.t) :=
  classes_map' ←
    (if negb (bool_decide (class_names = []))
     then
       m ← add_declared_classes class_names classes_map;
       _ ← check_known_classes class_names (map_to_list m);
       Ok m
     else Ok classes_map);
  profile_properties' ←
    store_class_names (map_to_list classes_map') profile_properties;
  Ok (classes_map', profile_properties').

(** The mask of one excludable combination: the union of the masks of its
    known names; an unknown name is logged and ignored. *)
Fixpoint combination_mask (classes_map : gmap string ClassData)
    (combination : list string) (mask : ClassData) : ClassData :=
  match combination with
  | [] => mask
  | name :: rest =>
      match classes_map !! name with
      | None => combination_mask classes_map rest mask
      | Some data => combination_mask classes_map rest (N.lor mask data)
      end
  end.

(** The loop over the combinations, threading [combination_index]. *)
Fixpoint store_excludable (classes_map : gmap string ClassData)
    (excludable_classes : list (list string)) (combination_index : nat)
    (profile_properties : ProfileProperties.t) : outcome ProfileProperties.t :=
  match excludable_classes with
  | [] => Ok profile_properties
  | combination :: rest =>
      let mask := combination_mask classes_map combination 0%N in
      if (0 <? mask)%N
      then
        profile_properties' ←
          ProfileProperties.SetExcludableClasses MAX_EXCLUDABLE_CLASSES
            combination_index mask profile_properties;
        store_excludable classes_map rest (S combination_index) profile_properties'
      else store_excludable classes_map rest combination_index profile_properties
  end.

Definition SetExcludableClasses (classes_map : gmap string ClassData)
    (excludable_classes : list (list string))
    (profile_properties : ProfileProperties.t) : outcome ProfileProperties.t :=
  if MAX_EXCLUDABLE_CLASSES <? length excludable_classes
  then Throw TooManyExcludableCombinations
  else
    (* The exclude index 0 is reserved for not excluding anything *)
    profile_properties' ←
      ProfileProperties.SetExcludableClasses MAX_EXCLUDABLE_CLASSES 0 0%N
        profile_properties;
    store_excludable classes_map excludable_classes 1 profile_properties'.
End ClassNames.

(** ** ParseOSMData *)

(** What the driver asks of the profile ([ScriptingEnvironment]). *)
Record ScriptingEnvironment : Type := {
  GetClassNames : list string;
  GetExcludableClasses : list (list string);
  GetProfileProperties : ProfileProperties.t
}.

(** The steps of [ParseOSMData] that read the input or write a file, in the
    order in which they run. *)
Inductive event : Type :=
| EvWriteTimestamp
| EvParseRelations
| EvParseWaysAndNodes
| EvPrepareData
| EvWriteProfileProperties (profile_properties : ProfileProperties.t).

(** A computation that leaves a trace of events and ends in an outcome. *)
Definition action (A : Type) : Type := (list event * outcome A)%type.

#[global] Instance action_ret : MRet action := fun A a => ([], Ok a).
#[global] Instance action_bind : MBind action := fun A B f m =>
  match m with
  | (trace, Ok a) => let '(trace', r) := f a in (trace ++ trace', r)
  | (trace, Throw e) => (trace, Throw e)
  | (trace, AssertionFailed) => (trace, AssertionFailed)
  | (trace, OutOfBounds) => (trace, OutOfBounds)
  end.

Definition emit (e : event) : action unit := ([e], Ok tt).
Definition lift {A : Type} (o : outcome A) : action A := ([], o).
Definition trace_of {A : Type} (m : action A) : list event := fst m.
Definition outcome_of {A : Type} (m : action A) : outcome A := snd m.

Section ParseOSMData.
Variable MAX_CLASS_INDEX : nat.
Variable MAX_EXCLUDABLE_CLASSES : nat.
Variable isValidClassName : string -> bool.
Context {Edge LaneDescriptionMap TurnRestriction ConditionalTurnRestriction : Type}.

(** [ExtractionContainers], as far as the driver reads it. *)
Record ExtractionContainers : Type := {
  all_edges_list : list Edge;
  unconditional_turn_restrictions : list TurnRestriction;
  conditional_turn_restrictions : list ConditionalTurnRestriction
}.

(** What the two reading pipelines leave behind: the containers, the class
    map and the lane map that the extractor callbacks fill.  The pipelines run
    the profile and the callbacks, whose code is missing; a run of
    [ParseOSMData] is described by the state they end in. *)
Record ParsedData : Type := {
  extraction_containers : ExtractionContainers;
  classes_map : gmap string ClassData;
  turn_lane_map : LaneDescriptionMap
}.

(** [ExtractionContainers::PrepareData], whose code is missing, is a
    parameter: it rewrites the containers and writes the .osrm and .names
    files. *)
Variable PrepareData : ExtractionContainers -> ExtractionContainers.

Definition ParseOSMData (scripting_environment : ScriptingEnvironment)
    (parsed : ParsedData)
    : action (LaneDescriptionMap * list TurnRestriction * list ConditionalTurnRestriction) :=
  (* Parse OSM header, write the .timestamp file *)
  _ ← emit EvWriteTimestamp;
  (* Relations reading pipeline *)
  _ ← emit EvParseRelations;
  (* Nodes and ways reading pipeline *)
  _ ← emit EvParseWaysAndNodes;
  _ ← lift (if bool_decide (all_edges_list (extraction_containers parsed) = [])
            then Throw NoEdgesRemaining else Ok tt);
  _ ← emit EvPrepareData;
  let extraction_containers := PrepareData (extraction_containers parsed) in
  let profile_properties := GetProfileProperties scripting_environment in
  r ← lift (SetClassNames MAX_CLASS_INDEX isValidClassName
              (GetClassNames scripting_environment)
              (classes_map parsed) profile_properties);
  let excludable_classes := GetExcludableClasses scripting_environment in
  profile_properties ← lift (SetExcludableClasses MAX_EXCLUDABLE_CLASSES
                               r.1 excludable_classes r.2);
  _ ← emit (EvWriteProfileProperties profile_properties);
  mret (turn_lane_map parsed,
        unconditional_turn_restrictions extraction_containers,
        conditional_turn_restrictions extraction_containers).
End ParseOSMData.

(** ** Edge-based nodes, edges and segments

    The headers that declare these types are missing; the records have the
    fields the driver reads and writes, under their names in the code, and
    the attributes that section 3 of the spec gives them. *)

Abbreviation NodeID := N (only parsing).

(** [unsigned] arithmetic is modulo [2^32]. *)
Definition wrap32 (n : N) : N := (n mod 2 ^ 32)%N.

(** [static_cast<unsigned int>] of an [int]. *)
Definition to_unsigned (z : Z) : Z := (z mod 2 ^ 32)%Z.

Module SegmentID.
Record t : Type := mk { id : NodeID; enabled : bool }.
End SegmentID.

Module EdgeBasedNodeSegment.
Record t : Type := mk {
  forward_segment_id : SegmentID.t;
  reverse_segment_id : SegmentID.t;
  u : NodeID;
  v : NodeID;
  fwd_segment_position : N
}.
End EdgeBasedNodeSegment.

Module EdgeBasedEdge.
Record EdgeData : Type := mkData {
  (* EdgeWeight, a signed 32-bit integer *)
  weight : Z;
  duration : Z;
  forward : bool;
  backward : bool
}.
Record t : Type := mk { source : NodeID; target : NodeID; data : EdgeData }.
End EdgeBasedEdge.

(** Modelled from the spec: the declaration of [ComponentID] is missing.
    "record its component id (stored as 1 + index so 0 can mean unlabeled) and
    a tiny flag": the id is the 32-bit value the driver computes. *)
Module ComponentID.
Record t : Type := mk { id : N; is_tiny : bool }.
End ComponentID.

Module EdgeBasedNode.
Record t : Type := mk {
  geometry_id : N;
  component_id : ComponentID.t;
  annotation_id : N
}.

Definition set_component_id (c : ComponentID.t) (n : t) : t :=
  {| geometry_id := geometry_id n; component_id := c;
     annotation_id := annotation_id n |}.
End EdgeBasedNode.

(** [EdgeBasedNodeDataContainer]: [nodes] is the vector [FindComponents]
    writes to. *)
Record EdgeBasedNodeDataContainer : Type := {
  nodes : list EdgeBasedNode.t
}.

(** ** BuildRTree *)

(** The loop that filters the segments in place: [in_iter] walks the vector,
    [out_iter] is where the next start point goes. *)
Fixpoint filter_startpoints (node_is_startpoint : list bool)
    (edge_based_node_segments : list EdgeBasedNodeSegment.t)
    (out_iter in_iter : nat) : outcome (list EdgeBasedNodeSegment.t * nat) :=
  match node_is_startpoint with
  | [] => Ok (edge_based_node_segments, out_iter)
  | flag :: rest =>
      _ ← BOOST_ASSERT (in_iter <? length edge_based_node_segments);
      if flag
      then
        let segments' :=
          match edge_based_node_segments !! in_iter with
          | Some s => <[out_iter := s]> edge_based_node_segments
          | None => edge_based_node_segments
          end in
        filter_startpoints rest segments' (S out_iter) (S in_iter)
      else filter_startpoints rest edge_based_node_segments out_iter (S in_iter)
  end.

(** Modelled from the spec: [util::StaticRTree] (util/static_rtree.hpp) is
    missing.  "Build a bulk-loaded R-tree over the surviving segments": the
    tree is taken as the sequence of segments it is built over. *)
Record StaticRTree : Type := { rtree_segments : list EdgeBasedNodeSegment.t }.

Definition BuildRTree (edge_based_node_segments : list EdgeBasedNodeSegment.t)
    (node_is_startpoint : list bool) : outcome StaticRTree :=
  _ ← BOOST_ASSERT (length node_is_startpoint =? length edge_based_node_segments);
  r ← filter_startpoints node_is_startpoint edge_based_node_segments 0 0;
  let new_size := r.2 in
  if new_size =? 0 then Throw NoSnappableEdges
  else Ok {| rtree_segments := take new_size r.1 |}.

(** The segments whose index is flagged in [node_is_startpoint], in order. *)
Fixpoint startpoint_segments (edge_based_node_segments : list EdgeBasedNodeSegment.t)
    (node_is_startpoint : list bool) : list EdgeBasedNodeSegment.t :=
  match edge_based_node_segments, node_is_startpoint with
  | s :: segments, flag :: flags =>
      if flag then s :: startpoint_segments segments flags
      else startpoint_segments segments flags
  | _, _ => []
  end.

(** ** IsSegregated *)

(** The road priority classes the length threshold tells apart; every other
    value of [guidance::RoadPriorityClass::Enum], whose declaration is
    missing, takes the [default] branch. *)
Inductive RoadPriorityClass : Type :=
| MOTORWAY
| TRUNK
| PRIMARY
| SECONDARY
| TERTIARY
| OTHER_PRIORITY_CLASS.

Module EdgeInfo.
Record t : Type := mk {
  node : NodeID;
  name : string;
  (* 0 - outgoing (forward), 1 - incoming (reverse), 2 - both *)
  direction : Z;
  road_class : ClassData;
  road_priority_class : RoadPriorityClass
}.

(** [EdgeInfo::LessName] *)
Definition LessName (e1 e2 : t) : bool := String.ltb (name e1) (name e2).
End EdgeInfo.

(** [std::numeric_limits<double>::max()] *)
Definition DBL_MAX : float := 0x1.fffffffffffffp+1023%float.

(** [std::min(a, b)]: [b] when [b < a], else [a]. *)
Definition std_min (a b : float) : float := if PrimFloat.ltb b a then b else a.

Definition get_length_threshold (e : EdgeInfo.t) : float :=
  match EdgeInfo.road_priority_class e with
  | MOTORWAY | TRUNK => 30%float
  | PRIMARY => 20%float
  | SECONDARY | TERTIARY => 10%float
  | OTHER_PRIORITY_CLASS => 5%float
  end.

(** [std::lower_bound] over positions of [v]: the range is [len] elements from
    [first]; each round halves it, so [fuel = len] rounds are enough. *)
Fixpoint lower_bound (fuel : nat) (v : list EdgeInfo.t) (value : EdgeInfo.t)
    (first len : nat) : nat :=
  match fuel with
  | O => first
  | S fuel' =>
      if len =? 0 then first
      else
        let half := len / 2 in
        let middle := first + half in
        match v !! middle with
        | Some e =>
            if EdgeInfo.LessName e value
            then lower_bound fuel' v value (S middle) (len - half - 1)
            else lower_bound fuel' v value first half
        | None => first
        end
  end.

(** [std::binary_search(v.begin(), v.end(), value, EdgeInfo::LessName())] *)
Definition binary_search (v : list EdgeInfo.t) (value : EdgeInfo.t) : bool :=
  let first := lower_bound (length v) v value 0 (length v) in
  match v !! first with
  | Some e => negb (EdgeInfo.LessName value e)
  | None => false
  end.

(** The set_intersection like routine: walk both sorted vectors, pair the
    heads when their names agree (and are not empty) and advance both. *)
Fixpoint common_pairs (v1 v2 : list EdgeInfo.t) : list (EdgeInfo.t * EdgeInfo.t) :=
  match v1 with
  | [] => []
  | e1 :: r1 =>
      (fix against (v2 : list EdgeInfo.t) : list (EdgeInfo.t * EdgeInfo.t) :=
         match v2 with
         | [] => []
         | e2 :: r2 =>
             if String.eqb (EdgeInfo.name e1) (EdgeInfo.name e2)
             then
               if String.eqb (EdgeInfo.name e1) EmptyString
               then common_pairs r1 r2
               else (e1, e2) :: common_pairs r1 r2
             else if String.ltb (EdgeInfo.name e1) (EdgeInfo.name e2)
             then common_pairs r1 v2
             else against r2
         end) v2
  end.

Definition check_equal_class (e : EdgeInfo.t * EdgeInfo.t) : bool :=
  N.eqb (EdgeInfo.road_class e.1) (EdgeInfo.road_class e.2).

Definition length_threshold (commons : list (EdgeInfo.t * EdgeInfo.t)) : float :=
  fold_left
    (fun threshold e =>
       std_min threshold (get_length_threshold e.1 + get_length_threshold e.2)%float)
    commons DBL_MAX.

Section IsSegregated.
(** [std::sort] with [EdgeInfo::LessName]: some permutation of the vector in
    which no element is less than one before it.  The order of elements of
    equal name is left open, as it is by the C++ standard. *)
Variable std_sort : list EdgeInfo.t -> list EdgeInfo.t.

Definition IsSegregated (v1 v2 : list EdgeInfo.t) (current : EdgeInfo.t)
    (edgeLength : float) : bool :=
  if (length v1 <? 2) || (length v2 <? 2) then false
  else
    let v1 := std_sort v1 in
    let v2 := std_sort v2 in
    if negb (String.eqb (EdgeInfo.name current) EmptyString)
       && (negb (binary_search v1 current) && negb (binary_search v2 current))
    then false
    else
      let commons := common_pairs v1 v2 in
      if length commons <? 2 then false
      else
        let equal_class_count := length (List.filter check_equal_class commons) in
        if equal_class_count <? 2 then false
        else PrimFloat.leb edgeLength (length_threshold commons).
End IsSegregated.

(** Sortedness as [std::sort] leaves a vector. *)
Definition sorted_by_name (v : list EdgeInfo.t) : Prop :=
  StronglySorted (fun e1 e2 => EdgeInfo.LessName e2 e1 = false) v.

(** A sort that meets the contract: stdpp's merge sort on the name order. *)
Definition name_le (e1 e2 : EdgeInfo.t) : Prop :=
  String.le (EdgeInfo.name e1) (EdgeInfo.name e2).

#[global] Instance name_le_dec : RelDecision name_le.
Proof. intros e1 e2. unfold name_le. apply _. Defined.

Definition merge_sort_by_name (v : list EdgeInfo.t) : list EdgeInfo.t :=
  merge_sort name_le v.

(** ** FindComponents *)

(** [InputEdge] ([SortableEdgeWithData<void>] of util/static_graph.hpp, which
    is missing): a (source, target) pair, ordered by source, then target. *)
Abbreviation InputEdge := (NodeID * NodeID)%type (only parsing).

Definition InputEdge_leb (a b : InputEdge) : bool :=
  (a.1 <? b.1)%N || ((a.1 =? b.1)%N && (a.2 <=? b.2)%N).

Definition InputEdge_le (a b : InputEdge) : Prop := InputEdge_leb a b = true.

#[global] Instance InputEdge_le_dec : RelDecision InputEdge_le.
Proof. intros a b. unfold InputEdge_le. apply _. Defined.

(** [tbb::parallel_sort(edges.begin(), edges.end())] *)
Definition parallel_sort (edges : list InputEdge) : list InputEdge :=
  merge_sort InputEdge_le edges.

(** [edges.erase(std::unique(edges.begin(), edges.end()), edges.end())]: of
    each run of equal neighbours one is kept (equal edges are the same
    pair). *)
Fixpoint std_unique (edges : list InputEdge) : list InputEdge :=
  match edges with
  | [] => []
  | a :: rest =>
      match rest with
      | b :: _ =>
          if bool_decide (a = b) then std_unique rest else a :: std_unique rest
      | [] => [a]
      end
  end.

(** Modelled from the spec: [util::StaticGraph] (util/static_graph.hpp) is
    missing.  "Sort, deduplicate. Build a compact static graph.": the graph is
    its number of nodes and its sorted array of edges. *)
Record StaticGraph : Type := {
  number_of_nodes : N;
  edge_array : list InputEdge
}.

Definition has_edge (g : StaticGraph) (a b : NodeID) : Prop := (a, b) ∈ edge_array g.

(** Every edge of the graph joins two of its nodes. *)
Definition graph_wf (g : StaticGraph) : Prop :=
  forall a b, has_edge g a b -> (a < number_of_nodes g)%N /\ (b < number_of_nodes g)%N.

(** Two nodes are strongly connected when each reaches the other. *)
Definition strongly_connected (g : StaticGraph) (a b : NodeID) : Prop :=
  rtc (has_edge g) a b /\ rtc (has_edge g) b a.

Definition graph_nodes (g : StaticGraph) : list NodeID :=
  N.of_nat <$> seq 0 (N.to_nat (number_of_nodes g)).

(** Modelled from the spec: [TarjanSCC] (extractor/tarjan_scc.hpp) is missing.
    "Run Tarjan's SCC.  For each EBN, record its component id (stored as
    1 + index ...) and a tiny flag set when the component's size is ...": after
    [Run], [GetComponentID] gives the index of a node's strongly-connected
    component, indices are smaller than the number of nodes, and
    [GetComponentSize] gives the number of nodes of a component. *)
Class TarjanSCC : Type := {
  GetComponentID : StaticGraph -> NodeID -> N;
  GetComponentSize : StaticGraph -> N -> N;
  GetComponentID_spec : forall g a b,
    graph_wf g -> (a < number_of_nodes g)%N -> (b < number_of_nodes g)%N ->
    (GetComponentID g a = GetComponentID g b <-> strongly_connected g a b);
  GetComponentID_bound : forall g a,
    graph_wf g -> (a < number_of_nodes g)%N ->
    (GetComponentID g a < number_of_nodes g)%N;
  GetComponentSize_spec : forall g a,
    graph_wf g -> (a < number_of_nodes g)%N ->
    GetComponentSize g (GetComponentID g a) =
    N.of_nat (length (List.filter
                        (fun b => (GetComponentID g b =? GetComponentID g a)%N)
                        (graph_nodes g)))
}.

Section FindComponents.
Context `{TarjanSCC}.
(** [config.small_component_size] *)
Variable small_component_size : N.

(** The loop over the edge-based edges. *)
Fixpoint add_edge_based_edges (number_of_edge_based_nodes : N)
    (input_edge_list : list EdgeBasedEdge.t) (edges : list InputEdge)
    : outcome (list InputEdge) :=
  match input_edge_list with
  | [] => Ok edges
  | edge :: rest =>
      _ ← BOOST_ASSERT (0 <? to_unsigned
                          (Z.max (EdgeBasedEdge.weight (EdgeBasedEdge.data edge)) 1))%Z;
      _ ← BOOST_ASSERT (EdgeBasedEdge.source edge <? number_of_edge_based_nodes)%N;
      _ ← BOOST_ASSERT (EdgeBasedEdge.target edge <? number_of_edge_based_nodes)%N;
      let edges :=
        if EdgeBasedEdge.forward (EdgeBasedEdge.data edge)
        then edges ++ [(EdgeBasedEdge.source edge, EdgeBasedEdge.target edge)]
        else edges in
      let edges :=
        if EdgeBasedEdge.backward (EdgeBasedEdge.data edge)
        then edges ++ [(EdgeBasedEdge.target edge, EdgeBasedEdge.source edge)]
        else edges in
      add_edge_based_edges number_of_edge_based_nodes rest edges
  end.

(** The loop over the segments: connect forward and backward nodes of each
    edge. *)
Fixpoint add_segment_edges (number_of_edge_based_nodes : N)
    (input_node_segments : list EdgeBasedNodeSegment.t) (edges : list InputEdge)
    : outcome (list InputEdge) :=
  match input_node_segments with
  | [] => Ok edges
  | segment :: rest =>
      let fwd := SegmentID.id (EdgeBasedNodeSegment.forward_segment_id segment) in
      let rev := SegmentID.id (EdgeBasedNodeSegment.reverse_segment_id segment) in
      if SegmentID.enabled (EdgeBasedNodeSegment.reverse_segment_id segment)
      then
        _ ← BOOST_ASSERT (fwd <? number_of_edge_based_nodes)%N;
        _ ← BOOST_ASSERT (rev <? number_of_edge_based_nodes)%N;
        add_segment_edges number_of_edge_based_nodes rest
          (edges ++ [(fwd, rev); (rev, fwd)])
      else add_segment_edges number_of_edge_based_nodes rest edges
  end.

(** The loop over the node ids: [count] ids are left, from [node_id] on. *)
Fixpoint label_nodes (component_search : StaticGraph) (count : nat)
    (node_id : NodeID) (nodes : list EdgeBasedNode.t)
    : outcome (list EdgeBasedNode.t) :=
  match count with
  | O => Ok nodes
  | S count' =>
      let forward_component := GetComponentID component_search node_id in
      let component_size := GetComponentSize component_search forward_component in
      let is_tiny := (component_size <? small_component_size)%N in
      _ ← BOOST_ASSERT (node_id <? N.of_nat (length nodes))%N;
      label_nodes component_search count' (wrap32 (node_id + 1))
        (alter (EdgeBasedNode.set_component_id
                  {| ComponentID.id := wrap32 (1 + forward_component);
                     ComponentID.is_tiny := is_tiny |})
               (N.to_nat node_id) nodes)
  end.

(** The graph the component search runs on. *)
Definition component_graph (number_of_edge_based_nodes : N)
    (edges : list InputEdge) : StaticGraph :=
  {| number_of_nodes := number_of_edge_based_nodes;
     edge_array := std_unique (parallel_sort edges) |}.

Definition FindComponents (number_of_edge_based_nodes : N)
    (input_edge_list : list EdgeBasedEdge.t)
    (input_node_segments : list EdgeBasedNodeSegment.t)
    (nodes_container : EdgeBasedNodeDataContainer)
    : outcome EdgeBasedNodeDataContainer :=
  edges ← add_edge_based_edges number_of_edge_based_nodes input_edge_list [];
  edges ← add_segment_edges number_of_edge_based_nodes input_node_segments edges;
  let uncontracted_graph := component_graph number_of_edge_based_nodes edges in
  nodes' ← label_nodes uncontracted_graph (N.to_nat number_of_edge_based_nodes) 0%N
             (nodes nodes_container);
  Ok {| nodes := nodes' |}.
End FindComponents.

(** The edge list of section 4.I of the spec, without the assertions: an edge
    per direction of every edge-based edge ... *)
Definition directed_edges (input_edge_list : list EdgeBasedEdge.t) : list InputEdge :=
  flat_map
    (fun edge =>
       (if EdgeBasedEdge.forward (EdgeBasedEdge.data edge)
        then [(EdgeBasedEdge.source edge, EdgeBasedEdge.target edge)] else [])
       ++
       (if EdgeBasedEdge.backward (EdgeBasedEdge.data edge)
        then [(EdgeBasedEdge.target edge, EdgeBasedEdge.source edge)] else []))
    input_edge_list.

(** ... and mate edges in both directions for every segment with an enabled
    reverse. *)
Definition mate_edges (input_node_segments : list EdgeBasedNodeSegment.t)
    : list InputEdge :=
  flat_map
    (fun segment =>
       let fwd := SegmentID.id (EdgeBasedNodeSegment.forward_segment_id segment) in
       let rev := SegmentID.id (EdgeBasedNodeSegment.reverse_segment_id segment) in
       if SegmentID.enabled (EdgeBasedNodeSegment.reverse_segment_id segment)
       then [(fwd, rev); (rev, fwd)] else [])
    input_node_segments.

Definition scc_graph (number_of_edge_based_nodes : N)
    (input_edge_list : list EdgeBasedEdge.t)
    (input_node_segments : list EdgeBasedNodeSegment.t) : StaticGraph :=
  {| number_of_nodes := number_of_edge_based_nodes;
     edge_array :=
       std_unique (parallel_sort (directed_edges input_edge_list
                                  ++ mate_edges input_node_segments)) |}.

(** What [FindComponents] stores for a node: one more than the index of its
    component, and whether the component is smaller than
    [small_component_size]. *)
Definition component_label `{TarjanSCC} (small_component_size : N)
    (g : StaticGraph) (node_id : NodeID) : ComponentID.t :=
  {| ComponentID.id := wrap32 (1 + GetComponentID g node_id);
     ComponentID.is_tiny :=
       (GetComponentSize g (GetComponentID g node_id) <? small_component_size)%N |}.

(** The nodes of [g] strongly connected with [a]: its component. *)
Definition is_component_of (g : StaticGraph) (a : NodeID) (members : list NodeID) : Prop :=
  NoDup members /\
  forall b, b ∈ members <-> (b < number_of_nodes g)%N /\ strongly_connected g a b.

(** *** A component search that can be run

    Reachability by bounded search; the component of a node is numbered by the
    rank of its least member among the least members of all components. *)
Module NaiveSCC.
Definition successors (g : StaticGraph) (a : NodeID) : list NodeID :=
  snd <$> List.filter (fun e => (e.1 =? a)%N) (edge_array g).

Fixpoint reaches (g : StaticGraph) (fuel : nat) (a b : NodeID) : bool :=
  (a =? b)%N ||
  match fuel with
  | O => false
  | S fuel' => existsb (fun c => reaches g fuel' c b) (successors g a)
  end.

Definition connected (g : StaticGraph) (a b : NodeID) : bool :=
  let fuel := N.to_nat (number_of_nodes g) in
  reaches g fuel a b && reaches g fuel b a.

(** The least node connected with [a]. *)
Definition root (g : StaticGraph) (a : NodeID) : NodeID :=
  default a (List.find (connected g a) (graph_nodes g)).

Definition is_root (g : StaticGraph) (a : NodeID) : bool := (root g a =? a)%N.

(** The number of roots below [r]. *)
Definition rank (g : StaticGraph) (r : NodeID) : N :=
  N.of_nat (length (List.filter (is_root g) (N.of_nat <$> seq 0 (N.to_nat r)))).

Definition component_id (g : StaticGraph) (a : NodeID) : N := rank g (root g a).

Definition component_size (g : StaticGraph) (c : N) : N :=
  N.of_nat (length (List.filter (fun b => (component_id g b =? c)%N) (graph_nodes g))).

(** [p] lists the nodes of a walk from [a] to [b], after [a]. *)
Fixpoint is_path (g : StaticGraph) (a : NodeID) (p : list NodeID) (b : NodeID) : Prop :=
  match p with
  | [] => a = b
  | c :: p' => has_edge g a c /\ is_path g c p' b
  end.
End NaiveSCC.

(** ** Definitions used to state the properties *)

(** Modelled from the spec: [isValidClassName] (extractor/class_data.hpp) is
    missing.  "names must match [A-Za-z0-9]+". *)
Definition is_alnum (c : ascii) : bool :=
  let n := nat_of_ascii c in
  ((48 <=? n) && (n <=? 57)) || ((65 <=? n) && (n <=? 90)) || ((97 <=? n) && (n <=? 122)).

Definition isValidClassName_spec (name : string) : bool :=
  negb (String.eqb name EmptyString) && forallb is_alnum (list_ascii_of_string name).

(** The masks of the combinations that are stored: the ones that are not zero,
    in the order of the combinations. *)
Definition surviving_masks (classes_map : gmap string ClassData)
    (excludable_classes : list (list string)) : list ClassData :=
  List.filter (fun mask => (0 <? mask)%N)
    ((fun combination => combination_mask classes_map combination 0%N)
       <$> excludable_classes).

(** The class index of a mask with one bit. *)
Definition class_index (MAX_CLASS_INDEX : nat) (data : ClassData) : nat :=
  hd 0 (getClassIndexes MAX_CLASS_INDEX data).

(** Every class of the map is one bit of the mask, which is what
    [SetClassNames] asserts of each entry. *)
Definition single_class_entries (MAX_CLASS_INDEX : nat)
    (classes_map : gmap string ClassData) : Prop :=
  forall name data, classes_map !! name = Some data ->
    length (getClassIndexes MAX_CLASS_INDEX data) = 1.

(** The four ways in which the declarations of a profile are invalid, as
    [SetClassNames] and [SetExcludableClasses] see them: [classes_map] holds
    the classes the ways used. *)
Definition illegal_class_name (isValidClassName : string -> bool)
    (scripting_environment : ScriptingEnvironment) : Prop :=
  exists name, name ∈ GetClassNames scripting_environment /\ isValidClassName name = false.

Definition too_many_classes (MAX_CLASS_INDEX : nat)
    (scripting_environment : ScriptingEnvironment)
    (classes_map : gmap string ClassData) : Prop :=
  size classes_map <= MAX_CLASS_INDEX + 1 /\
  MAX_CLASS_INDEX + 1 <
    size (dom classes_map ∪ list_to_set (GetClassNames scripting_environment) : gset string).

Definition too_many_excludable (MAX_EXCLUDABLE_CLASSES : nat)
    (scripting_environment : ScriptingEnvironment) : Prop :=
  MAX_EXCLUDABLE_CLASSES < length (GetExcludableClasses scripting_environment).

Definition undeclared_class_used (scripting_environment : ScriptingEnvironment)
    (classes_map : gmap string ClassData) : Prop :=
  GetClassNames scripting_environment <> [] /\
  exists name, is_Some (classes_map !! name) /\
               name ∉ GetClassNames scripting_environment.

(** The length thresholds as integers, and the least of a list of them. *)
Definition threshold_of_class (c : RoadPriorityClass) : Z :=
  match c with
  | MOTORWAY | TRUNK => 30
  | PRIMARY => 20
  | SECONDARY | TERTIARY => 10
  | OTHER_PRIORITY_CLASS => 5
  end.

Definition pair_threshold (e : EdgeInfo.t * EdgeInfo.t) : Z :=
  (threshold_of_class (EdgeInfo.road_priority_class e.1)
   + threshold_of_class (EdgeInfo.road_priority_class e.2))%Z.

Definition is_minimum (m : Z) (l : list Z) : Prop :=
  m ∈ l /\ forall x, x ∈ l -> (m <= x)%Z.

(** An integer as a [double]. *)
Definition double_of_Z (z : Z) : float := PrimFloat.of_uint63 (Uint63.of_Z z).

(** [a <= b] on [double]s, as an IEEE 754 comparison. *)
Definition double_le (a b : float) : Prop := PrimFloat.leb a b = true.

(** The gates of the segregated-edge rule. *)
Definition name_gate (v1 v2 : list EdgeInfo.t) (current : EdgeInfo.t) : Prop :=
  EdgeInfo.name current <> EmptyString ->
  exists e, (e ∈ v1 \/ e ∈ v2) /\ EdgeInfo.name e = EdgeInfo.name current.

Definition gates_hold (std_sort : list EdgeInfo.t -> list EdgeInfo.t)
    (v1 v2 : list EdgeInfo.t) (current : EdgeInfo.t) : Prop :=
  let commons := common_pairs (std_sort v1) (std_sort v2) in
  name_gate v1 v2 current /\
  2 <= length commons /\
  2 <= length (List.filter check_equal_class commons).

(** The sums of two class thresholds. *)
Definition pair_thresholds : list Z := [10; 15; 20; 25; 30; 35; 40; 50; 60]%Z.

Definition ingestion : list event :=
  [EvWriteTimestamp; EvParseRelations; EvParseWaysAndNodes].

(** ** Inputs of the examples *)

(** The constants as they are for an 8-bit [ClassData]; the examples below are
    run with them. *)
Definition example_MAX_CLASS_INDEX : nat := 7.

Definition example_MAX_EXCLUDABLE_CLASSES : nat := 8.

Definition example_classes_map : gmap string ClassData :=
  <["toll"%string := 1%N]> (<["ferry"%string := 2%N]> ∅).

Definition example_excludable_classes : list (list string) :=
  [["toll"]; ["tunnel"]; ["ferry"; "toll"]]%string.

(** A class map with a name the name check rejects and a class no list
    declares: nothing is thrown and both names are stored. *)
Definition example_unvalidated_classes : gmap string ClassData :=
  <["no such class!"%string := 4%N]> example_classes_map.

(** A class map with a class of two bits, and one with the empty mask. *)
Definition example_two_bit_classes : gmap string ClassData :=
  {[ "toll"%string := 3%N ]}.

Definition example_empty_mask_classes : gmap string ClassData :=
  {[ "toll"%string := 0%N ]}.

Definition example_profile (class_names : list string)
    (excludable_classes : list (list string)) : ScriptingEnvironment :=
  {| GetClassNames := class_names;
     GetExcludableClasses := excludable_classes;
     GetProfileProperties := ProfileProperties.empty |}.

(** Parsed data with edges numbered by [nat], a class map and nothing else. *)
Definition example_parsed (edges : list nat)
    (classes : gmap string ClassData) : @ParsedData nat unit unit unit :=
  {| extraction_containers :=
       {| all_edges_list := edges;
          unconditional_turn_restrictions := [];
          conditional_turn_restrictions := [] |};
     classes_map := classes;
     turn_lane_map := tt |}.

Definition example_segment (fwd : N) (rev : N) (has_rev : bool) : EdgeBasedNodeSegment.t :=
  {| EdgeBasedNodeSegment.forward_segment_id := SegmentID.mk fwd true;
     EdgeBasedNodeSegment.reverse_segment_id := SegmentID.mk rev has_rev;
     EdgeBasedNodeSegment.u := fwd;
     EdgeBasedNodeSegment.v := rev;
     EdgeBasedNodeSegment.fwd_segment_position := 0 |}.

Definition example_segments : list EdgeBasedNodeSegment.t :=
  [example_segment 0 1 true; example_segment 2 3 true; example_segment 4 0 false].

(** A cross street between the two carriageways of a divided road

    The current edge is the piece of "5th" between the carriageways of
    "Broadway".  At each end the neighbours are the two adjoining pieces of
    "Broadway" (primary) and the continuation of "5th" (tertiary). *)
Definition example_edge (node : NodeID) (name : string) (c : RoadPriorityClass)
    : EdgeInfo.t :=
  {| EdgeInfo.node := node; EdgeInfo.name := name; EdgeInfo.direction := 0;
     EdgeInfo.road_class := 0%N; EdgeInfo.road_priority_class := c |}.

Definition example_v1 : list EdgeInfo.t :=
  [example_edge 10%N "Broadway" PRIMARY; example_edge 11%N "Broadway" PRIMARY;
   example_edge 12%N "5th" TERTIARY].

Definition example_v2 : list EdgeInfo.t :=
  [example_edge 20%N "5th" TERTIARY; example_edge 21%N "Broadway" PRIMARY;
   example_edge 22%N "Broadway" PRIMARY].

Definition example_current : EdgeInfo.t := example_edge 2%N "5th" TERTIARY.

(** A run of FindComponents

    Four edge-based nodes: 0 and 1 are the two directions of one segment, 2
    and 3 those of another, and the only turn leads from 0 to 2. *)
Definition example_turn (s t : NodeID) (w : Z) (fwd bwd : bool) : EdgeBasedEdge.t :=
  {| EdgeBasedEdge.source := s; EdgeBasedEdge.target := t;
     EdgeBasedEdge.data :=
       {| EdgeBasedEdge.weight := w; EdgeBasedEdge.duration := w;
          EdgeBasedEdge.forward := fwd; EdgeBasedEdge.backward := bwd |} |}.

Definition example_node (i : N) (c : N) (tiny : bool) : EdgeBasedNode.t :=
  {| EdgeBasedNode.geometry_id := i;
     EdgeBasedNode.component_id := {| ComponentID.id := c; ComponentID.is_tiny := tiny |};
     EdgeBasedNode.annotation_id := 0 |}.

Definition example_edge_list : list EdgeBasedEdge.t := [example_turn 0 2 5 true false].

Definition example_node_segments : list EdgeBasedNodeSegment.t :=
  [example_segment 0 1 true; example_segment 2 3 true].

Definition example_nodes_container : EdgeBasedNodeDataContainer :=
  {| nodes := [example_node 0 0 false; example_node 1 0 false;
               example_node 2 0 false; example_node 3 0 false] |}.

Definition example_labelled_container : EdgeBasedNodeDataContainer :=
  {| nodes := [example_node 0 1 true; example_node 1 1 true;
               example_node 2 2 true; example_node 3 2 true] |}.

(** ** The node-based graph

    Modelled from the spec: [util::NodeBasedDynamicGraph]
    (util/node_based_graph.hpp) and the annotation table are missing.
    "NodeBasedGraph: directed multigraph; each edge carries: reversed-flag,
    flags (... road classification (priority class)), ... an annotation record
    index (into a side table storing name id, class mask, ...)".  The graph is
    the interface the driver calls. *)

Abbreviation EdgeID := N (only parsing).

Module NodeBasedEdgeData.
Record t : Type := mk {
  reversed : bool;
  (* AnnotationID *)
  annotation_data : N;
  (* flags.road_classification.GetClass() *)
  road_classification : RoadPriorityClass
}.
End NodeBasedEdgeData.

Module NodeBasedEdgeAnnotation.
Record t : Type := mk { name_id : N; classes : ClassData }.
End NodeBasedEdgeAnnotation.

Record NodeBasedDynamicGraph : Type := {
  GetNumberOfNodes : N;
  GetNumberOfEdges : N;
  (* the edge ids of the range, in order *)
  GetAdjacentEdgeRange : NodeID -> list EdgeID;
  GetTarget : EdgeID -> NodeID;
  GetEdgeData : EdgeID -> NodeBasedEdgeData.t
}.

(** The node ids [0, 1, ..., GetNumberOfNodes - 1] in the order of the loops
    over them. *)
Definition node_range (graph : NodeBasedDynamicGraph) : list NodeID :=
  N.of_nat <$> seq 0 (N.to_nat (GetNumberOfNodes graph)).

(** ** FindSegregatedNodes *)

Definition set_direction (d : Z) (e : EdgeInfo.t) : EdgeInfo.t :=
  {| EdgeInfo.node := EdgeInfo.node e; EdgeInfo.name := EdgeInfo.name e;
     EdgeInfo.direction := d; EdgeInfo.road_class := EdgeInfo.road_class e;
     EdgeInfo.road_priority_class := EdgeInfo.road_priority_class e |}.

(** The loop "Merge equal infos with correct direction".  The vector is
    [before ++ curr :: between ++ rest]: the iterator [curr] is at the element
    [curr], [next] is at the head of [rest]. *)
Fixpoint merge_equal_infos (before : list EdgeInfo.t) (curr : EdgeInfo.t)
    (between rest : list EdgeInfo.t) : outcome (list EdgeInfo.t) :=
  match rest with
  | [] => Ok (before ++ curr :: between)
  | next :: rest' =>
      if (EdgeInfo.node curr =? EdgeInfo.node next)%N
      then
        _ ← BOOST_ASSERT (String.eqb (EdgeInfo.name curr) (EdgeInfo.name next));
        _ ← BOOST_ASSERT (EdgeInfo.road_class curr =? EdgeInfo.road_class next)%N;
        _ ← BOOST_ASSERT (negb (EdgeInfo.direction curr =? EdgeInfo.direction next)%Z);
        merge_equal_infos before (set_direction 2 curr) (between ++ [next]) rest'
      else merge_equal_infos (before ++ curr :: between) next [] rest'
  end.

(** [std::unique] with the predicate [e1.node == e2.node]: an element is
    dropped when it has the node of the last element kept. *)
Fixpoint unique_from (kept : EdgeInfo.t) (rest : list EdgeInfo.t) : list EdgeInfo.t :=
  match rest with
  | [] => [kept]
  | e :: rest' =>
      if (EdgeInfo.node kept =? EdgeInfo.node e)%N
      then unique_from kept rest'
      else kept :: unique_from e rest'
  end.

Definition unique_by_node (info : list EdgeInfo.t) : list EdgeInfo.t :=
  match info with
  | [] => []
  | first :: rest => unique_from first rest
  end.

Section FindSegregatedNodes.
(** [INVALID_NAMEID] (util/typedefs.hpp), [util::NameTable::GetNameForID]
    and the length of an edge's geometry (the coordinate extractor and
    [haversineDistance]), whose code is missing, are parameters. *)
Variable INVALID_NAMEID : N.
Variable GetNameForID : N -> string.
Variable get_edge_length : NodeID -> EdgeID -> NodeID -> float.
(** [std::sort] with [EdgeInfo::LessName], and [std::sort] with the comparison
    of the nodes. *)
Variable std_sort : list EdgeInfo.t -> list EdgeInfo.t.
Variable std_sort_by_node : list EdgeInfo.t -> list EdgeInfo.t.

Variable graph : NodeBasedDynamicGraph.
(** [factory.GetAnnotationData()], read at the index of an edge. *)
Variable annotation : N -> NodeBasedEdgeAnnotation.t.

(** The [EdgeInfo] that [get_edge_info] returns. *)
Definition edge_info (node : NodeID) (edgeData : NodeBasedEdgeData.t) : EdgeInfo.t :=
  let id := NodeBasedEdgeAnnotation.name_id
              (annotation (NodeBasedEdgeData.annotation_data edgeData)) in
  {| EdgeInfo.node := node;
     EdgeInfo.name := GetNameForID id;
     EdgeInfo.direction := if NodeBasedEdgeData.reversed edgeData then 1 else 0;
     EdgeInfo.road_class :=
       NodeBasedEdgeAnnotation.classes
         (annotation (NodeBasedEdgeData.annotation_data edgeData));
     EdgeInfo.road_priority_class := NodeBasedEdgeData.road_classification edgeData |}.

Definition get_edge_info (node : NodeID) (edgeData : NodeBasedEdgeData.t)
    : outcome EdgeInfo.t :=
  let id := NodeBasedEdgeAnnotation.name_id
              (annotation (NodeBasedEdgeData.annotation_data edgeData)) in
  _ ← BOOST_ASSERT (negb (id =? INVALID_NAMEID)%N);
  Ok (edge_info node edgeData).

(** The first loop of [collect_edge_info_fn]: the infos of the edges that do
    not lead to [node2]. *)
Fixpoint push_edge_infos (edges1 : list EdgeID) (node2 : NodeID)
    (info : list EdgeInfo.t) : outcome (list EdgeInfo.t) :=
  match edges1 with
  | [] => Ok info
  | e :: rest =>
      let target := GetTarget graph e in
      if (target =? node2)%N then push_edge_infos rest node2 info
      else
        i ← get_edge_info target (GetEdgeData graph e);
        push_edge_infos rest node2 (info ++ [i])
  end.

Definition collect_edge_info_fn (edges1 : list EdgeID) (node2 : NodeID)
    : outcome (list EdgeInfo.t) :=
  info ← push_edge_infos edges1 node2 [];
  if bool_decide (info = []) then Ok info
  else
    match std_sort_by_node info with
    | [] => Ok []
    | first :: rest =>
        info ← merge_equal_infos [] first [] rest;
        Ok (unique_by_node info)
    end.

Definition isSegregatedFn (edgeData : NodeBasedEdgeData.t)
    (edges1 : list EdgeID) (node1 : NodeID)
    (edges2 : list EdgeID) (node2 : NodeID) (edgeLength : float) : outcome bool :=
  v1 ← collect_edge_info_fn edges1 node2;
  v2 ← collect_edge_info_fn edges2 node1;
  current ← get_edge_info node1 edgeData;
  Ok (IsSegregated std_sort v1 v2 current edgeLength).

(** The loop over the edges of [sourceID]. *)
Fixpoint segregated_edges_of_source (sourceID : NodeID) (sourceEdges : list EdgeID)
    (remaining : list EdgeID) (segregated_edges : gset EdgeID)
    : outcome (gset EdgeID) :=
  match remaining with
  | [] => Ok segregated_edges
  | edgeID :: rest =>
      let edgeData := GetEdgeData graph edgeID in
      if NodeBasedEdgeData.reversed edgeData
      then segregated_edges_of_source sourceID sourceEdges rest segregated_edges
      else
        let targetID := GetTarget graph edgeID in
        let targetEdges := GetAdjacentEdgeRange graph targetID in
        let length := get_edge_length sourceID edgeID targetID in
        b ← isSegregatedFn edgeData sourceEdges sourceID targetEdges targetID length;
        segregated_edges_of_source sourceID sourceEdges rest
          (if b : bool then {[edgeID]} ∪ segregated_edges else segregated_edges)
  end.

(** The loop over the nodes. *)
Fixpoint segregated_edges_of_sources (sources : list NodeID)
    (segregated_edges : gset EdgeID) : outcome (gset EdgeID) :=
  match sources with
  | [] => Ok segregated_edges
  | sourceID :: rest =>
      let sourceEdges := GetAdjacentEdgeRange graph sourceID in
      segregated_edges ←
        segregated_edges_of_source sourceID sourceEdges sourceEdges segregated_edges;
      segregated_edges_of_sources rest segregated_edges
  end.

Definition FindSegregatedNodes : outcome (gset EdgeID) :=
  segregated_edges_of_sources (node_range graph) ∅.
End FindSegregatedNodes.

(** Sortedness as [std::sort] with the comparison of the nodes leaves a
    vector. *)
Definition sorted_by_node (v : list EdgeInfo.t) : Prop :=
  StronglySorted (fun e1 e2 => (EdgeInfo.node e2 <? EdgeInfo.node e1)%N = false) v.

(** A sort that meets the contract: stdpp's merge sort on the order of the
    nodes. *)
Definition node_le (e1 e2 : EdgeInfo.t) : Prop :=
  (EdgeInfo.node e1 <= EdgeInfo.node e2)%N.

#[global] Instance node_le_dec : RelDecision node_le.
Proof. intros e1 e2. unfold node_le. apply _. Defined.

Definition merge_sort_by_node (v : list EdgeInfo.t) : list EdgeInfo.t :=
  merge_sort node_le v.

(** The number of edges of a range that lead to [node]. *)
Definition edges_to (graph : NodeBasedDynamicGraph) (edges : list EdgeID)
    (node : NodeID) : nat :=
  length (List.filter (fun e => (GetTarget graph e =? node)%N) edges).

(** ** WriteCompressedNodeBasedGraph *)

(** [util::Coordinate]: fixed-point longitude and latitude, 32-bit signed. *)
Module Coordinate.
Record t : Type := mk { lon : Z; lat : Z }.
End Coordinate.

(** Modelled from the spec: [storage::io::FileWriter] (storage/io.hpp) is
    missing.  "All on-disk artifacts share a common convention: a fingerprint
    prefix ... followed by typed records.  Element counts are 64-bit
    unsigned": a file is the sequence of the records written to it. *)
Inductive written : Type :=
(* the fingerprint that a writer opened with [GenerateFingerprint] puts first *)
| WrittenFingerprint
(* [WriteElementCount64] *)
| WrittenCount64 (count : N)
(* [WriteOne] of a [NodeID] *)
| WrittenNodeID (node : NodeID)
(* [WriteOne] of a [FixedLongitude] or [FixedLatitude] *)
| WrittenFixed (value : Z).

(** "For all nodes iterate over its edges and dump (from, to) pairs" *)
Definition write_edges (graph : NodeBasedDynamicGraph) : list written :=
  flat_map
    (fun from_node =>
       flat_map
         (fun edge => [WrittenNodeID from_node; WrittenNodeID (GetTarget graph edge)])
         (GetAdjacentEdgeRange graph from_node))
    (node_range graph).

Definition write_coordinates (coordinates : list Coordinate.t) : list written :=
  flat_map
    (fun qnode => [WrittenFixed (Coordinate.lon qnode); WrittenFixed (Coordinate.lat qnode)])
    coordinates.

(** The file that [WriteCompressedNodeBasedGraph] leaves at [path]. *)
Definition WriteCompressedNodeBasedGraph (graph : NodeBasedDynamicGraph)
    (coordinates : list Coordinate.t) : outcome (list written) :=
  let num_edges := GetNumberOfEdges graph in
  let num_nodes := GetNumberOfNodes graph in
  _ ← BOOST_ASSERT (num_nodes =? N.of_nat (length coordinates))%N;
  Ok ([WrittenFingerprint; WrittenCount64 num_edges; WrittenCount64 num_nodes]
      ++ write_edges graph ++ write_coordinates coordinates).

(** ** The relation pre-pass of ParseOSMData *)

(** [std::lower_bound] and [std::binary_search] with a comparison [comp], as
    in [lower_bound] and [binary_search] above. *)
Section BinarySearch.
Context {A : Type}.
Variable comp : A -> A -> bool.

Fixpoint std_lower_bound (fuel : nat) (v : list A) (value : A) (first len : nat) : nat :=
  match fuel with
  | O => first
  | S fuel' =>
      if len =? 0 then first
      else
        let half := len / 2 in
        let middle := first + half in
        match v !! middle with
        | Some e =>
            if comp e value
            then std_lower_bound fuel' v value (S middle) (len - half - 1)
            else std_lower_bound fuel' v value first half
        | None => first
        end
  end.

Definition std_binary_search (v : list A) (value : A) : bool :=
  let first := std_lower_bound (length v) v value 0 (length v) in
  match v !! first with
  | Some e => negb (comp value e)
  | None => false
  end.
End BinarySearch.

(** Modelled from the spec: the entities of libosmium and
    [ExtractionRelation] and [ExtractionRelationContainer]
    (extractor/extraction_relation.hpp) are missing.  "For each entity of
    kind relation whose type tag matches the profile's declared supported
    relation types, build an ExtractionRelation capturing its attributes and
    member roles.  ... Merges per-buffer relation containers into the shared
    ExtractionRelationContainer."  An entity has a kind, an id, tags and
    members; a container holds the relations and, for the index of
    memberships, the pairs of a member and the relation it belongs to, both
    in the order in which they were added. *)
Module item_type.
Inductive t : Type := node | way | relation.

Definition is_relation (type : t) : bool :=
  match type with relation => true | _ => false end.
End item_type.

Abbreviation OsmIDTyped := (prod Z item_type.t) (only parsing).

Module RelationMember.
Record t : Type := mk { ref : Z; type : item_type.t; role : string }.
End RelationMember.

Module OSMEntity.
Record t : Type := mk {
  type : item_type.t;
  id : Z;
  tags : list (string * string);
  members : list RelationMember.t
}.
End OSMEntity.

(** [TagList::get_value_by_key]: the value of the first tag with the key; a
    null pointer when there is none. *)
Definition get_value_by_key (tags : list (string * string)) (key : string)
    : option string :=
  snd <$> List.find (fun t => String.eqb t.1 key) tags.

Module ExtractionRelation.
Record t : Type := mk {
  id : OsmIDTyped;
  attributes : list (string * string);
  members : list (OsmIDTyped * string)
}.

Definition AddMember (member_id : OsmIDTyped) (role : string) (r : t) : t :=
  {| id := id r; attributes := attributes r;
     members := members r ++ [(member_id, role)] |}.
End ExtractionRelation.

Module ExtractionRelationContainer.
Record t : Type := mk {
  relations_data : list ExtractionRelation.t;
  parents : list (OsmIDTyped * OsmIDTyped)
}.

Definition empty : t := {| relations_data := []; parents := [] |}.

Definition AddRelation (rel : ExtractionRelation.t) (c : t) : t :=
  {| relations_data := relations_data c ++ [rel]; parents := parents c |}.

Definition AddRelationMember (relation_id member_id : OsmIDTyped) (c : t) : t :=
  {| relations_data := relations_data c;
     parents := parents c ++ [(member_id, relation_id)] |}.

Definition GetRelationsNum (c : t) : nat := length (relations_data c).

Definition Merge (other c : t) : t :=
  {| relations_data := relations_data c ++ relations_data other;
     parents := parents c ++ parents other |}.
End ExtractionRelationContainer.

(** The loop over the members of a relation. *)
Fixpoint add_members (members : list RelationMember.t)
    (extracted_rel : ExtractionRelation.t) (relations : ExtractionRelationContainer.t)
    : ExtractionRelation.t * ExtractionRelationContainer.t :=
  match members with
  | [] => (extracted_rel, relations)
  | m :: rest =>
      let mid := (RelationMember.ref m, RelationMember.type m) in
      add_members rest
        (ExtractionRelation.AddMember mid (RelationMember.role m) extracted_rel)
        (ExtractionRelationContainer.AddRelationMember
           (ExtractionRelation.id extracted_rel) mid relations)
  end.

(** The loop of [buffer_relation_cache] over the entities of a buffer;
    [relation_types] is the sorted vector of the supported types. *)
Fixpoint cache_relations (relation_types : list string) (buffer : list OSMEntity.t)
    (relations : ExtractionRelationContainer.t) : ExtractionRelationContainer.t :=
  match buffer with
  | [] => relations
  | entity :: rest =>
      if negb (item_type.is_relation (OSMEntity.type entity))
      then cache_relations relation_types rest relations
      else
        match get_value_by_key (OSMEntity.tags entity) "type" with
        | None => cache_relations relation_types rest relations
        | Some rel_type =>
            if negb (std_binary_search String.ltb relation_types rel_type)
            then cache_relations relation_types rest relations
            else
              let extracted_rel :=
                {| ExtractionRelation.id := (OSMEntity.id entity, item_type.relation);
                   ExtractionRelation.attributes := OSMEntity.tags entity;
                   ExtractionRelation.members := [] |} in
              let '(extracted_rel, relations) :=
                add_members (OSMEntity.members entity) extracted_rel relations in
              cache_relations relation_types rest
                (ExtractionRelationContainer.AddRelation extracted_rel relations)
        end
  end.

(** [buffer_relation_cache] on a buffer of entities.  The branch for a null
    buffer is left out: the reading stage ends the pipeline instead of handing
    one on. *)
Definition buffer_relation_cache (relation_types : list string)
    (buffer : list OSMEntity.t) : ExtractionRelationContainer.t :=
  cache_relations relation_types buffer ExtractionRelationContainer.empty.

Section RelationsPipeline.
(** [std::sort(relation_types.begin(), relation_types.end())] *)
Variable std_sort_strings : list string -> list string.

(** The relations reading pipeline: the buffers go through
    [buffer_relation_cache] and, in their order, through
    [buffer_storage_relation], which counts and merges. *)
Fixpoint relations_pipeline (relation_types : list string)
    (buffers : list (list OSMEntity.t))
    (number_of_relations : N) (relations : ExtractionRelationContainer.t)
    : N * ExtractionRelationContainer.t :=
  match buffers with
  | [] => (number_of_relations, relations)
  | buffer :: rest =>
      let parsed_relations := buffer_relation_cache relation_types buffer in
      relations_pipeline relation_types rest
        (wrap32 (number_of_relations
                 + N.of_nat (ExtractionRelationContainer.GetRelationsNum parsed_relations)))
        (ExtractionRelationContainer.Merge parsed_relations relations)
  end.

Definition parse_relations (GetRelations : list string)
    (buffers : list (list OSMEntity.t)) : N * ExtractionRelationContainer.t :=
  let relation_types := std_sort_strings GetRelations in
  relations_pipeline relation_types buffers 0%N ExtractionRelationContainer.empty.
End RelationsPipeline.

(** ** Definitions used to state the further properties *)

(** The three assertions of [FindComponents] on an edge-based edge, and the
    two on a segment whose reverse id is enabled. *)
Definition edge_assertions (number_of_edge_based_nodes : N)
    (edge : EdgeBasedEdge.t) : bool :=
  (0 <? to_unsigned (Z.max (EdgeBasedEdge.weight (EdgeBasedEdge.data edge)) 1))%Z
  && (EdgeBasedEdge.source edge <? number_of_edge_based_nodes)%N
  && (EdgeBasedEdge.target edge <? number_of_edge_based_nodes)%N.

Definition segment_assertions (number_of_edge_based_nodes : N)
    (segment : EdgeBasedNodeSegment.t) : bool :=
  if SegmentID.enabled (EdgeBasedNodeSegment.reverse_segment_id segment)
  then (SegmentID.id (EdgeBasedNodeSegment.forward_segment_id segment)
          <? number_of_edge_based_nodes)%N
       && (SegmentID.id (EdgeBasedNodeSegment.reverse_segment_id segment)
             <? number_of_edge_based_nodes)%N
  else true.

(** The ids of an edge-based edge and of a segment are in range. *)
Definition edge_in_range (number_of_edge_based_nodes : N)
    (edge : EdgeBasedEdge.t) : Prop :=
  (EdgeBasedEdge.source edge < number_of_edge_based_nodes)%N
  /\ (EdgeBasedEdge.target edge < number_of_edge_based_nodes)%N.

Definition segment_in_range (number_of_edge_based_nodes : N)
    (segment : EdgeBasedNodeSegment.t) : Prop :=
  SegmentID.enabled (EdgeBasedNodeSegment.reverse_segment_id segment) = true ->
  (SegmentID.id (EdgeBasedNodeSegment.forward_segment_id segment)
     < number_of_edge_based_nodes)%N
  /\ (SegmentID.id (EdgeBasedNodeSegment.reverse_segment_id segment)
        < number_of_edge_based_nodes)%N.

(** [EdgeWeight] is a signed 32-bit integer. *)
Definition is_int32 (z : Z) : Prop := (- 2 ^ 31 <= z < 2 ^ 31)%Z.

(** Strictly ascending by source, then target. *)
Definition InputEdge_lt (a b : InputEdge) : Prop := InputEdge_le a b /\ a <> b.

(** A second [std::sort] with [EdgeInfo::LessName]: elements of equal name
    come in the order of their class masks. *)
Definition name_class_le (e1 e2 : EdgeInfo.t) : Prop :=
  name_le e1 e2 /\
  (name_le e2 e1 -> (EdgeInfo.road_class e1 <= EdgeInfo.road_class e2)%N).

#[global] Instance name_class_le_dec : RelDecision name_class_le.
Proof. intros e1 e2. unfold name_class_le. apply _. Defined.

Definition merge_sort_by_name_and_class (v : list EdgeInfo.t) : list EdgeInfo.t :=
  merge_sort name_class_le v.

(** Two neighbours named "A" at each end, of two different classes. *)
Definition example_classed_edge (node : NodeID) (name : string) (road_class : ClassData)
    : EdgeInfo.t :=
  {| EdgeInfo.node := node; EdgeInfo.name := name; EdgeInfo.direction := 0;
     EdgeInfo.road_class := road_class; EdgeInfo.road_priority_class := PRIMARY |}.

Definition example_tied_v1 : list EdgeInfo.t :=
  [example_classed_edge 10%N "A" 1%N; example_classed_edge 11%N "A" 2%N].

Definition example_tied_v2 : list EdgeInfo.t :=
  [example_classed_edge 21%N "A" 2%N; example_classed_edge 20%N "A" 1%N].

(** One neighbour of each name at each end. *)
Definition example_named_v1 : list EdgeInfo.t :=
  [example_edge 10%N "Broadway" PRIMARY; example_edge 12%N "5th" TERTIARY].

Definition example_named_v2 : list EdgeInfo.t :=
  [example_edge 20%N "5th" TERTIARY; example_edge 21%N "Broadway" PRIMARY].

(** The class map numbers its classes: it has at most [MAX_CLASS_INDEX + 1]
    entries, each is the mask of an index below the number of entries, and
    no two names share a mask. *)
Definition numbered_classes (MAX_CLASS_INDEX : nat)
    (classes_map : gmap string ClassData) : Prop :=
  size classes_map <= MAX_CLASS_INDEX + 1 /\
  (forall name data, classes_map !! name = Some data ->
     exists index, index < size classes_map /\ data = getClassData MAX_CLASS_INDEX index) /\
  (forall name1 name2 data,
     classes_map !! name1 = Some data -> classes_map !! name2 = Some data ->
     name1 = name2).

(** A declaration that names the two classes of [example_classes_map] and one
    more, and what [SetClassNames] makes of it. *)
Definition example_declared_map : gmap string ClassData :=
  <["tunnel"%string := 4%N]> example_classes_map.

Definition example_declared_properties : ProfileProperties.t :=
  {| ProfileProperties.class_names :=
       <[0 := "toll"%string]> (<[1 := "ferry"%string]> (<[2 := "tunnel"%string]> ∅));
     ProfileProperties.excludable_classes := ∅ |}.

(** The number of infos of a vector with the node [node]. *)
Definition count_node (node : NodeID) (info : list EdgeInfo.t) : nat :=
  length (List.filter (fun e => (EdgeInfo.node e =? node)%N) info).

(** What the merge loop and [std::unique] leave of [curr :: rest] together:
    of each run of infos of one node the first, with the direction 2 when
    the run has more than one info. *)
Fixpoint merge_runs (curr : EdgeInfo.t) (rest : list EdgeInfo.t) : list EdgeInfo.t :=
  match rest with
  | [] => [curr]
  | next :: rest' =>
      if (EdgeInfo.node curr =? EdgeInfo.node next)%N
      then merge_runs (set_direction 2 curr) rest'
      else curr :: merge_runs next rest'
  end.

(** Strictly ascending nodes. *)
Definition node_lt (e1 e2 : EdgeInfo.t) : Prop :=
  (EdgeInfo.node e1 < EdgeInfo.node e2)%N.

(** At [node] the graph has edges to two different nodes, both other than
    [other]. *)
Definition two_other_neighbours (graph : NodeBasedDynamicGraph)
    (node other : NodeID) : Prop :=
  exists a b, a <> b /\ a <> other /\ b <> other /\
    (exists e, e ∈ GetAdjacentEdgeRange graph node /\ GetTarget graph e = a) /\
    (exists e, e ∈ GetAdjacentEdgeRange graph node /\ GetTarget graph e = b).

(** A cross street in a node-based graph

    The edge 0 leads from node 0 to node 1: the piece of "5th" between the
    two carriageways of "Broadway".  At node 0 there are "Broadway" to the
    nodes 2 (in both directions: the edges 1 and 2) and 3 and "5th" to node
    4; at node 1 there are "5th" to node 5 and "Broadway" to the nodes 6 and
    7, and the reversed edge 5 back to node 0. *)
Definition example_INVALID_NAMEID : N := 4294967295.

Definition example_GetNameForID (id : N) : string :=
  match id with
  | 1%N => "5th"
  | 2%N => "Broadway"
  | _ => EmptyString
  end.

Definition example_annotation (id : N) : NodeBasedEdgeAnnotation.t :=
  match id with
  | 0%N => {| NodeBasedEdgeAnnotation.name_id := 1; NodeBasedEdgeAnnotation.classes := 0%N |}
  | _ => {| NodeBasedEdgeAnnotation.name_id := 2; NodeBasedEdgeAnnotation.classes := 0%N |}
  end.

Definition example_fifth (reversed : bool) : NodeBasedEdgeData.t :=
  {| NodeBasedEdgeData.reversed := reversed;
     NodeBasedEdgeData.annotation_data := 0;
     NodeBasedEdgeData.road_classification := TERTIARY |}.

Definition example_broadway (reversed : bool) : NodeBasedEdgeData.t :=
  {| NodeBasedEdgeData.reversed := reversed;
     NodeBasedEdgeData.annotation_data := 1;
     NodeBasedEdgeData.road_classification := PRIMARY |}.

Definition example_graph : NodeBasedDynamicGraph :=
  {| GetNumberOfNodes := 8;
     GetNumberOfEdges := 9;
     GetAdjacentEdgeRange := fun node =>
       match node with
       | 0%N => [0; 1; 2; 3; 4]%N
       | 1%N => [5; 6; 7; 8]%N
       | _ => []
       end;
     GetTarget := fun edge =>
       match edge with
       | 0%N => 1 | 1%N => 2 | 2%N => 2 | 3%N => 3 | 4%N => 4
       | 5%N => 0 | 6%N => 5 | 7%N => 6 | _ => 7
       end%N;
     GetEdgeData := fun edge =>
       match edge with
       | 0%N => example_fifth false
       | 1%N => example_broadway false
       | 2%N => example_broadway true
       | 3%N => example_broadway false
       | 4%N => example_fifth false
       | 5%N => example_fifth true
       | 6%N => example_fifth false
       | _ => example_broadway false
       end |}.

Definition example_get_edge_length (from_node : NodeID) (edgeID : EdgeID)
    (to_node : NodeID) : float := 12%float.

(** The infos collected at node 0 for the edge 0. *)
Definition example_collected : list EdgeInfo.t :=
  [ {| EdgeInfo.node := 2; EdgeInfo.name := "Broadway"; EdgeInfo.direction := 2;
       EdgeInfo.road_class := 0%N; EdgeInfo.road_priority_class := PRIMARY |};
    example_edge 3%N "Broadway" PRIMARY;
    example_edge 4%N "5th" TERTIARY ].

(** The (from, to) pairs of the edges of a graph, node by node. *)
Definition edge_pairs (graph : NodeBasedDynamicGraph) : list (NodeID * NodeID) :=
  flat_map
    (fun from_node =>
       List.map (fun edge => (from_node, GetTarget graph edge))
         (GetAdjacentEdgeRange graph from_node))
    (node_range graph).

(** A reader of the layout "| Fingerprint | #e | #n | edges | coordinates |":
    [count] pairs of node ids, then [count] coordinates, then the end of the
    file. *)
Fixpoint read_edges (count : nat) (file : list written)
    : option (list (NodeID * NodeID) * list written) :=
  match count with
  | O => Some ([], file)
  | S count' =>
      match file with
      | WrittenNodeID from_node :: WrittenNodeID to_node :: file' =>
          match read_edges count' file' with
          | Some (edges, rest) => Some ((from_node, to_node) :: edges, rest)
          | None => None
          end
      | _ => None
      end
  end.

Fixpoint read_coordinates (count : nat) (file : list written)
    : option (list Coordinate.t * list written) :=
  match count with
  | O => Some ([], file)
  | S count' =>
      match file with
      | WrittenFixed lon :: WrittenFixed lat :: file' =>
          match read_coordinates count' file' with
          | Some (coordinates, rest) =>
              Some ({| Coordinate.lon := lon; Coordinate.lat := lat |} :: coordinates, rest)
          | None => None
          end
      | _ => None
      end
  end.

Definition read_compressed_node_based_graph (file : list written)
    : option (list (NodeID * NodeID) * list Coordinate.t) :=
  match file with
  | WrittenFingerprint :: WrittenCount64 num_edges :: WrittenCount64 num_nodes :: file' =>
      match read_edges (N.to_nat num_edges) file' with
      | Some (edges, file'') =>
          match read_coordinates (N.to_nat num_nodes) file'' with
          | Some (coordinates, []) => Some (edges, coordinates)
          | _ => None
          end
      | None => None
      end
  | _ => None
  end.

Definition example_coordinates : list Coordinate.t :=
  (fun i => {| Coordinate.lon := 13000000 + i; Coordinate.lat := 52000000 - i |})
    <$> [0; 1; 2; 3; 4; 5; 6; 7]%Z.

(** A relation of a supported type: an entity of kind relation whose first
    tag "type" has a value that the profile lists. *)
Definition supported_relation (GetRelations : list string) (entity : OSMEntity.t) : bool :=
  item_type.is_relation (OSMEntity.type entity)
  && match get_value_by_key (OSMEntity.tags entity) "type" with
     | Some rel_type => bool_decide (rel_type ∈ GetRelations)
     | None => false
     end.

(** The relation extracted from an entity: its id, its tags and its members
    with their roles. *)
Definition extracted_relation (entity : OSMEntity.t) : ExtractionRelation.t :=
  {| ExtractionRelation.id := (OSMEntity.id entity, item_type.relation);
     ExtractionRelation.attributes := OSMEntity.tags entity;
     ExtractionRelation.members :=
       (fun m => ((RelationMember.ref m, RelationMember.type m), RelationMember.role m))
         <$> OSMEntity.members entity |}.

(** The membership pairs of a relation: each member with the id of the
    relation. *)
Definition membership_pairs (r : ExtractionRelation.t) : list (OsmIDTyped * OsmIDTyped) :=
  (fun m => (m.1, ExtractionRelation.id r)) <$> ExtractionRelation.members r.

(** Sortedness as [std::sort] leaves a vector of strings, and a sort that
    meets the contract. *)
Definition sorted_strings (v : list string) : Prop :=
  StronglySorted (fun s1 s2 => String.ltb s2 s1 = false) v.

Definition merge_sort_strings (v : list string) : list string :=
  merge_sort String.le v.

Definition example_buffers : list (list OSMEntity.t) :=
  [ [ {| OSMEntity.type := item_type.way; OSMEntity.id := 7;
         OSMEntity.tags := [("type", "route")]%string; OSMEntity.members := [] |};
      {| OSMEntity.type := item_type.relation; OSMEntity.id := 1;
         OSMEntity.tags := [("name", "B 96"); ("type", "route")]%string;
         OSMEntity.members :=
           [ {| RelationMember.ref := 7; RelationMember.type := item_type.way;
                RelationMember.role := "forward" |} ] |} ];
    [ {| OSMEntity.type := item_type.relation; OSMEntity.id := 2;
         OSMEntity.tags := [("type", "multipolygon")]%string; OSMEntity.members := [] |};
      {| OSMEntity.type := item_type.relation; OSMEntity.id := 3;
         OSMEntity.tags := [("type", "restriction"); ("type", "route")]%string;
         OSMEntity.members := [] |} ] ].

(** The declaration of the class names is one [SetClassNames] accepts: the
    list is empty, or every name is legal, the names of the list and of the
    class map are at most [MAX_CLASS_INDEX + 1], and the list names every
    class of the class map. *)
Definition valid_declaration (MAX_CLASS_INDEX : nat) (isValidClassName : string -> bool)
    (class_names : list string) (classes_map : gmap string ClassData) : Prop :=
  class_names = [] \/
  ((forall name, name ∈ class_names -> isValidClassName name = true) /\
   size (dom classes_map ∪ list_to_set class_names : gset string) <= MAX_CLASS_INDEX + 1 /\
   (forall name, is_Some (classes_map !! name) -> name ∈ class_names)).

(** The combinations that name a class: one that a way used, or one of the
    declared names. *)
Definition names_a_class (class_names : list string)
    (classes_map : gmap string ClassData) (combination : list string) : bool :=
  existsb (fun name => bool_decide (is_Some (classes_map !! name))
                       || std_find class_names name) combination.

Definition combinations_of_classes (class_names : list string)
    (classes_map : gmap string ClassData) (excludable_classes : list (list string))
    : list (list string) :=
  List.filter (names_a_class class_names classes_map) excludable_classes.

(** What [SetExcludableClasses] makes of [example_declared_properties] for
    the one combination of "ferry" and "tunnel". *)
Definition example_excluded_properties : ProfileProperties.t :=
  {| ProfileProperties.class_names :=
       ProfileProperties.class_names example_declared_properties;
     ProfileProperties.excludable_classes := <[0 := 0%N]> (<[1 := 6%N]> ∅) |}.

(** * Properties *)

(** ** SetExcludableClasses *)

Lemma surviving_masks_cons classes_map combination rest :
  surviving_masks classes_map (combination :: rest)
  = if (0 <? combination_mask classes_map combination 0%N)%N
    then combination_mask classes_map combination 0%N :: surviving_masks classes_map rest
    else surviving_masks classes_map rest.
Proof. reflexivity. Qed.

Lemma SetExcludableClasses_slot MAX_EXCLUDABLE_CLASSES index mask p :
  ProfileProperties.SetExcludableClasses MAX_EXCLUDABLE_CLASSES index mask p
  = if index <? MAX_EXCLUDABLE_CLASSES
    then Ok {| ProfileProperties.class_names := ProfileProperties.class_names p;
               ProfileProperties.excludable_classes :=
                 <[index := mask]> (ProfileProperties.excludable_classes p) |}
    else OutOfBounds.
Proof. reflexivity. Qed.

(** While the surviving masks fit below [MAX_EXCLUDABLE_CLASSES], the loop
    stores them from [k] on and touches nothing else. *)
Lemma store_excludable_Ok MAX_EXCLUDABLE_CLASSES classes_map excludable_classes k p :
  k + length (surviving_masks classes_map excludable_classes) <= MAX_EXCLUDABLE_CLASSES ->
  exists p',
    store_excludable MAX_EXCLUDABLE_CLASSES classes_map excludable_classes k p = Ok p' /\
    ProfileProperties.class_names p' = ProfileProperties.class_names p /\
    (forall i mask,
       surviving_masks classes_map excludable_classes !! i = Some mask ->
       ProfileProperties.excludable_classes p' !! (k + i) = Some mask) /\
    (forall j, j < k \/ k + length (surviving_masks classes_map excludable_classes) <= j ->
       ProfileProperties.excludable_classes p' !! j
       = ProfileProperties.excludable_classes p !! j).
Proof.
  revert k p. induction excludable_classes as [|c rest IH]; intros k p Hfit.
  - exists p. split; [done|]. split; [done|]. split; [|done].
    intros i mask Hi. by destruct i.
  - rewrite surviving_masks_cons in Hfit |- *. simpl store_excludable.
    destruct (0 <? combination_mask classes_map c 0%N)%N eqn:Hmask.
    + simpl length in Hfit. rewrite SetExcludableClasses_slot.
      destruct (Nat.ltb_spec k MAX_EXCLUDABLE_CLASSES) as [Hslot|Hnone]; [|lia].
      simpl.
      destruct (IH (S k)
                  {| ProfileProperties.class_names := ProfileProperties.class_names p;
                     ProfileProperties.excludable_classes :=
                       <[k := combination_mask classes_map c 0%N]>
                         (ProfileProperties.excludable_classes p) |})
        as (p' & Hrun & Hnames & Hin & Hout); [lia|].
      simpl in Hnames.
      exists p'. split; [exact Hrun|]. split; [exact Hnames|]. split.
      * intros [|i] mask Hi; simpl in Hi.
        -- injection Hi as <-. rewrite Nat.add_0_r, Hout by lia.
           simpl. apply lookup_insert_eq.
        -- replace (k + S i) with (S k + i) by lia. by apply Hin.
      * intros j Hj. simpl length in Hj. rewrite Hout by lia.
        simpl. apply lookup_insert_ne. lia.
    + by apply IH.
Qed.

(** A surviving mask that does not fit is written outside the store. *)
Lemma store_excludable_OutOfBounds MAX_EXCLUDABLE_CLASSES classes_map
    excludable_classes k p :
  k <= MAX_EXCLUDABLE_CLASSES ->
  MAX_EXCLUDABLE_CLASSES < k + length (surviving_masks classes_map excludable_classes) ->
  store_excludable MAX_EXCLUDABLE_CLASSES classes_map excludable_classes k p = OutOfBounds.
Proof.
  revert k p. induction excludable_classes as [|c rest IH]; intros k p Hk Hmany.
  - simpl in Hmany. lia.
  - rewrite surviving_masks_cons in Hmany. simpl store_excludable.
    destruct (0 <? combination_mask classes_map c 0%N)%N eqn:Hmask.
    + simpl length in Hmany. rewrite SetExcludableClasses_slot.
      destruct (Nat.ltb_spec k MAX_EXCLUDABLE_CLASSES) as [Hslot|Hnone]; [|done].
      simpl. apply IH; lia.
    + by apply IH.
Qed.

(** The three ways in which [SetExcludableClasses] ends. *)
Lemma SetExcludableClasses_runs MAX_EXCLUDABLE_CLASSES classes_map excludable_classes p :
  (MAX_EXCLUDABLE_CLASSES < length excludable_classes /\
   SetExcludableClasses MAX_EXCLUDABLE_CLASSES classes_map excludable_classes p
   = Throw TooManyExcludableCombinations) \/
  (length excludable_classes <= MAX_EXCLUDABLE_CLASSES /\
   MAX_EXCLUDABLE_CLASSES <= length (surviving_masks classes_map excludable_classes) /\
   SetExcludableClasses MAX_EXCLUDABLE_CLASSES classes_map excludable_classes p
   = OutOfBounds) \/
  (length excludable_classes <= MAX_EXCLUDABLE_CLASSES /\
   length (surviving_masks classes_map excludable_classes) < MAX_EXCLUDABLE_CLASSES /\
   exists p',
     SetExcludableClasses MAX_EXCLUDABLE_CLASSES classes_map excludable_classes p = Ok p' /\
     ProfileProperties.class_names p' = ProfileProperties.class_names p /\
     ProfileProperties.excludable_classes p' !! 0 = Some 0%N /\
     (forall i mask,
        surviving_masks classes_map excludable_classes !! i = Some mask ->
        ProfileProperties.excludable_classes p' !! (S i) = Some mask) /\
     (forall j, length (surviving_masks classes_map excludable_classes) < j ->
        ProfileProperties.excludable_classes p' !! j
        = ProfileProperties.excludable_classes p !! j)).
Proof.
  unfold SetExcludableClasses.
  destruct (Nat.ltb_spec MAX_EXCLUDABLE_CLASSES (length excludable_classes)) as [Hmany|Hfew];
    [by left|right].
  rewrite SetExcludableClasses_slot.
  destruct (Nat.ltb_spec 0 MAX_EXCLUDABLE_CLASSES) as [Hslot|Hnone]; simpl.
  2:{ left. split; [done|]. split; [lia|done]. }
  destruct (decide (length (surviving_masks classes_map excludable_classes)
                    < MAX_EXCLUDABLE_CLASSES)) as [Hfit|Hfull].
  - right. split; [done|]. split; [done|].
    destruct (store_excludable_Ok MAX_EXCLUDABLE_CLASSES classes_map excludable_classes 1
                {| ProfileProperties.class_names := ProfileProperties.class_names p;
                   ProfileProperties.excludable_classes :=
                     <[0 := 0%N]> (ProfileProperties.excludable_classes p) |})
      as (p' & Hrun & Hnames & Hin & Hout); [lia|].
    simpl in Hnames.
    exists p'. split; [exact Hrun|]. split; [exact Hnames|]. split; [|split].
    + rewrite Hout by lia. simpl. apply lookup_insert_eq.
    + intros i mask Hi. by apply (Hin i mask).
    + intros j Hj. rewrite Hout by lia. simpl. apply lookup_insert_ne. lia.
  - left. split; [done|]. split; [lia|].
    apply store_excludable_OutOfBounds; lia.
Qed.

Lemma SetExcludableClasses_too_many MAX_EXCLUDABLE_CLASSES classes_map excludable_classes p :
  MAX_EXCLUDABLE_CLASSES < length excludable_classes ->
  SetExcludableClasses MAX_EXCLUDABLE_CLASSES classes_map excludable_classes p
  = Throw TooManyExcludableCombinations.
Proof.
  intros Hlen. unfold SetExcludableClasses.
  by destruct (Nat.ltb_spec MAX_EXCLUDABLE_CLASSES (length excludable_classes)); [|lia].
Qed.

(** The masks of exactly the combinations with a known class survive, when no
    class of the map is the empty mask. *)
Lemma combination_mask_zero classes_map combination :
  (forall name data, classes_map !! name = Some data -> data <> 0%N) ->
  (combination_mask classes_map combination 0%N = 0%N
   <-> forall name, name ∈ combination -> classes_map !! name = None).
Proof.
  intros Hne.
  assert (Hgen : forall mask,
             combination_mask classes_map combination mask = 0%N
             <-> mask = 0%N /\ forall name, name ∈ combination -> classes_map !! name = None).
  { induction combination as [|name rest IH]; intros mask; simpl.
    - split; [intros ->; split; [done|]; intros ? Hin; by apply elem_of_nil in Hin|tauto].
    - destruct (classes_map !! name) as [data|] eqn:Hname; rewrite IH.
      + split.
        * intros [Hor _]. apply N.lor_eq_0_iff in Hor as [_ ->]. by apply Hne in Hname.
        * intros [_ Hall]. rewrite Hall in Hname by left. done.
      + split.
        * intros [-> Hall]. split; [done|]. intros n' [->|Hin]%elem_of_cons; auto.
        * intros [-> Hall]. split; [done|]. intros n' Hin. apply Hall. by right. }
  rewrite Hgen. tauto.
Qed.

(** C10, as amended.  When there are at most [MAX_EXCLUDABLE_CLASSES]
    combinations and fewer than [MAX_EXCLUDABLE_CLASSES] of them have a mask
    that is not zero (the store has a slot for each index below
    [MAX_EXCLUDABLE_CLASSES], index 0 among them), [SetExcludableClasses]
    returns normally, index 0 holds the empty mask, the masks that are not
    zero sit at the indices 1, 2, ..., k in the order of their combinations (a
    combination whose mask is zero takes no index), larger indices and the
    class names are left as they were.  The mask of a combination is zero
    exactly when every name in it is unknown in the class map, provided no
    class of the map is the empty mask. *)
Theorem SetExcludableClasses_stores_surviving_masks
    MAX_EXCLUDABLE_CLASSES classes_map excludable_classes p :
  length excludable_classes <= MAX_EXCLUDABLE_CLASSES ->
  length (surviving_masks classes_map excludable_classes) < MAX_EXCLUDABLE_CLASSES ->
  exists p',
    SetExcludableClasses MAX_EXCLUDABLE_CLASSES classes_map excludable_classes p = Ok p' /\
    ProfileProperties.excludable_classes p' !! 0 = Some 0%N /\
    (forall i mask,
        surviving_masks classes_map excludable_classes !! i = Some mask ->
        mask <> 0%N /\ ProfileProperties.excludable_classes p' !! (S i) = Some mask) /\
    (forall j, length (surviving_masks classes_map excludable_classes) < j ->
        ProfileProperties.excludable_classes p' !! j
        = ProfileProperties.excludable_classes p !! j) /\
    ProfileProperties.class_names p' = ProfileProperties.class_names p /\
    ((forall name data, classes_map !! name = Some data -> data <> 0%N) ->
     forall combination,
       combination_mask classes_map combination 0%N = 0%N
       <-> forall name, name ∈ combination -> classes_map !! name = None).
Proof.
  intros Hlen Hfit.
  destruct (SetExcludableClasses_runs MAX_EXCLUDABLE_CLASSES classes_map
              excludable_classes p)
    as [[Hmany _]|[(_ & Hfull & _)|(_ & _ & p' & Hrun & Hnames & Hzero & Hin & Hout)]];
    [lia..|].
  exists p'. split; [exact Hrun|]. split; [exact Hzero|]. split; [|split; [|split]].
  - intros i mask Hi. split; [|by apply Hin].
    apply list_elem_of_lookup_2 in Hi. unfold surviving_masks in Hi.
    apply list_elem_of_In, filter_In in Hi as [_ Hpos].
    apply N.ltb_lt in Hpos. lia.
  - exact Hout.
  - exact Hnames.
  - intros Hne combination. by apply combination_mask_zero.
Qed.

Lemma SetExcludableClasses_stores_surviving_masks_witness :
  exists p',
    SetExcludableClasses example_MAX_EXCLUDABLE_CLASSES example_classes_map
      example_excludable_classes ProfileProperties.empty = Ok p' /\
    ProfileProperties.excludable_classes p' !! 0 = Some 0%N /\
    (forall i mask,
        surviving_masks example_classes_map example_excludable_classes !! i = Some mask ->
        mask <> 0%N /\ ProfileProperties.excludable_classes p' !! (S i) = Some mask) /\
    (forall j, length (surviving_masks example_classes_map example_excludable_classes) < j ->
        ProfileProperties.excludable_classes p' !! j
        = ProfileProperties.excludable_classes ProfileProperties.empty !! j) /\
    ProfileProperties.class_names p'
    = ProfileProperties.class_names ProfileProperties.empty /\
    ((forall name data, example_classes_map !! name = Some data -> data <> 0%N) ->
     forall combination,
       combination_mask example_classes_map combination 0%N = 0%N
       <-> forall name, name ∈ combination -> example_classes_map !! name = None).
Proof.
  apply (SetExcludableClasses_stores_surviving_masks example_MAX_EXCLUDABLE_CLASSES
           example_classes_map example_excludable_classes ProfileProperties.empty).
  - vm_compute. lia.
  - vm_compute. lia.
Defined.

(** What the example stores: the empty mask, then the masks of the first and
    of the third combination; the second one, of an unknown class, is skipped. *)
Example SetExcludableClasses_example :
  match SetExcludableClasses example_MAX_EXCLUDABLE_CLASSES example_classes_map
          example_excludable_classes ProfileProperties.empty with
  | Ok p => (fun i => ProfileProperties.excludable_classes p !! i) <$> [0; 1; 2; 3]
  | _ => []
  end = [Some 0%N; Some 1%N; Some 3%N; None].
Proof. vm_compute. reflexivity. Qed.

(** With eight combinations of a known class and eight slots the eighth mask
    has no slot, index 0 being taken by the empty mask. *)
Example SetExcludableClasses_full_store_example :
  SetExcludableClasses example_MAX_EXCLUDABLE_CLASSES example_classes_map
    (replicate 8 ["toll"%string]) ProfileProperties.empty = OutOfBounds
  /\ exists p,
       SetExcludableClasses example_MAX_EXCLUDABLE_CLASSES example_classes_map
         (replicate 7 ["toll"%string]) ProfileProperties.empty = Ok p
       /\ ProfileProperties.excludable_classes p !! 7 = Some 1%N.
Proof. split; [vm_compute; reflexivity|]. eexists. split; vm_compute; reflexivity. Qed.

(** C10, counterexample: with nine combinations and a limit of eight the call
    throws before the write to index 0, which is left without a mask. *)
Lemma SetExcludableClasses_throws_before_writing :
  SetExcludableClasses example_MAX_EXCLUDABLE_CLASSES example_classes_map
    (replicate 9 ["toll"%string]) ProfileProperties.empty
  = Throw TooManyExcludableCombinations
  /\ ProfileProperties.excludable_classes ProfileProperties.empty !! 0 = None.
Proof. split; reflexivity. Qed.

(** ** SetClassNames *)

Section SetClassNamesFacts.
Variable MAX_CLASS_INDEX : nat.
Variable isValidClassName : string -> bool.

Lemma store_class_names_never_throws entries p e :
  store_class_names MAX_CLASS_INDEX entries p <> Throw e.
Proof.
  revert p. induction entries as [|[name data] rest IH]; intros p; simpl; [done|].
  destruct (length (getClassIndexes MAX_CLASS_INDEX data) =? 1); simpl; [apply IH|done].
Qed.

(** The assertion of the last loop fails as soon as one entry is not one
    bit. *)
Lemma store_class_names_AssertionFailed entries p :
  (exists name data, (name, data) ∈ entries /\
     length (getClassIndexes MAX_CLASS_INDEX data) <> 1) ->
  store_class_names MAX_CLASS_INDEX entries p = AssertionFailed.
Proof.
  revert p. induction entries as [|[n d] rest IH]; intros p (name & data & Hin & Hne).
  - by apply elem_of_nil in Hin.
  - simpl.
    destruct (Nat.eqb_spec (length (getClassIndexes MAX_CLASS_INDEX d)) 1) as [Heq|Hneq];
      simpl; [|done].
    apply IH. apply elem_of_cons in Hin as [[= -> ->]|Hin]; [done|]. by exists name, data.
Qed.

(** The last loop leaves, under the index of every entry, the name of an entry
    of that index, and nothing else is touched. *)
Lemma store_class_names_stores entries p :
  (forall name data, (name, data) ∈ entries ->
     length (getClassIndexes MAX_CLASS_INDEX data) = 1) ->
  exists p',
    store_class_names MAX_CLASS_INDEX entries p = Ok p' /\
    (forall name data, (name, data) ∈ entries ->
       exists name' data', (name', data') ∈ entries /\
         class_index MAX_CLASS_INDEX data' = class_index MAX_CLASS_INDEX data /\
         ProfileProperties.class_names p' !! class_index MAX_CLASS_INDEX data = Some name') /\
    (forall i, (forall name data, (name, data) ∈ entries ->
                  class_index MAX_CLASS_INDEX data <> i) ->
       ProfileProperties.class_names p' !! i = ProfileProperties.class_names p !! i) /\
    ProfileProperties.excludable_classes p' = ProfileProperties.excludable_classes p.
Proof.
  revert p. induction entries as [|[name data] rest IH]; intros p Hsingle.
  - exists p. split; [done|]. split; [|done].
    intros ? ? Hin. by apply elem_of_nil in Hin.
  - simpl. rewrite (Hsingle name data) by left. simpl.
    destruct (IH (ProfileProperties.SetClassName
                    (hd 0 (getClassIndexes MAX_CLASS_INDEX data)) name p))
      as (p' & Hrun & Hin & Hout & Hexcl).
    { intros n d Hnd. apply (Hsingle n d). by right. }
    exists p'. split; [exact Hrun|]. split; [|split].
    + intros n d [Heq|Hnd]%elem_of_cons.
      * injection Heq as -> ->.
        destruct (decide (Exists (fun e => class_index MAX_CLASS_INDEX e.2
                                          = class_index MAX_CLASS_INDEX data) rest))
          as [Hex|Hnex].
        -- apply Exists_exists in Hex as ([n2 d2] & Hin2 & Hidx). simpl in Hidx.
           destruct (Hin n2 d2 Hin2) as (n3 & d3 & Hin3 & Hidx3 & Hlook).
           exists n3, d3. split; [by right|]. split; [congruence|].
           by rewrite <- Hidx.
        -- exists name, data. split; [by left|]. split; [done|].
           rewrite Hout.
           ++ simpl. apply lookup_insert_eq.
           ++ intros n2 d2 Hin2 Hidx. apply Hnex, Exists_exists.
              by exists (n2, d2).
      * destruct (Hin n d Hnd) as (n3 & d3 & Hin3 & Hidx3 & Hlook).
        exists n3, d3. split; [by right|]. done.
    + intros i Hi. rewrite Hout.
      * simpl. apply lookup_insert_ne. apply (Hi name data). by left.
      * intros n d Hnd. apply (Hi n d). by right.
    + by rewrite Hexcl.
Qed.

(** With an empty declaration the last loop runs over the class map as it
    is. *)
Lemma SetClassNames_empty_stores
    (classes_map : gmap string ClassData) (p : ProfileProperties.t) :
  single_class_entries MAX_CLASS_INDEX classes_map ->
  exists p',
    SetClassNames MAX_CLASS_INDEX isValidClassName [] classes_map p
    = Ok (classes_map, p') /\
    forall name data, classes_map !! name = Some data ->
      exists name' data', classes_map !! name' = Some data' /\
        class_index MAX_CLASS_INDEX data' = class_index MAX_CLASS_INDEX data /\
        ProfileProperties.class_names p' !! class_index MAX_CLASS_INDEX data
        = Some name'.
Proof.
  intros Hsingle. unfold SetClassNames. simpl.
  destruct (store_class_names_stores (map_to_list classes_map) p)
    as (p' & Hrun & Hin & _).
  { intros name data Hnd%elem_of_map_to_list. by apply (Hsingle name data). }
  exists p'. rewrite Hrun. simpl. split; [done|].
  intros name data Hnd%elem_of_map_to_list.
  destruct (Hin name data Hnd) as (n' & d' & Hin' & Hidx & Hlook).
  exists n', d'. by apply elem_of_map_to_list in Hin'.
Qed.

(** C9, as amended.  With an empty list of declared class names
    [SetClassNames] does not throw, whatever the class map holds and whatever
    [isValidClassName] accepts: no name is validated and no class is checked
    against the list.  When every class of the map is one bit, the call
    returns the class map as it was, and every entry of the map has been
    written: the profile properties hold, under the index of each entry, the
    name of an entry of that index.  When some class of the map is not one
    bit, the assertion of the last loop fails and the call does not return. *)
Theorem SetClassNames_empty_declaration
    (classes_map : gmap string ClassData) (p : ProfileProperties.t) :
  (forall e, SetClassNames MAX_CLASS_INDEX isValidClassName [] classes_map p <> Throw e) /\
  (single_class_entries MAX_CLASS_INDEX classes_map ->
   exists p',
     SetClassNames MAX_CLASS_INDEX isValidClassName [] classes_map p
     = Ok (classes_map, p') /\
     forall name data, classes_map !! name = Some data ->
       exists name' data', classes_map !! name' = Some data' /\
         class_index MAX_CLASS_INDEX data' = class_index MAX_CLASS_INDEX data /\
         ProfileProperties.class_names p' !! class_index MAX_CLASS_INDEX data
         = Some name') /\
  ((exists name data, classes_map !! name = Some data /\
      length (getClassIndexes MAX_CLASS_INDEX data) <> 1) ->
   SetClassNames MAX_CLASS_INDEX isValidClassName [] classes_map p = AssertionFailed).
Proof.
  split; [|split; [apply SetClassNames_empty_stores|]].
  - intros e. unfold SetClassNames. simpl.
    destruct (store_class_names MAX_CLASS_INDEX (map_to_list classes_map) p) eqn:Hrun;
      simpl; [done| |done..].
    by apply store_class_names_never_throws in Hrun.
  - intros (name & data & Hnd & Hne). unfold SetClassNames. simpl.
    rewrite store_class_names_AssertionFailed; [done|].
    exists name, data. split; [|done]. by apply elem_of_map_to_list.
Qed.

(** When no two classes of the map share an index, each index holds the name
    of its own class. *)
Corollary SetClassNames_empty_declaration_distinct
    (classes_map : gmap string ClassData) (p p' : ProfileProperties.t) :
  SetClassNames MAX_CLASS_INDEX isValidClassName [] classes_map p = Ok (classes_map, p') ->
  single_class_entries MAX_CLASS_INDEX classes_map ->
  (forall n1 d1 n2 d2, classes_map !! n1 = Some d1 -> classes_map !! n2 = Some d2 ->
     class_index MAX_CLASS_INDEX d1 = class_index MAX_CLASS_INDEX d2 -> n1 = n2) ->
  forall name data, classes_map !! name = Some data ->
    ProfileProperties.class_names p' !! class_index MAX_CLASS_INDEX data = Some name.
Proof.
  intros Hrun Hsingle Hinj name data Hnd.
  destruct (SetClassNames_empty_stores classes_map p Hsingle) as (p'' & Hrun' & Hstored).
  rewrite Hrun in Hrun'. injection Hrun' as <-.
  destruct (Hstored name data Hnd) as (n' & d' & Hnd' & Hidx & Hlook).
  by rewrite (Hinj name data n' d' Hnd Hnd' (eq_sym Hidx)).
Qed.
End SetClassNamesFacts.

(** C9, counterexample: with an empty list of declared names and a class map
    whose one class has two bits, or none, the assertion of the last loop
    fails: the entry of the class map is not written, and the call does not
    return. *)
Lemma SetClassNames_empty_declaration_not_written :
  getClassIndexes example_MAX_CLASS_INDEX 3%N = [0; 1]
  /\ SetClassNames example_MAX_CLASS_INDEX isValidClassName_spec []
       example_two_bit_classes ProfileProperties.empty = AssertionFailed
  /\ getClassIndexes example_MAX_CLASS_INDEX 0%N = []
  /\ SetClassNames example_MAX_CLASS_INDEX isValidClassName_spec []
       example_empty_mask_classes ProfileProperties.empty = AssertionFailed.
Proof.
  split; [reflexivity|]. split; [|split; [reflexivity|]].
  - unfold SetClassNames, example_two_bit_classes. simpl.
    rewrite map_to_list_singleton. reflexivity.
  - unfold SetClassNames, example_empty_mask_classes. simpl.
    rewrite map_to_list_singleton. reflexivity.
Qed.

Example SetClassNames_empty_declaration_example :
  isValidClassName_spec "no such class!" = false /\
  match SetClassNames example_MAX_CLASS_INDEX isValidClassName_spec []
          example_unvalidated_classes ProfileProperties.empty with
  | Ok (m, p) =>
      m = example_unvalidated_classes /\
      (fun i => ProfileProperties.class_names p !! i) <$> [0; 1; 2; 3]
      = [Some "toll"; Some "ferry"; Some "no such class!"; None]%string
  | _ => False
  end.
Proof. vm_compute. auto. Qed.

(** *** The checks of a non-empty declaration *)

Section DeclaredClassNames.
Variable MAX_CLASS_INDEX : nat.
Variable isValidClassName : string -> bool.

Lemma std_find_spec class_names name :
  std_find class_names name = true <-> name ∈ class_names.
Proof.
  unfold std_find. rewrite existsb_exists. split.
  - intros (x & Hin & Heq). apply String.eqb_eq in Heq as ->. by apply list_elem_of_In.
  - intros Hin. exists name. split; [by apply list_elem_of_In|apply String.eqb_refl].
Qed.

Lemma getClassIndexes_getClassData index :
  index <= MAX_CLASS_INDEX ->
  getClassIndexes MAX_CLASS_INDEX (getClassData MAX_CLASS_INDEX index) = [index].
Proof.
  intros Hle. unfold getClassIndexes, getClassData, class_data_width.
  assert (Hbit : forall i, i < S MAX_CLASS_INDEX ->
            N.testbit (N.land (N.shiftl 1 (N.of_nat index))
                         (N.ones (N.of_nat (S MAX_CLASS_INDEX)))) (N.of_nat i)
            = (index =? i)).
  { intros i Hi. rewrite N.land_spec, N.shiftl_1_l, N.pow2_bits_eqb.
    rewrite N.ones_spec_low by lia. rewrite andb_true_r.
    destruct (Nat.eqb_spec index i) as [->|Hne].
    - apply N.eqb_refl.
    - apply N.eqb_neq. lia. }
  assert (Hgen : forall len start, start + len <= S MAX_CLASS_INDEX ->
            List.filter (fun i => N.testbit (N.land (N.shiftl 1 (N.of_nat index))
                              (N.ones (N.of_nat (S MAX_CLASS_INDEX)))) (N.of_nat i))
              (seq start len)
            = if decide (start <= index < start + len) then [index] else []).
  { induction len as [|len IH]; intros start Hlen; simpl.
    - case_decide; [lia|done].
    - rewrite Hbit by lia. rewrite IH by lia.
      destruct (Nat.eqb_spec index start) as [->|Hne].
      + repeat case_decide; try lia; done.
      + repeat case_decide; try lia; done. }
  rewrite Hgen by lia. case_decide; [done|lia].
Qed.

(** What the first loop guarantees when it does not throw. *)
Lemma add_declared_classes_Ok class_names classes_map m :
  add_declared_classes MAX_CLASS_INDEX isValidClassName class_names classes_map = Ok m ->
  classes_map ⊆ m /\
  (forall name, name ∈ class_names -> is_Some (m !! name) /\ isValidClassName name = true) /\
  (size classes_map <= MAX_CLASS_INDEX + 1 -> size m <= MAX_CLASS_INDEX + 1) /\
  (single_class_entries MAX_CLASS_INDEX classes_map -> single_class_entries MAX_CLASS_INDEX m).
Proof.
  revert classes_map. induction class_names as [|name rest IH]; intros classes_map; simpl.
  - intros [= <-]. split; [done|]. split; [|done].
    intros ? Hin. by apply elem_of_nil in Hin.
  - destruct (isValidClassName name) eqn:Hvalid; simpl; [|done].
    destruct (classes_map !! name) as [data|] eqn:Hname.
    + intros Hrun. destruct (IH _ Hrun) as (Hsub & Hall & Hsize & Hsingle).
      split; [done|]. split; [|done].
      intros n [->|Hin]%elem_of_cons; [|by apply Hall].
      split; [|done]. exists data. by eapply lookup_weaken.
    + destruct (Nat.ltb_spec MAX_CLASS_INDEX (size classes_map)) as [|Hfree]; [done|].
      intros Hrun. destruct (IH _ Hrun) as (Hsub & Hall & Hsize & Hsingle).
      split; [|split; [|split]].
      * etrans; [|exact Hsub]. by apply insert_subseteq.
      * intros n [->|Hin]%elem_of_cons; [|by apply Hall].
        split; [|done]. eexists. eapply lookup_weaken; [|exact Hsub].
        apply lookup_insert_eq.
      * intros _. apply Hsize. rewrite map_size_insert_None by done. lia.
      * intros Hone. apply Hsingle. intros n d Hnd.
        destruct (decide (n = name)) as [->|Hne].
        -- rewrite lookup_insert_eq in Hnd. injection Hnd as <-.
           by rewrite getClassIndexes_getClassData.
        -- rewrite lookup_insert_ne in Hnd by done. by apply (Hone n d).
Qed.

Lemma add_declared_classes_asserts_nothing class_names classes_map :
  add_declared_classes MAX_CLASS_INDEX isValidClassName class_names classes_map
  <> AssertionFailed.
Proof.
  revert classes_map. induction class_names as [|name rest IH]; intros classes_map; simpl.
  - done.
  - destruct (isValidClassName name); simpl; [|done].
    destruct (classes_map !! name); [apply IH|].
    destruct (MAX_CLASS_INDEX <? size classes_map); [done|apply IH].
Qed.

Lemma check_known_classes_Ok class_names entries :
  check_known_classes class_names entries = Ok tt ->
  forall name data, (name, data) ∈ entries -> name ∈ class_names.
Proof.
  induction entries as [|[n d] rest IH]; simpl.
  - intros _ ? ? Hin. by apply elem_of_nil in Hin.
  - destruct (std_find class_names n) eqn:Hfind; [|done].
    intros Hrun name data [[= -> ->]|Hin]%elem_of_cons.
    + by apply std_find_spec.
    + by apply (IH Hrun name data).
Qed.

Lemma check_known_classes_asserts_nothing class_names entries :
  check_known_classes class_names entries <> AssertionFailed.
Proof.
  induction entries as [|[n d] rest IH]; simpl; [done|].
  by destruct (std_find class_names n).
Qed.

(** With a non-empty declaration, a normal return means that the declaration
    passed every check. *)
Lemma SetClassNames_Ok class_names classes_map p m p' :
  class_names <> [] ->
  SetClassNames MAX_CLASS_INDEX isValidClassName class_names classes_map p = Ok (m, p') ->
  classes_map ⊆ m /\
  (forall name, name ∈ class_names -> is_Some (m !! name) /\ isValidClassName name = true) /\
  (forall name, is_Some (m !! name) -> name ∈ class_names) /\
  (size classes_map <= MAX_CLASS_INDEX + 1 -> size m <= MAX_CLASS_INDEX + 1).
Proof.
  intros Hne. unfold SetClassNames.
  rewrite bool_decide_eq_false_2 by done. simpl.
  destruct (add_declared_classes MAX_CLASS_INDEX isValidClassName class_names classes_map)
    as [m0| | |] eqn:Hadd; simpl; [|done..].
  destruct (check_known_classes class_names (map_to_list m0)) as [[]| | |] eqn:Hcheck;
    simpl; [|done..].
  destruct (store_class_names MAX_CLASS_INDEX (map_to_list m0) p) eqn:Hstore;
    simpl; [|done..].
  intros [= <- <-].
  destruct (add_declared_classes_Ok _ _ _ Hadd) as (Hsub & Hall & Hsize & _).
  repeat split; try done; try by apply Hall.
  intros name [data Hnd].
  apply (check_known_classes_Ok _ _ Hcheck name data). by apply elem_of_map_to_list.
Qed.

(** [SetClassNames] writes the class names only, under indices below the
    width of a mask: it makes no write outside a store. *)
Lemma add_declared_classes_in_bounds class_names classes_map :
  add_declared_classes MAX_CLASS_INDEX isValidClassName class_names classes_map
  <> OutOfBounds.
Proof.
  revert classes_map. induction class_names as [|name rest IH]; intros classes_map; simpl.
  - done.
  - destruct (isValidClassName name); simpl; [|done].
    destruct (classes_map !! name); [apply IH|].
    destruct (MAX_CLASS_INDEX <? size classes_map); [done|apply IH].
Qed.

Lemma check_known_classes_in_bounds class_names entries :
  check_known_classes class_names entries <> OutOfBounds.
Proof.
  induction entries as [|[n d] rest IH]; simpl; [done|].
  by destruct (std_find class_names n).
Qed.

Lemma store_class_names_in_bounds entries p :
  store_class_names MAX_CLASS_INDEX entries p <> OutOfBounds.
Proof.
  revert p. induction entries as [|[name data] rest IH]; intros p; simpl; [done|].
  destruct (length (getClassIndexes MAX_CLASS_INDEX data) =? 1); simpl; [apply IH|done].
Qed.

Lemma SetClassNames_in_bounds class_names classes_map p :
  SetClassNames MAX_CLASS_INDEX isValidClassName class_names classes_map p
  <> OutOfBounds.
Proof.
  unfold SetClassNames.
  assert (Hstore : forall m,
            store_class_names MAX_CLASS_INDEX (map_to_list m) p
              ≫= (fun p' => Ok (m, p')) <> OutOfBounds).
  { intros m.
    destruct (store_class_names MAX_CLASS_INDEX (map_to_list m) p) eqn:Hrun;
      simpl; [done..|].
    by apply store_class_names_in_bounds in Hrun. }
  destruct (bool_decide (class_names = [])); simpl; [by apply Hstore|].
  destruct (add_declared_classes MAX_CLASS_INDEX isValidClassName class_names classes_map)
    as [m0| | |] eqn:Hadd; simpl; [|done..|].
  - destruct (check_known_classes class_names (map_to_list m0)) as [[]| | |] eqn:Hcheck;
      simpl; [|done..|].
    + apply Hstore.
    + by apply check_known_classes_in_bounds in Hcheck.
  - by apply add_declared_classes_in_bounds in Hadd.
Qed.

Lemma SetClassNames_asserts_nothing class_names classes_map p :
  single_class_entries MAX_CLASS_INDEX classes_map ->
  SetClassNames MAX_CLASS_INDEX isValidClassName class_names classes_map p
  <> AssertionFailed.
Proof.
  intros Hone. unfold SetClassNames.
  assert (Hstore : forall m, single_class_entries MAX_CLASS_INDEX m ->
            store_class_names MAX_CLASS_INDEX (map_to_list m) p
              ≫= (fun p' => Ok (m, p')) <> AssertionFailed).
  { intros m Hm.
    destruct (store_class_names_stores MAX_CLASS_INDEX (map_to_list m) p)
      as (p' & -> & _); [|done].
    intros name data Hnd%elem_of_map_to_list. by apply (Hm name data). }
  destruct (bool_decide (class_names = [])); simpl; [by apply Hstore|].
  destruct (add_declared_classes MAX_CLASS_INDEX isValidClassName class_names classes_map)
    as [m0| | |] eqn:Hadd; simpl; [|done| |done].
  - destruct (check_known_classes class_names (map_to_list m0)) as [[]| | |] eqn:Hcheck;
      simpl; [|done| |done].
    + apply Hstore. by apply (add_declared_classes_Ok _ _ _ Hadd).
    + by apply check_known_classes_asserts_nothing in Hcheck.
  - by apply add_declared_classes_asserts_nothing in Hadd.
Qed.
End DeclaredClassNames.

(** ** ParseOSMData *)

Section ParseOSMDataFacts.
Variable MAX_CLASS_INDEX : nat.
Variable MAX_EXCLUDABLE_CLASSES : nat.
Variable isValidClassName : string -> bool.
Context {Edge LaneDescriptionMap TurnRestriction ConditionalTurnRestriction : Type}.

Variable PrepareData :
  @ExtractionContainers Edge TurnRestriction ConditionalTurnRestriction ->
  @ExtractionContainers Edge TurnRestriction ConditionalTurnRestriction.

Abbreviation Parsed :=
  (@ParsedData Edge LaneDescriptionMap TurnRestriction ConditionalTurnRestriction).
Abbreviation run_ParseOSMData :=
  (ParseOSMData MAX_CLASS_INDEX MAX_EXCLUDABLE_CLASSES isValidClassName PrepareData).

(** The runs of [ParseOSMData], by the step at which they end. *)
Lemma ParseOSMData_runs (scripting_environment : ScriptingEnvironment)
    (parsed : Parsed) :
  run_ParseOSMData scripting_environment parsed =
  if bool_decide (all_edges_list (extraction_containers parsed) = [])
  then (ingestion, Throw NoEdgesRemaining)
  else
    match SetClassNames MAX_CLASS_INDEX isValidClassName
            (GetClassNames scripting_environment) (classes_map parsed)
            (GetProfileProperties scripting_environment) with
    | Ok r =>
        match SetExcludableClasses MAX_EXCLUDABLE_CLASSES r.1
                (GetExcludableClasses scripting_environment) r.2 with
        | Ok p =>
            (ingestion ++ [EvPrepareData; EvWriteProfileProperties p],
             Ok (turn_lane_map parsed,
                 unconditional_turn_restrictions (PrepareData (extraction_containers parsed)),
                 conditional_turn_restrictions (PrepareData (extraction_containers parsed))))
        | Throw e => (ingestion ++ [EvPrepareData], Throw e)
        | AssertionFailed => (ingestion ++ [EvPrepareData], AssertionFailed)
        | OutOfBounds => (ingestion ++ [EvPrepareData], OutOfBounds)
        end
    | Throw e => (ingestion ++ [EvPrepareData], Throw e)
    | AssertionFailed => (ingestion ++ [EvPrepareData], AssertionFailed)
    | OutOfBounds => (ingestion ++ [EvPrepareData], OutOfBounds)
    end.
Proof.
  unfold ParseOSMData, ingestion.
  cbv [mbind action_bind emit lift mret action_ret].
  destruct (bool_decide (all_edges_list (extraction_containers parsed) = [])); [reflexivity|].
  destruct (SetClassNames _ _ _ _ _) as [r| | |]; simpl; [|reflexivity..].
  destruct (SetExcludableClasses _ _ _ _) as [p| | |]; reflexivity.
Qed.

(** C8.  When the two reading pipelines leave an empty list of edges,
    [ParseOSMData] throws ("There are no edges remaining after parsing."):
    both pipelines have run, relations first, and neither [PrepareData] nor
    the writing of the profile properties takes place. *)
Theorem ParseOSMData_no_edges (scripting_environment : ScriptingEnvironment)
    (parsed : Parsed) :
  all_edges_list (extraction_containers parsed) = [] ->
  run_ParseOSMData scripting_environment parsed
  = ([EvWriteTimestamp; EvParseRelations; EvParseWaysAndNodes], Throw NoEdgesRemaining)
  /\ (EvPrepareData
      ∉ trace_of (run_ParseOSMData scripting_environment parsed))
  /\ (forall p, EvWriteProfileProperties p
                ∉ trace_of (run_ParseOSMData scripting_environment parsed)).
Proof.
  intros Hempty. rewrite ParseOSMData_runs, bool_decide_eq_true_2 by done.
  unfold ingestion, trace_of. simpl. split; [done|].
  split; [|intros p]; intros Hin; repeat (apply elem_of_cons in Hin as [?|Hin]; [done|]);
    by apply elem_of_nil in Hin.
Qed.

(** A declaration that is invalid in one of the first, second and fourth ways
    makes [SetClassNames] throw. *)
Lemma SetClassNames_throws_on_invalid scripting_environment classes_map p :
  illegal_class_name isValidClassName scripting_environment
  \/ too_many_classes MAX_CLASS_INDEX scripting_environment classes_map
  \/ undeclared_class_used scripting_environment classes_map ->
  single_class_entries MAX_CLASS_INDEX classes_map ->
  throws (SetClassNames MAX_CLASS_INDEX isValidClassName
            (GetClassNames scripting_environment) classes_map p).
Proof.
  intros Hinvalid Hone.
  destruct (SetClassNames MAX_CLASS_INDEX isValidClassName
              (GetClassNames scripting_environment) classes_map p)
    as [[m p']|e| |] eqn:Hrun.
  - exfalso.
    assert (Hne : GetClassNames scripting_environment <> []).
    { destruct Hinvalid as [(name & Hin & _)|[[Hsize Hmany]|[Hne _]]]; [| |done].
      - intros Hnil. rewrite Hnil in Hin. by apply elem_of_nil in Hin.
      - intros Hnil. rewrite Hnil in Hmany. simpl in Hmany.
        rewrite (right_id_L ∅ (∪)), size_dom in Hmany. lia. }
    destruct (SetClassNames_Ok _ _ _ _ _ _ _ Hne Hrun) as (Hsub & Hall & Hknown & Hsize).
    destruct Hinvalid as [(name & Hin & Hbad)|[[Hle Hmany]|[_ (name & Hused & Hnot)]]].
    + destruct (Hall name Hin) as [_ Hvalid]. congruence.
    + specialize (Hsize Hle).
      assert (Hdom : dom classes_map ∪ list_to_set (GetClassNames scripting_environment)
                     ⊆ (dom m : gset string)).
      { intros name [Hd|Hl]%elem_of_union.
        - apply elem_of_dom. apply elem_of_dom in Hd as [d Hd].
          exists d. by eapply lookup_weaken.
        - apply elem_of_dom. apply elem_of_list_to_set in Hl. by apply Hall. }
      apply subseteq_size in Hdom. rewrite size_dom in Hdom. lia.
    + apply Hnot, Hknown. destruct Hused as [d Hd]. exists d. by eapply lookup_weaken.
  - by exists e.
  - by apply SetClassNames_asserts_nothing in Hrun.
  - by apply SetClassNames_in_bounds in Hrun.
Qed.

(** C2, as amended.  When the declarations of the profile are invalid (a
    declared class name that is not legal; declared names that take the
    classes, of which the ways used at most [MAX_CLASS_INDEX + 1], past that
    number; more than [MAX_EXCLUDABLE_CLASSES] excludable combinations; or,
    the declared list being non-empty, a class used on a way that the list
    does not name) and every class of the class map is one bit, as
    [SetClassNames] asserts, [ParseOSMData] throws.  The error is raised after
    both reading pipelines have run, and no profile properties are
    written. *)
Theorem ParseOSMData_invalid_declaration (scripting_environment : ScriptingEnvironment)
    (parsed : Parsed) :
  single_class_entries MAX_CLASS_INDEX (classes_map parsed) ->
  illegal_class_name isValidClassName scripting_environment
  \/ too_many_classes MAX_CLASS_INDEX scripting_environment
       (classes_map parsed)
  \/ too_many_excludable MAX_EXCLUDABLE_CLASSES scripting_environment
  \/ undeclared_class_used scripting_environment (classes_map parsed) ->
  throws (outcome_of (run_ParseOSMData scripting_environment parsed)) /\
  exists rest,
    trace_of (run_ParseOSMData scripting_environment parsed)
    = [EvWriteTimestamp; EvParseRelations; EvParseWaysAndNodes] ++ rest /\
    forall p, EvWriteProfileProperties p ∉ rest.
Proof.
  intros Hone Hinvalid. rewrite ParseOSMData_runs.
  assert (Hnil : forall p, EvWriteProfileProperties p ∉ @nil event)
    by (intros p Hin; by apply elem_of_nil in Hin).
  assert (Hprep : forall p, EvWriteProfileProperties p ∉ [EvPrepareData]).
  { intros p Hin. apply elem_of_cons in Hin as [?|Hin]; [done|]. by apply elem_of_nil in Hin. }
  destruct (bool_decide (all_edges_list (extraction_containers parsed) = [])).
  { split; [by eexists|]. exists []. by rewrite app_nil_r. }
  destruct (SetClassNames MAX_CLASS_INDEX isValidClassName
              (GetClassNames scripting_environment) (classes_map parsed)
              (GetProfileProperties scripting_environment))
    as [r|e| |] eqn:Hrun.
  - assert (Hmany : too_many_excludable MAX_EXCLUDABLE_CLASSES scripting_environment).
    { destruct Hinvalid as [Hi|[Hi|[Hi|Hi]]]; [| |done|];
        (destruct (SetClassNames_throws_on_invalid scripting_environment
                     (classes_map parsed)
                     (GetProfileProperties scripting_environment)) as [e He];
         [tauto|done|congruence]). }
    rewrite SetExcludableClasses_too_many by exact Hmany.
    split; [by eexists|]. by exists [EvPrepareData].
  - split; [by eexists|]. by exists [EvPrepareData].
  - by apply SetClassNames_asserts_nothing in Hrun.
  - by apply SetClassNames_in_bounds in Hrun.
Qed.
End ParseOSMDataFacts.

(** *** Runs of ParseOSMData on small inputs *)

Lemma example_classes_map_single :
  single_class_entries example_MAX_CLASS_INDEX example_classes_map.
Proof.
  intros name data Hnd. unfold example_classes_map in Hnd.
  apply lookup_insert_Some in Hnd as [[_ <-]|[_ Hnd]]; [reflexivity|].
  apply lookup_insert_Some in Hnd as [[_ <-]|[_ Hnd]]; [reflexivity|].
  by rewrite lookup_empty in Hnd.
Defined.

Lemma ParseOSMData_no_edges_witness :
  ParseOSMData example_MAX_CLASS_INDEX example_MAX_EXCLUDABLE_CLASSES
    isValidClassName_spec id (example_profile ["toll"; "ferry"]%string [])
    (example_parsed [] example_classes_map)
  = ([EvWriteTimestamp; EvParseRelations; EvParseWaysAndNodes], Throw NoEdgesRemaining)
  /\ (EvPrepareData
      ∉ trace_of (ParseOSMData example_MAX_CLASS_INDEX example_MAX_EXCLUDABLE_CLASSES
                    isValidClassName_spec id (example_profile ["toll"; "ferry"]%string [])
                    (example_parsed [] example_classes_map)))
  /\ (forall p, EvWriteProfileProperties p
      ∉ trace_of (ParseOSMData example_MAX_CLASS_INDEX example_MAX_EXCLUDABLE_CLASSES
                    isValidClassName_spec id (example_profile ["toll"; "ferry"]%string [])
                    (example_parsed [] example_classes_map))).
Proof.
  apply (ParseOSMData_no_edges example_MAX_CLASS_INDEX example_MAX_EXCLUDABLE_CLASSES
           isValidClassName_spec id (example_profile ["toll"; "ferry"]%string [])
           (example_parsed [] example_classes_map)).
  reflexivity.
Defined.

(** A run that ends normally: the properties are written last. *)
Example ParseOSMData_valid_run :
  trace_of (ParseOSMData example_MAX_CLASS_INDEX example_MAX_EXCLUDABLE_CLASSES
              isValidClassName_spec id
              (example_profile ["toll"; "ferry"]%string [["toll"%string]])
              (example_parsed [1; 2] example_classes_map))
  = [EvWriteTimestamp; EvParseRelations; EvParseWaysAndNodes; EvPrepareData;
     EvWriteProfileProperties
       {| ProfileProperties.class_names := <[0 := "toll"%string]> (<[1 := "ferry"%string]> ∅);
          ProfileProperties.excludable_classes := <[0 := 0%N]> (<[1 := 1%N]> ∅) |}].
Proof. vm_compute. reflexivity. Qed.

(** With an empty list of declared names a class used on a way is in no list,
    and the run ends normally. *)
Example ParseOSMData_empty_declaration_run :
  outcome_of (ParseOSMData example_MAX_CLASS_INDEX example_MAX_EXCLUDABLE_CLASSES
                isValidClassName_spec id (example_profile [] [])
                (example_parsed [1; 2] example_unvalidated_classes))
  = Ok (tt, [], []).
Proof. vm_compute. reflexivity. Qed.

(** C2, counterexample: the profile declares the illegal class name
    "toll road"; the error is thrown after the relations, the ways and the
    nodes have been parsed and [PrepareData] has run, not before ingestion
    starts. *)
Lemma ParseOSMData_reports_after_ingestion :
  illegal_class_name isValidClassName_spec (example_profile ["toll road"%string] [])
  /\ ParseOSMData example_MAX_CLASS_INDEX example_MAX_EXCLUDABLE_CLASSES
       isValidClassName_spec id (example_profile ["toll road"%string] [])
       (example_parsed [1; 2] example_classes_map)
     = ([EvWriteTimestamp; EvParseRelations; EvParseWaysAndNodes; EvPrepareData],
        Throw (InvalidClassName "toll road")).
Proof.
  split; [|reflexivity].
  exists "toll road"%string. split; [|reflexivity]. simpl. by left.
Qed.

Lemma ParseOSMData_invalid_declaration_witness :
  throws (outcome_of
            (ParseOSMData example_MAX_CLASS_INDEX example_MAX_EXCLUDABLE_CLASSES
               isValidClassName_spec id (example_profile ["toll road"%string] [])
               (example_parsed [1; 2] example_classes_map))) /\
  exists rest,
    trace_of (ParseOSMData example_MAX_CLASS_INDEX example_MAX_EXCLUDABLE_CLASSES
                isValidClassName_spec id (example_profile ["toll road"%string] [])
                (example_parsed [1; 2] example_classes_map))
    = [EvWriteTimestamp; EvParseRelations; EvParseWaysAndNodes] ++ rest /\
    forall p, EvWriteProfileProperties p ∉ rest.
Proof.
  apply (ParseOSMData_invalid_declaration example_MAX_CLASS_INDEX
           example_MAX_EXCLUDABLE_CLASSES isValidClassName_spec id
           (example_profile ["toll road"%string] [])
           (example_parsed [1; 2] example_classes_map)).
  - exact example_classes_map_single.
  - left. exists "toll road"%string. split; [|reflexivity]. simpl. by left.
Defined.

(** ** BuildRTree *)

(** The filter loop, started with [out_iter <= in_iter] and as many flags as
    there are segments from [in_iter] on, passes its assertion; the segments
    before [out_iter] end up followed by the flagged ones among those from
    [in_iter] on. *)
Lemma filter_startpoints_spec node_is_startpoint segments out_iter in_iter :
  out_iter <= in_iter ->
  in_iter + length node_is_startpoint = length segments ->
  exists segments' new_size,
    filter_startpoints node_is_startpoint segments out_iter in_iter
    = Ok (segments', new_size) /\
    length segments' = length segments /\
    new_size <= in_iter + length node_is_startpoint /\
    take new_size segments'
    = take out_iter segments
      ++ startpoint_segments (drop in_iter segments) node_is_startpoint.
Proof.
  revert segments out_iter in_iter.
  induction node_is_startpoint as [|flag flags IH]; intros segments out_iter in_iter Hle Hlen.
  - simpl in *. exists segments, out_iter. repeat split; [lia|].
    destruct (drop in_iter segments); by rewrite app_nil_r.
  - simpl in Hlen. simpl filter_startpoints.
    destruct (Nat.ltb_spec in_iter (length segments)) as [Hin|]; [|lia]. simpl.
    destruct (lookup_lt_is_Some_2 segments in_iter Hin) as [s Hs].
    rewrite (drop_S _ _ _ Hs). rewrite Hs. destruct flag.
    + destruct (IH (<[out_iter := s]> segments) (S out_iter) (S in_iter))
        as (segments' & new_size & Hrun & Hlen' & Hsize & Htake).
      { lia. } { rewrite length_insert. lia. }
      exists segments', new_size. rewrite Hrun. rewrite length_insert in Hlen'.
      repeat split; [done|simpl; lia|].
      rewrite Htake. simpl.
      rewrite (take_S_r _ _ s) by (apply list_lookup_insert_eq; lia).
      rewrite take_insert_ge by lia.
      rewrite drop_insert_lt by lia.
      by rewrite <- app_assoc.
    + destruct (IH segments out_iter (S in_iter))
        as (segments' & new_size & Hrun & Hlen' & Hsize & Htake); [lia..|].
      exists segments', new_size. rewrite Hrun.
      repeat split; [done|simpl; lia|done].
Qed.

Lemma startpoint_segments_nil segments node_is_startpoint :
  length node_is_startpoint = length segments ->
  (startpoint_segments segments node_is_startpoint = []
   <-> forall flag, flag ∈ node_is_startpoint -> flag = false).
Proof.
  revert node_is_startpoint.
  induction segments as [|s segments IH]; intros [|flag flags] Hlen; simpl in *; try lia.
  - split; [|done]. intros _ ? Hin. by apply elem_of_nil in Hin.
  - destruct flag.
    + split; [done|]. intros Hall. by specialize (Hall true ltac:(left)).
    + rewrite IH by lia. split.
      * intros Hall f [->|Hin]%elem_of_cons; auto.
      * intros Hall f Hin. apply Hall. by right.
Qed.

(** C7.  For [node_is_startpoint] and [edge_based_node_segments] of equal
    length, [BuildRTree] throws exactly when no entry of [node_is_startpoint]
    is true; when some entry is true it builds the R-tree over the segments
    whose index is flagged, in their order. *)
Theorem BuildRTree_startpoints edge_based_node_segments node_is_startpoint :
  length node_is_startpoint = length edge_based_node_segments ->
  (throws (BuildRTree edge_based_node_segments node_is_startpoint)
   <-> forall flag, flag ∈ node_is_startpoint -> flag = false) /\
  (BuildRTree edge_based_node_segments node_is_startpoint = Throw NoSnappableEdges
   <-> forall flag, flag ∈ node_is_startpoint -> flag = false) /\
  (true ∈ node_is_startpoint ->
   BuildRTree edge_based_node_segments node_is_startpoint
   = Ok {| rtree_segments :=
             startpoint_segments edge_based_node_segments node_is_startpoint |}).
Proof.
  intros Hlen. unfold BuildRTree.
  rewrite (proj2 (Nat.eqb_eq _ _) Hlen). simpl.
  destruct (filter_startpoints_spec node_is_startpoint edge_based_node_segments 0 0)
    as (segments' & new_size & -> & Hlen' & Hsize & Htake); [lia|lia|].
  simpl in *. rewrite drop_0 in Htake. rewrite Htake.
  pose proof (startpoint_segments_nil edge_based_node_segments node_is_startpoint Hlen)
    as Hnil.
  assert (Hzero : new_size = 0
                  <-> startpoint_segments edge_based_node_segments node_is_startpoint = []).
  { rewrite <- Htake. split.
    - intros ->. apply take_0.
    - intros Hempty. apply (f_equal length) in Hempty.
      rewrite length_take in Hempty. simpl in Hempty. lia. }
  destruct (Nat.eqb_spec new_size 0) as [Hsize0|Hsize0].
  - pose proof (proj1 Hnil (proj1 Hzero Hsize0)) as Hall. repeat split; try done.
    + by eexists.
    + intros Htrue. by specialize (Hall true Htrue).
  - assert (Hsome : ~ forall flag, flag ∈ node_is_startpoint -> flag = false).
    { intros Hall. apply Hsize0, Hzero, Hnil, Hall. }
    repeat split; try done.
    intros [e He]. done.
Qed.

Lemma BuildRTree_startpoints_witness :
  (throws (BuildRTree example_segments [true; false; true])
   <-> forall flag, flag ∈ [true; false; true] -> flag = false) /\
  (BuildRTree example_segments [true; false; true] = Throw NoSnappableEdges
   <-> forall flag, flag ∈ [true; false; true] -> flag = false) /\
  (true ∈ [true; false; true] ->
   BuildRTree example_segments [true; false; true]
   = Ok {| rtree_segments := startpoint_segments example_segments [true; false; true] |}).
Proof.
  apply (BuildRTree_startpoints example_segments [true; false; true]).
  reflexivity.
Defined.

Example BuildRTree_example :
  BuildRTree example_segments [true; false; true]
  = Ok {| rtree_segments := [example_segment 0 1 true; example_segment 4 0 false] |}
  /\ BuildRTree example_segments [false; false; false] = Throw NoSnappableEdges
  /\ BuildRTree example_segments [true; false] = AssertionFailed.
Proof. repeat split; reflexivity. Qed.

(** ** IsSegregated *)

(** *** The order of names *)

Lemma String_ltb_leb (a b : string) : String.ltb a b = negb (String.leb b a).
Proof.
  unfold String.ltb, String.leb. rewrite (String.compare_antisym a b).
  by destruct (String.compare b a).
Qed.

Lemma LessName_false e1 e2 : EdgeInfo.LessName e2 e1 = false <-> name_le e1 e2.
Proof.
  unfold EdgeInfo.LessName, name_le, String.le. rewrite String_ltb_leb.
  destruct (String.leb (EdgeInfo.name e1) (EdgeInfo.name e2)); simpl; split; done.
Qed.

Lemma LessName_true e1 e2 : EdgeInfo.LessName e2 e1 = true <-> ~ name_le e1 e2.
Proof.
  rewrite <- LessName_false. destruct (EdgeInfo.LessName e2 e1); split; done.
Qed.

#[global] Instance name_le_trans : Transitive name_le.
Proof. intros a b c. unfold name_le. apply transitivity. Qed.

#[global] Instance name_le_total : Total name_le.
Proof. intros a b. unfold name_le. apply total, _. Qed.

Lemma name_le_antisym e1 e2 :
  name_le e1 e2 -> name_le e2 e1 -> EdgeInfo.name e1 = EdgeInfo.name e2.
Proof. unfold name_le. intros H1 H2. by apply (anti_symm String.le). Qed.

Lemma name_le_refl_eq e1 e2 : EdgeInfo.name e1 = EdgeInfo.name e2 -> name_le e1 e2.
Proof. unfold name_le. intros ->. done. Qed.

Lemma sorted_by_name_le v : sorted_by_name v <-> StronglySorted name_le v.
Proof.
  unfold sorted_by_name. split; intros Hs; induction Hs; constructor; try done.
  - eapply Forall_impl; [eassumption|]. intros y. apply LessName_false.
  - eapply Forall_impl; [eassumption|]. intros y. apply LessName_false.
Qed.

Lemma sorted_by_name_lookup v i j a b :
  sorted_by_name v -> i < j -> v !! i = Some a -> v !! j = Some b -> name_le a b.
Proof.
  rewrite sorted_by_name_le. intros Hs. revert i j.
  induction Hs as [|x l Hs IH Hall]; intros i j Hij Hi Hj.
  - by rewrite lookup_nil in Hi.
  - destruct j as [|j]; [lia|]. simpl in Hj. destruct i as [|i]; simpl in Hi.
    + injection Hi as <-. rewrite Forall_forall in Hall. apply Hall.
      by eapply list_elem_of_lookup_2.
    + apply (IH i j); [lia|done..].
Qed.

(** stdpp's merge sort is a [std::sort]. *)
Lemma merge_sort_by_name_Permutation v : merge_sort_by_name v ≡ₚ v.
Proof. apply merge_sort_Permutation. Qed.

Lemma merge_sort_by_name_sorted v : sorted_by_name (merge_sort_by_name v).
Proof. apply sorted_by_name_le, StronglySorted_merge_sort; apply _. Qed.

(** *** Binary search *)

Lemma lower_bound_S fuel v value first len :
  lower_bound (S fuel) v value first len =
  if len =? 0 then first
  else
    match v !! (first + len / 2) with
    | Some e =>
        if EdgeInfo.LessName e value
        then lower_bound fuel v value (S (first + len / 2)) (len - len / 2 - 1)
        else lower_bound fuel v value first (len / 2)
    | None => first
    end.
Proof. reflexivity. Qed.

(** [lower_bound] returns the partition point: the elements before it are
    less than [value], the ones from it on are not. *)
Lemma lower_bound_spec v value fuel first len :
  sorted_by_name v ->
  len <= fuel ->
  first + len <= length v ->
  (forall i e, i < first -> v !! i = Some e -> EdgeInfo.LessName e value = true) ->
  (forall i e, first + len <= i -> v !! i = Some e -> EdgeInfo.LessName e value = false) ->
  let r := lower_bound fuel v value first len in
  (forall i e, i < r -> v !! i = Some e -> EdgeInfo.LessName e value = true) /\
  (forall i e, r <= i -> v !! i = Some e -> EdgeInfo.LessName e value = false).
Proof.
  intros Hsorted. revert first len.
  induction fuel as [|fuel IH]; intros first len Hfuel Hrange Hbelow Habove; cbv zeta.
  - assert (len = 0) as -> by lia. rewrite Nat.add_0_r in Habove. done.
  - rewrite lower_bound_S. destruct (Nat.eqb_spec len 0) as [->|Hpos].
    { rewrite Nat.add_0_r in Habove. done. }
    pose proof (Nat.div_lt len 2 ltac:(lia) ltac:(lia)) as Hhalf.
    destruct (lookup_lt_is_Some_2 v (first + len / 2) ltac:(lia)) as [m Hm].
    rewrite Hm. destruct (EdgeInfo.LessName m value) eqn:Hless.
    + apply IH; [lia|lia| |].
      * intros i e Hi He. destruct (decide (i = first + len / 2)) as [->|Hne].
        -- congruence.
        -- apply LessName_true. intros Hle. apply LessName_true in Hless. apply Hless.
           etrans; [exact Hle|].
           apply (sorted_by_name_lookup v i (first + len / 2)); [done|lia|done..].
      * intros i e Hi He. apply (Habove i e); [lia|done].
    + apply IH; [lia|lia|done|].
      intros i e Hi He. destruct (decide (i = first + len / 2)) as [->|Hne].
      * congruence.
      * apply LessName_false. apply LessName_false in Hless.
        etrans; [exact Hless|].
        apply (sorted_by_name_lookup v (first + len / 2) i); [done|lia|done..].
Qed.

(** On a sorted vector the search finds exactly the names that occur. *)
Lemma binary_search_spec v value :
  sorted_by_name v ->
  (binary_search v value = true
   <-> exists e, e ∈ v /\ EdgeInfo.name e = EdgeInfo.name value).
Proof.
  intros Hsorted. unfold binary_search.
  destruct (lower_bound_spec v value (length v) 0 (length v) Hsorted) as [Hbelow Habove];
    [lia|lia|intros; lia| |].
  { intros i e Hi He. apply lookup_lt_Some in He. simpl in Hi. lia. }
  set (r := lower_bound (length v) v value 0 (length v)) in *.
  split.
  - destruct (v !! r) as [e|] eqn:Hr; [|done].
    intros Hnot. apply negb_true_iff in Hnot.
    exists e. split; [by eapply list_elem_of_lookup_2|].
    apply name_le_antisym.
    + by apply LessName_false.
    + apply LessName_false. by apply (Habove r e).
  - intros (e & Hin & Hname). apply list_elem_of_lookup_1 in Hin as [i Hi].
    assert (Hir : r <= i).
    { destruct (decide (r <= i)); [done|]. exfalso.
      assert (Hless : EdgeInfo.LessName e value = true) by (apply (Hbelow i e); [lia|done]).
      apply LessName_true in Hless. apply Hless. by apply name_le_refl_eq. }
    destruct (lookup_lt_is_Some_2 v r) as [m Hm].
    { apply lookup_lt_Some in Hi. lia. }
    rewrite Hm. apply negb_true_iff, LessName_false.
    destruct (decide (r = i)) as [->|Hne].
    + assert (m = e) as -> by congruence. by apply name_le_refl_eq.
    + etrans; [|apply name_le_refl_eq; exact Hname].
      apply (sorted_by_name_lookup v r i); [done|lia|done..].
Qed.

(** *** The common pairs *)

Lemma common_pairs_spec v1 v2 a b :
  (a, b) ∈ common_pairs v1 v2 ->
  a ∈ v1 /\ b ∈ v2 /\ EdgeInfo.name a = EdgeInfo.name b /\ EdgeInfo.name a <> EmptyString.
Proof.
  revert v2. induction v1 as [|e1 r1 IH1]; intros v2; simpl.
  - intros Hin. by apply elem_of_nil in Hin.
  - induction v2 as [|e2 r2 IH2].
    + intros Hin. by apply elem_of_nil in Hin.
    + destruct (String.eqb_spec (EdgeInfo.name e1) (EdgeInfo.name e2)) as [Heq|Hne].
      * destruct (String.eqb_spec (EdgeInfo.name e1) EmptyString) as [Hempty|Hfull].
        -- intros (? & ? & ? & ?)%IH1. repeat split; try done; by right.
        -- intros [[= -> ->]|(? & ? & ? & ?)%IH1]%elem_of_cons.
           ++ repeat split; try done; by left.
           ++ repeat split; try done; by right.
      * destruct (String.ltb (EdgeInfo.name e1) (EdgeInfo.name e2)).
        -- intros (? & ? & ? & ?)%IH1. repeat split; try done. by right.
        -- intros (? & ? & ? & ?)%IH2. repeat split; try done. by right.
Qed.

Lemma common_pairs_length v1 v2 :
  length (common_pairs v1 v2) <= length v1 /\ length (common_pairs v1 v2) <= length v2.
Proof.
  revert v2. induction v1 as [|e1 r1 IH1]; intros v2; simpl.
  - lia.
  - induction v2 as [|e2 r2 IH2]; simpl.
    + lia.
    + destruct (String.eqb (EdgeInfo.name e1) (EdgeInfo.name e2)).
      * destruct (String.eqb (EdgeInfo.name e1) EmptyString);
          simpl; destruct (IH1 r2); lia.
      * destruct (String.ltb (EdgeInfo.name e1) (EdgeInfo.name e2)).
        -- destruct (IH1 (e2 :: r2)). simpl in *. lia.
        -- simpl in IH2. lia.
Qed.

(** *** The length threshold *)

Lemma pair_threshold_In e : In (pair_threshold e) pair_thresholds.
Proof.
  unfold pair_threshold, pair_thresholds.
  destruct (EdgeInfo.road_priority_class e.1), (EdgeInfo.road_priority_class e.2);
    simpl; tauto.
Qed.

(** The sum of two thresholds is computed exactly. *)
Lemma pair_threshold_double e :
  (get_length_threshold e.1 + get_length_threshold e.2)%float
  = double_of_Z (pair_threshold e).
Proof.
  unfold pair_threshold, get_length_threshold.
  destruct (EdgeInfo.road_priority_class e.1), (EdgeInfo.road_priority_class e.2);
    reflexivity.
Qed.

Ltac each_threshold H :=
  unfold pair_thresholds in H; simpl in H;
  repeat (destruct H as [<-|H]; [|]); [..|destruct H].

Lemma std_min_DBL_MAX b :
  In b pair_thresholds -> std_min DBL_MAX (double_of_Z b) = double_of_Z b.
Proof. intros Hb. each_threshold Hb; reflexivity. Qed.

Lemma std_min_double a b :
  In a pair_thresholds -> In b pair_thresholds ->
  std_min (double_of_Z a) (double_of_Z b) = double_of_Z (Z.min a b).
Proof. intros Ha Hb. each_threshold Ha; each_threshold Hb; reflexivity. Qed.

Lemma Z_min_In a b : In a pair_thresholds -> In b pair_thresholds ->
  In (Z.min a b) pair_thresholds.
Proof. intros Ha Hb. destruct (Z.min_spec a b) as [[_ ->]|[_ ->]]; done. Qed.

Lemma fold_min_threshold commons a :
  In a pair_thresholds ->
  fold_left
    (fun threshold e =>
       std_min threshold (get_length_threshold e.1 + get_length_threshold e.2)%float)
    commons (double_of_Z a)
  = double_of_Z (fold_left Z.min (pair_threshold <$> commons) a).
Proof.
  revert a. induction commons as [|e rest IH]; intros a Ha; simpl; [done|].
  rewrite pair_threshold_double, std_min_double by (done || apply pair_threshold_In).
  apply IH, Z_min_In; [done|apply pair_threshold_In].
Qed.

Lemma fold_left_min_is_minimum (l : list Z) (a : Z) :
  is_minimum (fold_left Z.min l a) (a :: l).
Proof.
  revert a. induction l as [|x l IH]; intros a; simpl.
  - split; [by left|]. intros y [->|Hin]%elem_of_cons; [lia|by apply elem_of_nil in Hin].
  - destruct (IH (Z.min a x)) as [Hin Hle]. split.
    + apply elem_of_cons in Hin as [Heq|Hin].
      * rewrite Heq. destruct (Z.min_spec a x) as [[_ ->]|[_ ->]].
        -- by left.
        -- right. by left.
      * right. by right.
    + intros y Hy.
      assert (Hmin : (fold_left Z.min l (Z.min a x) <= Z.min a x)%Z) by (apply Hle; by left).
      apply elem_of_cons in Hy as [->|[->|Hy]%elem_of_cons]; [lia|lia|].
      apply Hle. by right.
Qed.

Lemma is_minimum_unique m m' l : is_minimum m l -> is_minimum m' l -> m = m'.
Proof.
  intros [Hin Hle] [Hin' Hle']. specialize (Hle m' Hin'). specialize (Hle' m Hin). lia.
Qed.

(** The threshold of the code is the least pair threshold, as a [double]. *)
Lemma length_threshold_minimum commons m :
  is_minimum m (pair_threshold <$> commons) ->
  length_threshold commons = double_of_Z m.
Proof.
  intros Hm. destruct commons as [|e rest].
  - destruct Hm as [Hin _]. by apply elem_of_nil in Hin.
  - unfold length_threshold. simpl.
    rewrite pair_threshold_double, std_min_DBL_MAX by apply pair_threshold_In.
    rewrite fold_min_threshold by apply pair_threshold_In. f_equal.
    eapply is_minimum_unique; [|exact Hm]. apply fold_left_min_is_minimum.
Qed.

(** *** The gates and the result *)

Section IsSegregatedFacts.
Variable std_sort : list EdgeInfo.t -> list EdgeInfo.t.
Hypothesis std_sort_Permutation : forall v, std_sort v ≡ₚ v.
Hypothesis std_sort_sorted : forall v, sorted_by_name (std_sort v).

Lemma binary_search_std_sort v value :
  binary_search (std_sort v) value = true
  <-> exists e, e ∈ v /\ EdgeInfo.name e = EdgeInfo.name value.
Proof.
  rewrite binary_search_spec by apply std_sort_sorted.
  split; intros (e & Hin & Hname); exists e; split; try done.
  - by rewrite <- (std_sort_Permutation v).
  - by rewrite (std_sort_Permutation v).
Qed.

(** The test on the name of the current edge is the name gate. *)
Lemma name_gate_test v1 v2 current :
  negb (String.eqb (EdgeInfo.name current) EmptyString)
  && (negb (binary_search (std_sort v1) current)
      && negb (binary_search (std_sort v2) current)) = false
  <-> name_gate v1 v2 current.
Proof.
  unfold name_gate.
  destruct (String.eqb_spec (EdgeInfo.name current) EmptyString) as [Hempty|Hfull]; simpl.
  { split; [intros _ Hne; done|done]. }
  destruct (binary_search (std_sort v1) current) eqn:H1; simpl.
  { apply binary_search_std_sort in H1 as (e & Hin & Hname).
    split; [|done]. intros _ _. exists e. auto. }
  destruct (binary_search (std_sort v2) current) eqn:H2; simpl.
  { apply binary_search_std_sort in H2 as (e & Hin & Hname).
    split; [|done]. intros _ _. exists e. auto. }
  split; [done|]. intros Hgate. destruct (Hgate Hfull) as (e & [Hin|Hin] & Hname).
  - assert (binary_search (std_sort v1) current = true)
      by (apply binary_search_std_sort; eauto). congruence.
  - assert (binary_search (std_sort v2) current = true)
      by (apply binary_search_std_sort; eauto). congruence.
Qed.

(** What [IsSegregated] returns, by its gates. *)
Lemma IsSegregated_by_gates v1 v2 current edgeLength :
  IsSegregated std_sort v1 v2 current edgeLength = true
  <-> gates_hold std_sort v1 v2 current
      /\ double_le edgeLength
           (length_threshold (common_pairs (std_sort v1) (std_sort v2))).
Proof.
  unfold IsSegregated, gates_hold, double_le. cbv zeta.
  pose proof (common_pairs_length (std_sort v1) (std_sort v2)) as [Hl1 Hl2].
  rewrite (Permutation_length (std_sort_Permutation v1)) in Hl1.
  rewrite (Permutation_length (std_sort_Permutation v2)) in Hl2.
  destruct (Nat.ltb_spec (length v1) 2) as [Hv1|Hv1]; simpl.
  { split; [done|]. intros [(_ & Hc & _) _]. lia. }
  destruct (Nat.ltb_spec (length v2) 2) as [Hv2|Hv2]; simpl.
  { split; [done|]. intros [(_ & Hc & _) _]. lia. }
  destruct (negb (String.eqb (EdgeInfo.name current) EmptyString)
            && (negb (binary_search (std_sort v1) current)
                && negb (binary_search (std_sort v2) current))) eqn:Hname.
  { split; [done|]. intros [(Hgate & _) _].
    apply name_gate_test in Hgate. congruence. }
  apply name_gate_test in Hname.
  destruct (Nat.ltb_spec (length (common_pairs (std_sort v1) (std_sort v2))) 2) as [Hc|Hc].
  { split; [done|]. intros [(_ & Hc' & _) _]. lia. }
  destruct (Nat.ltb_spec
              (length (List.filter check_equal_class
                         (common_pairs (std_sort v1) (std_sort v2)))) 2) as [He|He].
  { split; [done|]. intros [(_ & _ & He') _]. lia. }
  tauto.
Qed.

(** C5.  [IsSegregated] returns true only if all gates hold: when the name of
    the current edge is not empty, some edge of one of the two lists has that
    name; there are at least two common pairs, a common pair being an edge of
    each list with the same, non-empty name, found by the merge of the two
    sorted lists; and at least two common pairs have equal class masks. *)
Theorem IsSegregated_gates v1 v2 current edgeLength :
  IsSegregated std_sort v1 v2 current edgeLength = true ->
  let commons := common_pairs (std_sort v1) (std_sort v2) in
  name_gate v1 v2 current /\
  (forall a b, (a, b) ∈ commons ->
     a ∈ v1 /\ b ∈ v2 /\ EdgeInfo.name a = EdgeInfo.name b
     /\ EdgeInfo.name a <> EmptyString) /\
  2 <= length commons /\
  2 <= length (List.filter
                 (fun e => N.eqb (EdgeInfo.road_class e.1) (EdgeInfo.road_class e.2))
                 commons).
Proof.
  intros Hrun. apply IsSegregated_by_gates in Hrun as [(Hname & Hc & He) _].
  cbv zeta. split; [done|]. split; [|by split].
  intros a b (Ha & Hb & Hsame & Hfull)%common_pairs_spec.
  split; [by rewrite <- (std_sort_Permutation v1)|].
  split; [by rewrite <- (std_sort_Permutation v2)|done].
Qed.

(** C6.  When the gates hold, [IsSegregated] returns true exactly when the
    edge length is at most the least of [t(a) + t(b)] over the common pairs,
    [t] being 30 for motorway and trunk, 20 for primary, 10 for secondary and
    tertiary and 5 for any other class.  The comparison is that of
    [double]s. *)
Theorem IsSegregated_length_threshold v1 v2 current edgeLength m :
  gates_hold std_sort v1 v2 current ->
  is_minimum m (pair_threshold <$> common_pairs (std_sort v1) (std_sort v2)) ->
  (IsSegregated std_sort v1 v2 current edgeLength = true
   <-> double_le edgeLength (double_of_Z m)).
Proof.
  intros Hgates Hm. rewrite IsSegregated_by_gates.
  rewrite (length_threshold_minimum _ m Hm). tauto.
Qed.
End IsSegregatedFacts.

(** *** The rule on a cross street between two carriageways *)

Example IsSegregated_example :
  IsSegregated merge_sort_by_name example_v1 example_v2 example_current 12%float = true
  /\ IsSegregated merge_sort_by_name example_v1 example_v2 example_current 20%float = true
  /\ IsSegregated merge_sort_by_name example_v1 example_v2 example_current 20.5%float = false
  /\ IsSegregated merge_sort_by_name example_v1 example_v2 example_current nan = false
  /\ pair_threshold <$> common_pairs (merge_sort_by_name example_v1)
                          (merge_sort_by_name example_v2) = [20; 40; 40]%Z.
Proof. vm_compute. repeat split. Qed.

Lemma IsSegregated_gates_witness :
  let commons := common_pairs (merge_sort_by_name example_v1)
                   (merge_sort_by_name example_v2) in
  name_gate example_v1 example_v2 example_current /\
  (forall a b, (a, b) ∈ commons ->
     a ∈ example_v1 /\ b ∈ example_v2 /\ EdgeInfo.name a = EdgeInfo.name b
     /\ EdgeInfo.name a <> EmptyString) /\
  2 <= length commons /\
  2 <= length (List.filter
                 (fun e => N.eqb (EdgeInfo.road_class e.1) (EdgeInfo.road_class e.2))
                 commons).
Proof.
  apply (IsSegregated_gates merge_sort_by_name merge_sort_by_name_Permutation
           merge_sort_by_name_sorted example_v1 example_v2 example_current 12%float).
  vm_compute. reflexivity.
Defined.

Lemma example_gates_hold :
  gates_hold merge_sort_by_name example_v1 example_v2 example_current.
Proof.
  split; [|split].
  - intros _. exists (example_edge 12%N "5th" TERTIARY). split; [|reflexivity].
    left. unfold example_v1. do 2 right. by left.
  - vm_compute. lia.
  - vm_compute. lia.
Defined.

Lemma example_minimum :
  is_minimum 20 (pair_threshold <$> common_pairs (merge_sort_by_name example_v1)
                                      (merge_sort_by_name example_v2)).
Proof.
  change (is_minimum 20 [20; 40; 40]%Z). split; [by left|].
  intros x Hx. repeat (apply elem_of_cons in Hx as [->|Hx]; [lia|]).
  by apply elem_of_nil in Hx.
Defined.

Lemma IsSegregated_length_threshold_witness :
  IsSegregated merge_sort_by_name example_v1 example_v2 example_current 12%float = true
  <-> double_le 12%float (double_of_Z 20).
Proof.
  apply (IsSegregated_length_threshold merge_sort_by_name merge_sort_by_name_Permutation
           merge_sort_by_name_sorted example_v1 example_v2 example_current 12%float 20%Z).
  - exact example_gates_hold.
  - exact example_minimum.
Defined.

(** ** FindComponents *)

(** *** The component search that can be run meets the contract *)

Section NaiveSCCFacts.
Import NaiveSCC.
Variable g : StaticGraph.
Hypothesis g_wf : graph_wf g.

Lemma elem_of_graph_nodes a : a ∈ graph_nodes g <-> (a < number_of_nodes g)%N.
Proof.
  unfold graph_nodes. rewrite list_elem_of_fmap. split.
  - intros (i & -> & Hi). apply elem_of_seq in Hi. lia.
  - intros Ha. exists (N.to_nat a). split; [lia|]. apply elem_of_seq. lia.
Qed.

Lemma elem_of_successors a c : c ∈ successors g a <-> has_edge g a c.
Proof.
  unfold successors, has_edge. rewrite list_elem_of_fmap. split.
  - intros ([a' c'] & -> & Hin). apply list_elem_of_In, filter_In in Hin as [Hin Ha].
    simpl in *. apply N.eqb_eq in Ha as ->. by apply list_elem_of_In.
  - intros Hin. exists (a, c). split; [done|].
    apply list_elem_of_In, filter_In. split; [by apply list_elem_of_In|].
    simpl. apply N.eqb_refl.
Qed.

Lemma reaches_sound fuel a b : reaches g fuel a b = true -> rtc (has_edge g) a b.
Proof.
  revert a. induction fuel as [|fuel IH]; intros a; simpl.
  - rewrite orb_false_r. intros ->%N.eqb_eq. done.
  - intros [->%N.eqb_eq|Hex]%orb_true_iff; [done|].
    apply existsb_exists in Hex as (c & Hc & Hcb).
    apply rtc_l with c; [|by apply IH].
    by apply elem_of_successors, list_elem_of_In.
Qed.

Lemma is_path_reaches p : forall fuel a b,
  is_path g a p b -> length p <= fuel -> reaches g fuel a b = true.
Proof.
  induction p as [|c p IH]; intros fuel a b; simpl.
  - intros -> _. destruct fuel; simpl; by rewrite N.eqb_refl.
  - intros [Hac Hcb] Hlen. destruct fuel as [|fuel]; [lia|]. simpl.
    apply orb_true_iff. right. apply existsb_exists. exists c. split.
    + by apply list_elem_of_In, elem_of_successors.
    + apply IH; [done|lia].
Qed.

Lemma is_path_suffix b a l2 : forall l1 c p,
  is_path g c p b -> c :: p = l1 ++ a :: l2 -> is_path g a l2 b.
Proof.
  induction l1 as [|x l1 IH]; intros c p Hpath Heq; simpl in Heq.
  - by injection Heq as -> ->.
  - injection Heq as -> Hp. destruct p as [|c' p'].
    + by destruct l1.
    + simpl in Hpath. destruct Hpath as [_ Hpath]. by apply (IH c' p').
Qed.

Lemma is_path_in_range p : forall a b,
  is_path g a p b -> forall x, x ∈ p -> (x < number_of_nodes g)%N.
Proof.
  induction p as [|c p IH]; intros a b Hpath x Hx.
  - by apply elem_of_nil in Hx.
  - simpl in Hpath. destruct Hpath as [Hac Hcb].
    apply elem_of_cons in Hx as [->|Hx].
    + by apply g_wf in Hac as [_ ?].
    + by apply (IH c b).
Qed.

(** Whatever can be reached can be reached without passing a node twice. *)
Lemma rtc_simple_path a b :
  rtc (has_edge g) a b -> exists p, is_path g a p b /\ NoDup (a :: p).
Proof.
  induction 1 as [a|a c b Hac Hcb (p & Hpath & Hnodup)].
  - exists []. split; [done|]. apply NoDup_singleton.
  - destruct (decide (a ∈ c :: p)) as [Hin|Hnotin].
    + apply list_elem_of_split in Hin as (l1 & l2 & Heq).
      exists l2. split; [by eapply is_path_suffix|].
      rewrite Heq in Hnodup. by apply NoDup_app in Hnodup as (_ & _ & ?).
    + exists (c :: p). split; [done|]. by apply NoDup_cons.
Qed.

Lemma NoDup_nodes_length (l : list NodeID) :
  NoDup l -> (forall x, x ∈ l -> (x < number_of_nodes g)%N) ->
  length l <= N.to_nat (number_of_nodes g).
Proof.
  intros Hnodup Hrange.
  assert (Hsub : l ⊆+ graph_nodes g).
  { apply NoDup_submseteq; [done|]. intros x Hx. by apply elem_of_graph_nodes, Hrange. }
  apply submseteq_length in Hsub. unfold graph_nodes in Hsub.
  by rewrite length_fmap, length_seq in Hsub.
Qed.

Lemma reaches_complete a b :
  (a < number_of_nodes g)%N -> rtc (has_edge g) a b ->
  reaches g (N.to_nat (number_of_nodes g)) a b = true.
Proof.
  intros Ha Hab. destruct (rtc_simple_path a b Hab) as (p & Hpath & Hnodup).
  apply (is_path_reaches p); [done|].
  assert (Hlen : length (a :: p) <= N.to_nat (number_of_nodes g)).
  { apply NoDup_nodes_length; [done|].
    intros x [->|Hx]%elem_of_cons; [done|]. by eapply is_path_in_range. }
  cbn [length] in Hlen. lia.
Qed.

Lemma connected_spec a b :
  (a < number_of_nodes g)%N -> (b < number_of_nodes g)%N ->
  (connected g a b = true <-> strongly_connected g a b).
Proof.
  intros Ha Hb. unfold connected, strongly_connected. rewrite andb_true_iff. split.
  - intros [Hab Hba]. split; by eapply reaches_sound.
  - intros [Hab Hba]. split; by apply reaches_complete.
Qed.

Lemma strongly_connected_refl a : strongly_connected g a a.
Proof. by split. Qed.

Lemma strongly_connected_sym a b : strongly_connected g a b -> strongly_connected g b a.
Proof. intros [? ?]. by split. Qed.

Lemma strongly_connected_trans a b c :
  strongly_connected g a b -> strongly_connected g b c -> strongly_connected g a c.
Proof. intros [? ?] [? ?]. split; by etrans. Qed.

Lemma root_spec a :
  (a < number_of_nodes g)%N ->
  (root g a < number_of_nodes g)%N /\ (root g a <= a)%N /\ strongly_connected g a (root g a).
Proof.
  intros Ha. unfold root.
  destruct (List.find (connected g a) (graph_nodes g)) as [r|] eqn:Hfind; simpl.
  - pose proof Hfind as Hfind'. apply find_some in Hfind as [Hin Hconn].
    apply list_elem_of_In, elem_of_graph_nodes in Hin.
    split; [done|]. split; [|by apply connected_spec].
    destruct (decide (r <= a)%N) as [|Hgt]; [done|]. exfalso.
    (* [a] itself comes before [r] in the list of nodes and is connected *)
    unfold graph_nodes in Hfind'.
    assert (Hgen : forall len start,
               List.find (connected g a) (N.of_nat <$> seq start len) = Some r ->
               start <= N.to_nat a < start + len -> (r <= a)%N).
    { induction len as [|len IH]; intros start Hf Hrange; simpl in *; [lia|].
      destruct (connected g a (N.of_nat start)) eqn:Hc.
      - injection Hf as <-. lia.
      - destruct (decide (start = N.to_nat a)) as [->|Hne].
        + rewrite N2Nat.id in Hc.
          assert (connected g a a = true)
            by (apply connected_spec; [done..|apply strongly_connected_refl]).
          congruence.
        + apply (IH (S start)); [done|lia]. }
    apply Hgt, (Hgen _ 0 Hfind'). lia.
  - exfalso. apply find_none with (x := a) in Hfind.
    + assert (connected g a a = true)
        by (apply connected_spec; [done..|apply strongly_connected_refl]).
      congruence.
    + by apply list_elem_of_In, elem_of_graph_nodes.
Qed.

Lemma root_strongly_connected a b :
  (a < number_of_nodes g)%N -> (b < number_of_nodes g)%N ->
  (root g a = root g b <-> strongly_connected g a b).
Proof.
  intros Ha Hb.
  destruct (root_spec a Ha) as (Hra & _ & Har).
  destruct (root_spec b Hb) as (Hrb & _ & Hbr).
  split.
  - intros Heq. apply strongly_connected_trans with (root g a); [done|].
    rewrite Heq. by apply strongly_connected_sym.
  - intros Hab. unfold root.
    assert (Hext : forall l, (forall x, x ∈ l -> (x < number_of_nodes g)%N) ->
               List.find (connected g a) l = List.find (connected g b) l).
    { induction l as [|x l IH]; intros Hl; simpl; [done|].
      assert (Hx : (x < number_of_nodes g)%N) by (apply Hl; by left).
      assert (Hsame : connected g a x = connected g b x).
      { apply eq_true_iff_eq. rewrite !connected_spec by done. split; intros Hc.
        - apply strongly_connected_trans with a; [by apply strongly_connected_sym|done].
        - by apply strongly_connected_trans with b. }
      rewrite Hsame, IH; [done|]. intros y Hy. apply Hl. by right. }
    rewrite (Hext (graph_nodes g)) by (intros x; apply elem_of_graph_nodes).
    destruct (List.find (connected g b) (graph_nodes g)) eqn:Hfind; simpl; [done|].
    exfalso. apply find_none with (x := b) in Hfind.
    + assert (connected g b b = true)
        by (apply connected_spec; [done..|apply strongly_connected_refl]).
      congruence.
    + by apply list_elem_of_In, elem_of_graph_nodes.
Qed.

Lemma is_root_root a : (a < number_of_nodes g)%N -> is_root g (root g a) = true.
Proof.
  intros Ha. destruct (root_spec a Ha) as (Hr & _ & Har).
  unfold is_root. apply N.eqb_eq. symmetry.
  by apply root_strongly_connected.
Qed.

Lemma rank_le r : (rank g r <= r)%N.
Proof.
  unfold rank.
  pose proof (filter_length (is_root g) (N.of_nat <$> seq 0 (N.to_nat r))) as Hlen.
  rewrite length_fmap, length_seq in Hlen. lia.
Qed.

Lemma rank_lt r1 r2 : (r1 < r2)%N -> is_root g r1 = true -> (rank g r1 < rank g r2)%N.
Proof.
  intros Hlt Hroot. unfold rank.
  replace (N.to_nat r2) with (N.to_nat r1 + S (N.to_nat r2 - N.to_nat r1 - 1)) by lia.
  rewrite seq_app, fmap_app, List.filter_app, length_app. simpl.
  rewrite N2Nat.id, Hroot. simpl. lia.
Qed.

Lemma rank_inj r1 r2 :
  is_root g r1 = true -> is_root g r2 = true -> rank g r1 = rank g r2 -> r1 = r2.
Proof.
  intros H1 H2 Heq. destruct (N.lt_trichotomy r1 r2) as [Hlt|[->|Hgt]]; [|done|].
  - pose proof (rank_lt r1 r2 Hlt H1). lia.
  - pose proof (rank_lt r2 r1 Hgt H2). lia.
Qed.

Lemma component_id_spec a b :
  (a < number_of_nodes g)%N -> (b < number_of_nodes g)%N ->
  (component_id g a = component_id g b <-> strongly_connected g a b).
Proof.
  intros Ha Hb. rewrite <- root_strongly_connected by done. unfold component_id. split.
  - apply rank_inj; by apply is_root_root.
  - by intros ->.
Qed.

Lemma component_id_bound a :
  (a < number_of_nodes g)%N -> (component_id g a < number_of_nodes g)%N.
Proof.
  intros Ha. unfold component_id. destruct (root_spec a Ha) as (Hr & _ & _).
  pose proof (rank_le (root g a)). lia.
Qed.
End NaiveSCCFacts.

#[global] Instance naive_TarjanSCC : TarjanSCC := {|
  GetComponentID := NaiveSCC.component_id;
  GetComponentSize := NaiveSCC.component_size;
  GetComponentID_spec := fun g a b Hwf => component_id_spec g Hwf a b;
  GetComponentID_bound := fun g a Hwf => component_id_bound g Hwf a;
  GetComponentSize_spec := fun g a _ _ => eq_refl
|}.

(** *** The edges handed to the component search *)

Lemma add_edge_based_edges_Ok n input_edge_list edges edges' :
  add_edge_based_edges n input_edge_list edges = Ok edges' ->
  Forall (fun edge => (EdgeBasedEdge.source edge < n)%N
                      /\ (EdgeBasedEdge.target edge < n)%N) input_edge_list
  /\ edges' = edges ++ directed_edges input_edge_list.
Proof.
  revert edges. induction input_edge_list as [|edge rest IH]; intros edges; simpl.
  - intros [= <-]. split; [constructor|by rewrite app_nil_r].
  - destruct (0 <? to_unsigned (Z.max (EdgeBasedEdge.weight (EdgeBasedEdge.data edge)) 1))%Z;
      simpl; [|done].
    destruct (N.ltb_spec (EdgeBasedEdge.source edge) n); simpl; [|done].
    destruct (N.ltb_spec (EdgeBasedEdge.target edge) n); simpl; [|done].
    intros Hrun. apply IH in Hrun as [Hall ->]. split; [by constructor|].
    destruct (EdgeBasedEdge.forward (EdgeBasedEdge.data edge)),
             (EdgeBasedEdge.backward (EdgeBasedEdge.data edge));
      simpl; by rewrite <- ?app_assoc.
Qed.

Lemma add_segment_edges_Ok n input_node_segments edges edges' :
  add_segment_edges n input_node_segments edges = Ok edges' ->
  Forall (fun segment =>
            SegmentID.enabled (EdgeBasedNodeSegment.reverse_segment_id segment) = true ->
            (SegmentID.id (EdgeBasedNodeSegment.forward_segment_id segment) < n)%N
            /\ (SegmentID.id (EdgeBasedNodeSegment.reverse_segment_id segment) < n)%N)
         input_node_segments
  /\ edges' = edges ++ mate_edges input_node_segments.
Proof.
  revert edges. induction input_node_segments as [|segment rest IH]; intros edges; simpl.
  - intros [= <-]. split; [constructor|by rewrite app_nil_r].
  - destruct (SegmentID.enabled (EdgeBasedNodeSegment.reverse_segment_id segment))
      eqn:Henabled.
    + destruct (N.ltb_spec
                  (SegmentID.id (EdgeBasedNodeSegment.forward_segment_id segment)) n);
        simpl; [|done].
      destruct (N.ltb_spec
                  (SegmentID.id (EdgeBasedNodeSegment.reverse_segment_id segment)) n);
        simpl; [|done].
      intros Hrun. apply IH in Hrun as [Hall ->]. split; [by constructor|].
      by rewrite <- app_assoc.
    + intros Hrun. apply IH in Hrun as [Hall ->]. split; [|done].
      constructor; [congruence|done].
Qed.

Lemma elem_of_std_unique x edges : x ∈ std_unique edges <-> x ∈ edges.
Proof.
  induction edges as [|a rest IH]; [done|].
  destruct rest as [|b rest]; [done|].
  change (std_unique (a :: b :: rest))
    with (if bool_decide (a = b) then std_unique (b :: rest)
          else a :: std_unique (b :: rest)).
  case_bool_decide as Hab.
  - rewrite IH. subst b. rewrite !elem_of_cons. tauto.
  - rewrite !(elem_of_cons _ x a), IH. done.
Qed.

Lemma elem_of_parallel_sort x edges : x ∈ parallel_sort edges <-> x ∈ edges.
Proof. unfold parallel_sort. by rewrite merge_sort_Permutation. Qed.

Lemma elem_of_directed_edges a b input_edge_list :
  (a, b) ∈ directed_edges input_edge_list <->
  exists edge, edge ∈ input_edge_list /\
    ((EdgeBasedEdge.forward (EdgeBasedEdge.data edge) = true
      /\ a = EdgeBasedEdge.source edge /\ b = EdgeBasedEdge.target edge)
     \/ (EdgeBasedEdge.backward (EdgeBasedEdge.data edge) = true
         /\ a = EdgeBasedEdge.target edge /\ b = EdgeBasedEdge.source edge)).
Proof.
  unfold directed_edges. rewrite list_elem_of_In, in_flat_map.
  split; intros (edge & Hin & Hab); exists edge; (split; [by apply list_elem_of_In|]).
  - apply in_app_or in Hab as [Hab|Hab].
    + destruct (EdgeBasedEdge.forward (EdgeBasedEdge.data edge)); simpl in Hab; [|done].
      destruct Hab as [[= <- <-]|[]]. by left.
    + destruct (EdgeBasedEdge.backward (EdgeBasedEdge.data edge)); simpl in Hab; [|done].
      destruct Hab as [[= <- <-]|[]]. by right.
  - apply in_or_app. destruct Hab as [(-> & -> & ->)|(-> & -> & ->)];
      [left|right]; by left.
Qed.

Lemma elem_of_mate_edges a b input_node_segments :
  (a, b) ∈ mate_edges input_node_segments <->
  exists segment, segment ∈ input_node_segments /\
    SegmentID.enabled (EdgeBasedNodeSegment.reverse_segment_id segment) = true /\
    let fwd := SegmentID.id (EdgeBasedNodeSegment.forward_segment_id segment) in
    let rev := SegmentID.id (EdgeBasedNodeSegment.reverse_segment_id segment) in
    (a = fwd /\ b = rev) \/ (a = rev /\ b = fwd).
Proof.
  unfold mate_edges. rewrite list_elem_of_In, in_flat_map.
  split; intros (segment & Hin & Hab); exists segment; (split; [by apply list_elem_of_In|]).
  - destruct (SegmentID.enabled (EdgeBasedNodeSegment.reverse_segment_id segment));
      simpl in Hab; [|done].
    split; [done|]. destruct Hab as [[= <- <-]|[[= <- <-]|[]]]; auto.
  - destruct Hab as (-> & Hab). simpl in *.
    destruct Hab as [[-> ->]|[-> ->]]; [by left|right; by left].
Qed.

Lemma has_edge_scc_graph n input_edge_list input_node_segments a b :
  has_edge (scc_graph n input_edge_list input_node_segments) a b
  <-> (a, b) ∈ directed_edges input_edge_list \/ (a, b) ∈ mate_edges input_node_segments.
Proof.
  unfold has_edge, scc_graph. simpl.
  by rewrite elem_of_std_unique, elem_of_parallel_sort, elem_of_app.
Qed.

(** *** The loop over the node ids *)

Section FindComponentsFacts.
Context `{TarjanSCC}.
Variable small_component_size : N.

Lemma label_nodes_spec g count : forall node_id nodes nodes',
  label_nodes small_component_size g count node_id nodes = Ok nodes' ->
  (node_id + N.of_nat count < 2 ^ 32)%N ->
  (0 < count -> N.to_nat node_id + count <= length nodes) /\
  length nodes' = length nodes /\
  forall i node, nodes !! i = Some node ->
    nodes' !! i =
    Some (if decide (N.to_nat node_id <= i < N.to_nat node_id + count)
          then EdgeBasedNode.set_component_id
                 (component_label small_component_size g (N.of_nat i)) node
          else node).
Proof.
  induction count as [|count IH]; intros node_id nodes nodes' Hrun Hbound.
  - simpl in Hrun. injection Hrun as <-. split; [lia|]. split; [done|].
    intros i node Hi. case_decide; [lia|done].
  - simpl in Hrun.
    destruct (N.ltb_spec node_id (N.of_nat (length nodes))) as [Hlen|]; [|done].
    simpl in Hrun.
    assert (Hwrap : wrap32 (node_id + 1) = (node_id + 1)%N).
    { unfold wrap32. apply N.mod_small. lia. }
    rewrite Hwrap in Hrun.
    apply IH in Hrun as (Hroom & Hlen' & Hnodes); [|lia].
    rewrite length_alter in Hroom, Hlen'.
    split; [lia|]. split; [done|].
    intros i node Hi. destruct (decide (i = N.to_nat node_id)) as [->|Hne].
    + erewrite Hnodes by (rewrite list_lookup_alter_eq, Hi; reflexivity).
      rewrite N2Nat.id. repeat case_decide; try lia. reflexivity.
    + rewrite (Hnodes i node) by (by rewrite list_lookup_alter_ne).
      repeat case_decide; try lia; reflexivity.
Qed.
End FindComponentsFacts.

(** *** What FindComponents stores *)

Lemma NoDup_graph_nodes g : NoDup (graph_nodes g).
Proof.
  unfold graph_nodes. apply NoDup_fmap_2; [|apply NoDup_seq].
  intros x y Hxy. lia.
Qed.

Lemma is_component_of_length g a members1 members2 :
  is_component_of g a members1 -> is_component_of g a members2 ->
  length members1 = length members2.
Proof.
  intros [Hnd1 Hin1] [Hnd2 Hin2]. apply Permutation_length.
  apply NoDup_Permutation; [done..|]. intros b. by rewrite Hin1, Hin2.
Qed.

Section FindComponentsTheorems.
Context `{TarjanSCC}.
Variable small_component_size : N.

(** The nodes that carry the component index of [a] are its component. *)
Lemma same_index_is_component g a :
  graph_wf g -> (a < number_of_nodes g)%N ->
  is_component_of g a
    (List.filter (fun b => (GetComponentID g b =? GetComponentID g a)%N) (graph_nodes g)).
Proof.
  intros Hwf Ha. split.
  - apply NoDup_ListNoDup, List.NoDup_filter, NoDup_ListNoDup, NoDup_graph_nodes.
  - intros b. rewrite list_elem_of_In, filter_In, <- list_elem_of_In.
    rewrite elem_of_graph_nodes, N.eqb_eq. split.
    + intros [Hb Heq]. split; [done|]. by apply GetComponentID_spec.
    + intros [Hb Hsc]. split; [done|]. symmetry. by apply GetComponentID_spec.
Qed.

(** A run of [FindComponents] that passes its assertions: all ids are in
    range, the graph is the one of section 4.I, and every node below
    [number_of_edge_based_nodes] gets the label of its component. *)
Lemma FindComponents_Ok n input_edge_list input_node_segments nodes_container result :
  FindComponents small_component_size n input_edge_list input_node_segments
    nodes_container = Ok result ->
  (n < 2 ^ 32)%N ->
  let g := scc_graph n input_edge_list input_node_segments in
  Forall (fun edge => (EdgeBasedEdge.source edge < n)%N
                      /\ (EdgeBasedEdge.target edge < n)%N) input_edge_list /\
  Forall (fun segment =>
            SegmentID.enabled (EdgeBasedNodeSegment.reverse_segment_id segment) = true ->
            (SegmentID.id (EdgeBasedNodeSegment.forward_segment_id segment) < n)%N
            /\ (SegmentID.id (EdgeBasedNodeSegment.reverse_segment_id segment) < n)%N)
         input_node_segments /\
  graph_wf g /\
  N.to_nat n <= length (nodes nodes_container) /\
  forall i node, nodes nodes_container !! i = Some node ->
    nodes result !! i =
    Some (if decide (i < N.to_nat n)
          then EdgeBasedNode.set_component_id
                 (component_label small_component_size g (N.of_nat i)) node
          else node).
Proof.
  intros Hrun Hn g. unfold FindComponents in Hrun.
  destruct (add_edge_based_edges n input_edge_list []) as [edges0| | |] eqn:Hedges;
    simpl in Hrun; [|done..].
  destruct (add_segment_edges n input_node_segments edges0) as [edges1| | |] eqn:Hsegments;
    simpl in Hrun; [|done..].
  destruct (label_nodes small_component_size (component_graph n edges1) (N.to_nat n) 0
              (nodes nodes_container)) as [nodes'| | |] eqn:Hlabel;
    simpl in Hrun; [|done..].
  injection Hrun as <-. simpl.
  apply add_edge_based_edges_Ok in Hedges as [Hedges ->].
  apply add_segment_edges_Ok in Hsegments as [Hsegments ->].
  change (component_graph n ([] ++ directed_edges input_edge_list
                             ++ mate_edges input_node_segments)) with g in Hlabel.
  apply label_nodes_spec in Hlabel as (Hroom & _ & Hnodes); [|lia].
  split; [done|]. split; [done|]. split; [|split].
  - intros a b [Hab|Hab]%has_edge_scc_graph.
    + apply elem_of_directed_edges in Hab as (edge & Hin & Hab).
      rewrite Forall_forall in Hedges. destruct (Hedges edge Hin) as [Hs Ht].
      destruct Hab as [(_ & -> & ->)|(_ & -> & ->)]; done.
    + apply elem_of_mate_edges in Hab as (segment & Hin & Henabled & Hab).
      rewrite Forall_forall in Hsegments.
      destruct (Hsegments segment Hin Henabled) as [Hf Hr].
      destruct Hab as [[-> ->]|[-> ->]]; done.
  - destruct (N.to_nat n) eqn:Hcount; [lia|]. simpl in Hroom. lia.
  - intros i node Hi. rewrite (Hnodes i node Hi). simpl.
    repeat case_decide; try lia; reflexivity.
Qed.

(** C4.  After [FindComponents], every node id below
    [number_of_edge_based_nodes] carries one more than the index of its
    component, and its tiny flag is set exactly when its component - the
    nodes strongly connected with it in the graph of the edge-based edges and
    the mate edges - has fewer than [small_component_size] members. *)
Theorem FindComponents_labels n input_edge_list input_node_segments nodes_container
    result node_id :
  FindComponents small_component_size n input_edge_list input_node_segments
    nodes_container = Ok result ->
  (n < 2 ^ 32)%N ->
  (node_id < n)%N ->
  let g := scc_graph n input_edge_list input_node_segments in
  exists node,
    nodes result !! N.to_nat node_id = Some node /\
    ComponentID.id (EdgeBasedNode.component_id node) = (1 + GetComponentID g node_id)%N /\
    forall members, is_component_of g node_id members ->
      (ComponentID.is_tiny (EdgeBasedNode.component_id node) = true
       <-> (N.of_nat (length members) < small_component_size)%N).
Proof.
  intros Hrun Hn Hid g.
  destruct (FindComponents_Ok _ _ _ _ _ Hrun Hn) as (_ & _ & Hwf & Hroom & Hnodes).
  fold g in Hwf, Hnodes.
  destruct (lookup_lt_is_Some_2 (nodes nodes_container) (N.to_nat node_id)) as [node Hnode];
    [lia|].
  eexists. split; [by apply Hnodes|]. rewrite N2Nat.id.
  case_decide; [|lia]. simpl. split.
  - unfold wrap32. apply N.mod_small.
    pose proof (GetComponentID_bound g node_id Hwf Hid) as Hbound. simpl in Hbound. lia.
  - intros members Hmembers.
    rewrite (GetComponentSize_spec g node_id Hwf Hid).
    rewrite (is_component_of_length g node_id _ members
               (same_index_is_component g node_id Hwf Hid) Hmembers).
    apply N.ltb_lt.
Qed.

(** C3.  After [FindComponents], for every segment whose reverse id is
    enabled, the component recorded for the forward id is the component
    recorded for the reverse id. *)
Theorem FindComponents_mates n input_edge_list input_node_segments nodes_container
    result segment :
  FindComponents small_component_size n input_edge_list input_node_segments
    nodes_container = Ok result ->
  (n < 2 ^ 32)%N ->
  segment ∈ input_node_segments ->
  SegmentID.enabled (EdgeBasedNodeSegment.reverse_segment_id segment) = true ->
  exists forward_node reverse_node,
    nodes result
      !! N.to_nat (SegmentID.id (EdgeBasedNodeSegment.forward_segment_id segment))
    = Some forward_node /\
    nodes result
      !! N.to_nat (SegmentID.id (EdgeBasedNodeSegment.reverse_segment_id segment))
    = Some reverse_node /\
    EdgeBasedNode.component_id forward_node = EdgeBasedNode.component_id reverse_node.
Proof.
  intros Hrun Hn Hin Henabled.
  destruct (FindComponents_Ok _ _ _ _ _ Hrun Hn) as (_ & Hsegments & Hwf & Hroom & Hnodes).
  set (g := scc_graph n input_edge_list input_node_segments) in *.
  rewrite Forall_forall in Hsegments. destruct (Hsegments segment Hin Henabled) as [Hf Hr].
  set (fwd := SegmentID.id (EdgeBasedNodeSegment.forward_segment_id segment)) in *.
  set (rev := SegmentID.id (EdgeBasedNodeSegment.reverse_segment_id segment)) in *.
  destruct (lookup_lt_is_Some_2 (nodes nodes_container) (N.to_nat fwd)) as [nf Hnf]; [lia|].
  destruct (lookup_lt_is_Some_2 (nodes nodes_container) (N.to_nat rev)) as [nr Hnr]; [lia|].
  eexists _, _. split; [by apply Hnodes|]. split; [by apply Hnodes|].
  rewrite !N2Nat.id. repeat (case_decide; [|lia]). simpl.
  assert (Hsame : GetComponentID g fwd = GetComponentID g rev).
  { apply GetComponentID_spec; [done..|]. split; apply rtc_once.
    - apply has_edge_scc_graph. right. apply elem_of_mate_edges.
      exists segment. split; [done|]. split; [done|]. left. done.
    - apply has_edge_scc_graph. right. apply elem_of_mate_edges.
      exists segment. split; [done|]. split; [done|]. right. done. }
  unfold component_label. by rewrite Hsame.
Qed.
End FindComponentsTheorems.

(** *** A run of FindComponents on four nodes *)

Example FindComponents_example :
  FindComponents (H := naive_TarjanSCC) 3 4 example_edge_list example_node_segments
    example_nodes_container = Ok example_labelled_container
  /\ FindComponents (H := naive_TarjanSCC) 2 4 example_edge_list example_node_segments
       example_nodes_container
     = Ok {| nodes := [example_node 0 1 false; example_node 1 1 false;
                       example_node 2 2 false; example_node 3 2 false] |}
  /\ FindComponents (H := naive_TarjanSCC) 3 4 [example_turn 0 4 5 true false]
       example_node_segments example_nodes_container = AssertionFailed.
Proof. vm_compute. repeat split. Qed.

Lemma FindComponents_labels_witness :
  let g := scc_graph 4 example_edge_list example_node_segments in
  exists node,
    nodes example_labelled_container !! N.to_nat 2 = Some node /\
    ComponentID.id (EdgeBasedNode.component_id node)
    = (1 + GetComponentID (TarjanSCC := naive_TarjanSCC) g 2)%N /\
    forall members, is_component_of g 2%N members ->
      (ComponentID.is_tiny (EdgeBasedNode.component_id node) = true
       <-> (N.of_nat (length members) < 3)%N).
Proof.
  apply (@FindComponents_labels naive_TarjanSCC 3 4 example_edge_list
           example_node_segments example_nodes_container example_labelled_container 2).
  - vm_compute. reflexivity.
  - lia.
  - lia.
Defined.

Lemma FindComponents_mates_witness :
  exists forward_node reverse_node,
    nodes example_labelled_container
      !! N.to_nat (SegmentID.id (EdgeBasedNodeSegment.forward_segment_id
                                   (example_segment 2 3 true)))
    = Some forward_node /\
    nodes example_labelled_container
      !! N.to_nat (SegmentID.id (EdgeBasedNodeSegment.reverse_segment_id
                                   (example_segment 2 3 true)))
    = Some reverse_node /\
    EdgeBasedNode.component_id forward_node = EdgeBasedNode.component_id reverse_node.
Proof.
  apply (@FindComponents_mates naive_TarjanSCC 3 4 example_edge_list
           example_node_segments example_nodes_container example_labelled_container
           (example_segment 2 3 true)).
  - vm_compute. reflexivity.
  - lia.
  - unfold example_node_segments. right. left.
  - reflexivity.
Defined.

(** *** The assertions on the edge-based edges *)

(** X1.  The endpoints of every edge-based edge of a run that passes its
    assertions are below [number_of_edge_based_nodes]. *)
Lemma FindComponents_edge_ids_in_range `{TarjanSCC} small_component_size n
    input_edge_list input_node_segments nodes_container result :
  FindComponents small_component_size n input_edge_list input_node_segments
    nodes_container = Ok result ->
  forall edge, edge ∈ input_edge_list ->
    (0 <= EdgeBasedEdge.source edge < n)%N /\ (0 <= EdgeBasedEdge.target edge < n)%N.
Proof.
  intros Hrun edge Hin. unfold FindComponents in Hrun.
  destruct (add_edge_based_edges n input_edge_list []) as [edges0| | |] eqn:Hedges;
    simpl in Hrun; [|done..].
  apply add_edge_based_edges_Ok in Hedges as [Hedges _].
  rewrite Forall_forall in Hedges. destruct (Hedges edge Hin). lia.
Qed.

Lemma FindComponents_edge_ids_in_range_witness :
  (0 <= EdgeBasedEdge.source (example_turn 0 2 5 true false) < 4)%N
  /\ (0 <= EdgeBasedEdge.target (example_turn 0 2 5 true false) < 4)%N.
Proof.
  apply (@FindComponents_edge_ids_in_range naive_TarjanSCC 3 4 example_edge_list
           example_node_segments example_nodes_container example_labelled_container).
  - vm_compute. reflexivity.
  - unfold example_edge_list. left.
Defined.

(** The assertion on the weight, [static_cast<unsigned int>(std::max(weight, 1)) > 0],
    holds for every 32-bit weight: the weight is raised to 1 before it is
    compared, so a run that passes it says nothing about the weight itself. *)
Lemma weight_assertion_always_holds (w : Z) :
  is_int32 w -> (0 <? to_unsigned (Z.max w 1))%Z = true.
Proof.
  unfold is_int32. intros Hw. apply Z.ltb_lt. unfold to_unsigned.
  rewrite Z.mod_small by lia. lia.
Qed.

(** * Further properties *)

(** ** FindComponents: when it returns and what it leaves alone *)

Section FindComponentsRuns.
Context `{TarjanSCC}.
Variable small_component_size : N.

Lemma add_edge_based_edges_runs n input_edge_list edges :
  add_edge_based_edges n input_edge_list edges =
  if forallb (edge_assertions n) input_edge_list
  then Ok (edges ++ directed_edges input_edge_list)
  else AssertionFailed.
Proof.
  revert edges. induction input_edge_list as [|edge rest IH]; intros edges.
  - simpl. by rewrite app_nil_r.
  - simpl. unfold edge_assertions at 1.
    destruct (0 <? to_unsigned (Z.max (EdgeBasedEdge.weight (EdgeBasedEdge.data edge)) 1))%Z;
      simpl; [|done].
    destruct (EdgeBasedEdge.source edge <? n)%N; simpl; [|done].
    destruct (EdgeBasedEdge.target edge <? n)%N; simpl; [|done].
    rewrite IH. destruct (forallb (edge_assertions n) rest); [|done].
    destruct (EdgeBasedEdge.forward (EdgeBasedEdge.data edge)),
             (EdgeBasedEdge.backward (EdgeBasedEdge.data edge));
      simpl; by rewrite <- ?app_assoc.
Qed.

Lemma add_segment_edges_runs n input_node_segments edges :
  add_segment_edges n input_node_segments edges =
  if forallb (segment_assertions n) input_node_segments
  then Ok (edges ++ mate_edges input_node_segments)
  else AssertionFailed.
Proof.
  revert edges. induction input_node_segments as [|segment rest IH]; intros edges.
  - simpl. by rewrite app_nil_r.
  - simpl. unfold segment_assertions at 1.
    destruct (SegmentID.enabled (EdgeBasedNodeSegment.reverse_segment_id segment)).
    + destruct (SegmentID.id (EdgeBasedNodeSegment.forward_segment_id segment) <? n)%N;
        simpl; [|done].
      destruct (SegmentID.id (EdgeBasedNodeSegment.reverse_segment_id segment) <? n)%N;
        simpl; [|done].
      rewrite IH. destruct (forallb (segment_assertions n) rest); [|done].
      by rewrite <- app_assoc.
    + simpl. apply IH.
Qed.


Lemma label_nodes_fails g count : forall node_id nodes,
  0 < count ->
  length nodes < N.to_nat node_id + count ->
  (node_id + N.of_nat count < 2 ^ 32)%N ->
  label_nodes small_component_size g count node_id nodes = AssertionFailed.
Proof.
  induction count as [|count IH]; intros node_id nodes Hpos Hroom Hbound; [lia|].
  simpl. destruct (N.ltb_spec node_id (N.of_nat (length nodes))) as [Hlen|Hlen]; [|done].
  simpl. apply IH.
  - lia.
  - rewrite length_alter. unfold wrap32. rewrite N.mod_small by lia. lia.
  - unfold wrap32. rewrite N.mod_small by lia. lia.
Qed.

(** [FindComponents], by its assertions. *)
Lemma FindComponents_runs n input_edge_list input_node_segments nodes_container :
  FindComponents small_component_size n input_edge_list input_node_segments nodes_container
  = if forallb (edge_assertions n) input_edge_list
       && forallb (segment_assertions n) input_node_segments
    then
      nodes' ← label_nodes small_component_size
                 (scc_graph n input_edge_list input_node_segments)
                 (N.to_nat n) 0%N (nodes nodes_container);
      Ok {| nodes := nodes' |}
    else AssertionFailed.
Proof.
  unfold FindComponents. rewrite add_edge_based_edges_runs.
  destruct (forallb (edge_assertions n) input_edge_list); simpl; [|done].
  rewrite add_segment_edges_runs.
  destruct (forallb (segment_assertions n) input_node_segments); simpl; done.
Qed.

Lemma edge_assertions_in_range n edge :
  edge_assertions n edge = true -> edge_in_range n edge.
Proof.
  unfold edge_assertions, edge_in_range.
  intros [[_ Hs%N.ltb_lt]%andb_true_iff Ht%N.ltb_lt]%andb_true_iff. done.
Qed.

Lemma segment_assertions_in_range n segment :
  segment_assertions n segment = true <-> segment_in_range n segment.
Proof.
  unfold segment_assertions, segment_in_range.
  destruct (SegmentID.enabled (EdgeBasedNodeSegment.reverse_segment_id segment)).
  - rewrite andb_true_iff, !N.ltb_lt. split; [by intros ? _|]. intros Hin. by apply Hin.
  - split; done.
Qed.

(** X2.  A run of [FindComponents] that returns normally has passed every
    assertion: both endpoints of every edge-based edge and both ids of every
    segment with an enabled reverse are below [number_of_edge_based_nodes],
    and the node container has at least [number_of_edge_based_nodes] nodes.
    When an endpoint or such an id is not below
    [number_of_edge_based_nodes], the run ends in a failed assertion of the
    first two loops, before the graph is built. *)
Theorem FindComponents_returns_only_if n input_edge_list input_node_segments
    nodes_container :
  (n < 2 ^ 32)%N ->
  (forall result,
     FindComponents small_component_size n input_edge_list input_node_segments
       nodes_container = Ok result ->
     Forall (edge_in_range n) input_edge_list
     /\ Forall (segment_in_range n) input_node_segments
     /\ N.to_nat n <= length (nodes nodes_container)) /\
  (~ (Forall (edge_in_range n) input_edge_list
      /\ Forall (segment_in_range n) input_node_segments) ->
   FindComponents small_component_size n input_edge_list input_node_segments
     nodes_container = AssertionFailed).
Proof.
  intros Hn. rewrite FindComponents_runs.
  assert (Hedges : forallb (edge_assertions n) input_edge_list = true
                   -> Forall (edge_in_range n) input_edge_list).
  { rewrite forallb_forall, Forall_forall.
    intros Hall edge Hin. apply edge_assertions_in_range, Hall. by apply list_elem_of_In. }
  assert (Hsegments : forallb (segment_assertions n) input_node_segments = true
                      -> Forall (segment_in_range n) input_node_segments).
  { rewrite forallb_forall, Forall_forall.
    intros Hall s Hin. apply segment_assertions_in_range, Hall. by apply list_elem_of_In. }
  destruct (forallb (edge_assertions n) input_edge_list); [|by split].
  destruct (forallb (segment_assertions n) input_node_segments); [|by split].
  simpl. split.
  - intros result Hrun. split; [by apply Hedges|]. split; [by apply Hsegments|].
    destruct (decide (N.to_nat n <= length (nodes nodes_container))) as [|Hshort]; [done|].
    rewrite label_nodes_fails in Hrun by lia. done.
  - intros Hnot. exfalso. apply Hnot. split; [by apply Hedges|by apply Hsegments].
Qed.
End FindComponentsRuns.

Section FindComponentsStores.
Context `{TarjanSCC}.
Variable small_component_size : N.

Lemma FindComponents_length n input_edge_list input_node_segments nodes_container result :
  FindComponents small_component_size n input_edge_list input_node_segments
    nodes_container = Ok result ->
  (n < 2 ^ 32)%N ->
  length (nodes result) = length (nodes nodes_container).
Proof.
  intros Hrun Hn. rewrite FindComponents_runs in Hrun.
  destruct (forallb (edge_assertions n) input_edge_list
            && forallb (segment_assertions n) input_node_segments); [|done].
  destruct (label_nodes small_component_size
              (scc_graph n input_edge_list input_node_segments) (N.to_nat n) 0
              (nodes nodes_container)) as [nodes'| | |] eqn:Hlabel; simpl in Hrun; [|done..].
  injection Hrun as <-. simpl.
  apply label_nodes_spec in Hlabel as (_ & Hlen & _); [done|lia].
Qed.

(** X3.  [FindComponents] writes nothing but the component ids of the nodes
    below [number_of_edge_based_nodes]: the container keeps its length, every
    node keeps its geometry and annotation ids, and the nodes from
    [number_of_edge_based_nodes] on are left as they were. *)
Theorem FindComponents_frame n input_edge_list input_node_segments nodes_container result :
  FindComponents small_component_size n input_edge_list input_node_segments
    nodes_container = Ok result ->
  (n < 2 ^ 32)%N ->
  length (nodes result) = length (nodes nodes_container) /\
  forall i node, nodes nodes_container !! i = Some node ->
    exists node',
      nodes result !! i = Some node' /\
      EdgeBasedNode.geometry_id node' = EdgeBasedNode.geometry_id node /\
      EdgeBasedNode.annotation_id node' = EdgeBasedNode.annotation_id node /\
      (N.to_nat n <= i -> node' = node).
Proof.
  intros Hrun Hn. split; [by eapply FindComponents_length|].
  destruct (FindComponents_Ok _ _ _ _ _ _ Hrun Hn) as (_ & _ & _ & _ & Hnodes).
  intros i node Hi. eexists. split; [by apply Hnodes|].
  case_decide; simpl; [|done]. repeat split; try done. lia.
Qed.

(** X4.  After [FindComponents], two nodes below [number_of_edge_based_nodes]
    carry the same component id exactly when they are strongly connected in
    the graph of the edge-based edges and the mate edges; nodes of one
    component also agree on the tiny flag. *)
Theorem FindComponents_same_component n input_edge_list input_node_segments
    nodes_container result a b :
  FindComponents small_component_size n input_edge_list input_node_segments
    nodes_container = Ok result ->
  (n < 2 ^ 32)%N ->
  (a < n)%N -> (b < n)%N ->
  let g := scc_graph n input_edge_list input_node_segments in
  exists node_a node_b,
    nodes result !! N.to_nat a = Some node_a /\
    nodes result !! N.to_nat b = Some node_b /\
    (ComponentID.id (EdgeBasedNode.component_id node_a)
     = ComponentID.id (EdgeBasedNode.component_id node_b)
     <-> strongly_connected g a b) /\
    (strongly_connected g a b ->
     EdgeBasedNode.component_id node_a = EdgeBasedNode.component_id node_b).
Proof.
  intros Hrun Hn Ha Hb g.
  destruct (FindComponents_Ok _ _ _ _ _ _ Hrun Hn) as (_ & _ & Hwf & Hroom & Hnodes).
  fold g in Hwf, Hnodes.
  destruct (lookup_lt_is_Some_2 (nodes nodes_container) (N.to_nat a)) as [na Hna]; [lia|].
  destruct (lookup_lt_is_Some_2 (nodes nodes_container) (N.to_nat b)) as [nb Hnb]; [lia|].
  eexists _, _. split; [by apply Hnodes|]. split; [by apply Hnodes|].
  rewrite !N2Nat.id. repeat (case_decide; [|lia]). simpl.
  pose proof (GetComponentID_bound g a Hwf Ha) as Hida.
  pose proof (GetComponentID_bound g b Hwf Hb) as Hidb.
  simpl in Hida, Hidb.
  rewrite <- (GetComponentID_spec g a b Hwf Ha Hb). split.
  - unfold wrap32. rewrite !N.mod_small by lia. split; [lia|]. by intros ->.
  - intros Hsame. unfold component_label. by rewrite Hsame.
Qed.

(** X5.  The component id stored for a node below
    [number_of_edge_based_nodes] lies between 1 and
    [number_of_edge_based_nodes]: it is never 0, the value of a node without a
    label, and adding one to the index of the component does not wrap
    around. *)
Theorem FindComponents_ids_positive n input_edge_list input_node_segments
    nodes_container result node_id :
  FindComponents small_component_size n input_edge_list input_node_segments
    nodes_container = Ok result ->
  (n < 2 ^ 32)%N ->
  (node_id < n)%N ->
  exists node,
    nodes result !! N.to_nat node_id = Some node /\
    (1 <= ComponentID.id (EdgeBasedNode.component_id node) <= n)%N.
Proof.
  intros Hrun Hn Hid.
  destruct (FindComponents_Ok _ _ _ _ _ _ Hrun Hn) as (_ & _ & Hwf & Hroom & Hnodes).
  destruct (lookup_lt_is_Some_2 (nodes nodes_container) (N.to_nat node_id)) as [node Hnode];
    [lia|].
  eexists. split; [by apply Hnodes|]. rewrite N2Nat.id. case_decide; [|lia]. simpl.
  pose proof (GetComponentID_bound _ node_id Hwf Hid) as Hbound. simpl in Hbound.
  unfold wrap32. rewrite N.mod_small by lia. lia.
Qed.

End FindComponentsStores.

(** ** FindComponents: the edge array of the graph *)

Lemma InputEdge_le_spec (a b : InputEdge) :
  InputEdge_le a b <-> (a.1 < b.1)%N \/ (a.1 = b.1 /\ (a.2 <= b.2)%N).
Proof.
  unfold InputEdge_le, InputEdge_leb.
  by rewrite orb_true_iff, andb_true_iff, N.ltb_lt, N.eqb_eq, N.leb_le.
Qed.

#[global] Instance InputEdge_le_trans : Transitive InputEdge_le.
Proof. intros a b c. rewrite !InputEdge_le_spec. lia. Qed.

#[global] Instance InputEdge_le_total : Total InputEdge_le.
Proof. intros a b. rewrite !InputEdge_le_spec. lia. Qed.

#[global] Instance InputEdge_le_antisym : AntiSymm (=) InputEdge_le.
Proof.
  intros [a1 a2] [b1 b2]. rewrite !InputEdge_le_spec. simpl. intros Hab Hba.
  f_equal; lia.
Qed.

Lemma parallel_sort_sorted edges : StronglySorted InputEdge_le (parallel_sort edges).
Proof. apply StronglySorted_merge_sort; apply _. Qed.

Lemma std_unique_cons_cons a b rest :
  std_unique (a :: b :: rest)
  = if bool_decide (a = b) then std_unique (b :: rest) else a :: std_unique (b :: rest).
Proof. reflexivity. Qed.

(** On a sorted vector [std::unique] leaves no two equal edges. *)
Lemma std_unique_sorted edges :
  StronglySorted InputEdge_le edges -> StronglySorted InputEdge_lt (std_unique edges).
Proof.
  induction 1 as [|a rest Hsorted IH Hall]; [constructor|].
  destruct rest as [|b rest]; [repeat constructor|].
  rewrite std_unique_cons_cons. case_bool_decide as Hab; [done|].
  constructor; [done|]. rewrite Forall_forall in Hall |- *.
  intros y Hy. rewrite elem_of_std_unique in Hy. split; [by apply Hall|].
  intros <-. apply Hab. apply (anti_symm InputEdge_le).
  - apply Hall. by left.
  - apply StronglySorted_inv in Hsorted as [_ Hb]. rewrite Forall_forall in Hb.
    apply elem_of_cons in Hy as [->|Hy]; [done|]. by apply Hb.
Qed.

Lemma InputEdge_lt_NoDup edges : StronglySorted InputEdge_lt edges -> NoDup edges.
Proof.
  induction 1 as [|a rest Hsorted IH Hall]; constructor; [|done].
  rewrite Forall_forall in Hall. intros Hin. by destruct (Hall a Hin).
Qed.

Lemma InputEdge_lt_le edges :
  StronglySorted InputEdge_lt edges -> StronglySorted InputEdge_le edges.
Proof.
  induction 1 as [|a rest Hsorted IH Hall]; constructor; [done|].
  eapply Forall_impl; [exact Hall|]. by intros y [? _].
Qed.

(** Lists with the same edges give the same edge array. *)
Lemma edge_array_same_edges (edges edges' : list InputEdge) :
  (forall x, x ∈ edges <-> x ∈ edges') ->
  std_unique (parallel_sort edges) = std_unique (parallel_sort edges').
Proof.
  intros Hsame.
  pose proof (std_unique_sorted _ (parallel_sort_sorted edges)) as Hs.
  pose proof (std_unique_sorted _ (parallel_sort_sorted edges')) as Hs'.
  apply (StronglySorted_unique InputEdge_le); [by apply InputEdge_lt_le..|].
  apply NoDup_Permutation; [by apply InputEdge_lt_NoDup..|].
  intros x. by rewrite !elem_of_std_unique, !elem_of_parallel_sort.
Qed.

(** X7.  The edge array handed to the component search is strictly ascending
    by source, then target - sorted and free of duplicates - and holds
    exactly the edges that the two loops collected. *)
Theorem component_graph_edge_array n (edges : list InputEdge) :
  StronglySorted InputEdge_lt (edge_array (component_graph n edges)) /\
  NoDup (edge_array (component_graph n edges)) /\
  forall a b, (a, b) ∈ edge_array (component_graph n edges) <-> (a, b) ∈ edges.
Proof.
  simpl. pose proof (std_unique_sorted _ (parallel_sort_sorted edges)) as Hs.
  split; [done|]. split; [by apply InputEdge_lt_NoDup|].
  intros a b. by rewrite elem_of_std_unique, elem_of_parallel_sort.
Qed.

Lemma forallb_same_elements {A : Type} (f : A -> bool) (l l' : list A) :
  (forall x, x ∈ l <-> x ∈ l') -> forallb f l = forallb f l'.
Proof.
  intros Hsame. apply eq_true_iff_eq. rewrite !forallb_forall.
  split; intros Hall x Hin%list_elem_of_In; apply Hall, list_elem_of_In, Hsame, Hin.
Qed.

(** X8.  [FindComponents] depends on the edge-based edges and on the segments
    only as sets: listing them in another order, or more than once, changes
    neither the outcome nor the labels. *)
Theorem FindComponents_edge_set `{TarjanSCC} small_component_size n
    input_edge_list input_edge_list' input_node_segments input_node_segments'
    nodes_container :
  (forall edge, edge ∈ input_edge_list <-> edge ∈ input_edge_list') ->
  (forall segment, segment ∈ input_node_segments <-> segment ∈ input_node_segments') ->
  FindComponents small_component_size n input_edge_list input_node_segments
    nodes_container
  = FindComponents small_component_size n input_edge_list' input_node_segments'
      nodes_container.
Proof.
  intros Hedges Hsegments. rewrite !FindComponents_runs.
  rewrite (forallb_same_elements _ _ _ Hedges), (forallb_same_elements _ _ _ Hsegments).
  replace (scc_graph n input_edge_list input_node_segments)
    with (scc_graph n input_edge_list' input_node_segments'); [done|].
  unfold scc_graph. f_equal. apply edge_array_same_edges.
  intros [a b]. rewrite !elem_of_app, !elem_of_directed_edges, !elem_of_mate_edges.
  split; intros [(edge & Hin & Hab)|(segment & Hin & Hab)].
  - left. exists edge. split; [by apply Hedges|done].
  - right. exists segment. split; [by apply Hsegments|done].
  - left. exists edge. split; [by apply Hedges|done].
  - right. exists segment. split; [by apply Hsegments|done].
Qed.

(** *** The four nodes of the example again *)

Lemma FindComponents_returns_only_if_witness :
  (forall result,
     FindComponents (H := naive_TarjanSCC) 3 4 example_edge_list
       example_node_segments example_nodes_container = Ok result ->
     Forall (edge_in_range 4) example_edge_list
     /\ Forall (segment_in_range 4) example_node_segments
     /\ N.to_nat 4 <= length (nodes example_nodes_container)) /\
  (~ (Forall (edge_in_range 4) example_edge_list
      /\ Forall (segment_in_range 4) example_node_segments) ->
   FindComponents (H := naive_TarjanSCC) 3 4 example_edge_list
     example_node_segments example_nodes_container = AssertionFailed).
Proof.
  apply (@FindComponents_returns_only_if naive_TarjanSCC 3 4 example_edge_list
           example_node_segments example_nodes_container).
  lia.
Defined.

Lemma FindComponents_frame_witness :
  length (nodes example_labelled_container) = length (nodes example_nodes_container) /\
  forall i node, nodes example_nodes_container !! i = Some node ->
    exists node',
      nodes example_labelled_container !! i = Some node' /\
      EdgeBasedNode.geometry_id node' = EdgeBasedNode.geometry_id node /\
      EdgeBasedNode.annotation_id node' = EdgeBasedNode.annotation_id node /\
      (N.to_nat 4 <= i -> node' = node).
Proof.
  apply (@FindComponents_frame naive_TarjanSCC 3 4 example_edge_list
           example_node_segments example_nodes_container example_labelled_container).
  - vm_compute. reflexivity.
  - lia.
Defined.

Lemma FindComponents_same_component_witness :
  let g := scc_graph 4 example_edge_list example_node_segments in
  exists node_a node_b,
    nodes example_labelled_container !! N.to_nat 0 = Some node_a /\
    nodes example_labelled_container !! N.to_nat 2 = Some node_b /\
    (ComponentID.id (EdgeBasedNode.component_id node_a)
     = ComponentID.id (EdgeBasedNode.component_id node_b)
     <-> strongly_connected g 0%N 2%N) /\
    (strongly_connected g 0%N 2%N ->
     EdgeBasedNode.component_id node_a = EdgeBasedNode.component_id node_b).
Proof.
  apply (@FindComponents_same_component naive_TarjanSCC 3 4 example_edge_list
           example_node_segments example_nodes_container example_labelled_container 0 2).
  - vm_compute. reflexivity.
  - lia.
  - lia.
  - lia.
Defined.

Lemma FindComponents_ids_positive_witness :
  exists node,
    nodes example_labelled_container !! N.to_nat 3 = Some node /\
    (1 <= ComponentID.id (EdgeBasedNode.component_id node) <= 4)%N.
Proof.
  apply (@FindComponents_ids_positive naive_TarjanSCC 3 4 example_edge_list
           example_node_segments example_nodes_container example_labelled_container 3).
  - vm_compute. reflexivity.
  - lia.
  - lia.
Defined.


Lemma FindComponents_edge_set_witness :
  FindComponents (H := naive_TarjanSCC) 3 4
    [example_turn 0 2 5 true false; example_turn 2 1 7 true true]
    example_node_segments example_nodes_container
  = FindComponents (H := naive_TarjanSCC) 3 4
      [example_turn 2 1 7 true true; example_turn 0 2 5 true false;
       example_turn 2 1 7 true true]
      (example_node_segments ++ example_node_segments) example_nodes_container.
Proof.
  apply (@FindComponents_edge_set naive_TarjanSCC 3 4).
  - intros edge. rewrite !elem_of_cons. tauto.
  - intros segment. rewrite elem_of_app. tauto.
Defined.

(** ** IsSegregated: the two ends, the sort and the length *)

Lemma common_pairs_nil_r v : common_pairs v [] = [].
Proof. by destruct v. Qed.

Lemma common_pairs_cons_cons e1 r1 e2 r2 :
  common_pairs (e1 :: r1) (e2 :: r2)
  = if String.eqb (EdgeInfo.name e1) (EdgeInfo.name e2)
    then
      if String.eqb (EdgeInfo.name e1) EmptyString
      then common_pairs r1 r2
      else (e1, e2) :: common_pairs r1 r2
    else if String.ltb (EdgeInfo.name e1) (EdgeInfo.name e2)
    then common_pairs r1 (e2 :: r2)
    else common_pairs (e1 :: r1) r2.
Proof. reflexivity. Qed.

Lemma String_ltb_antisym (a b : string) :
  String.ltb a b = true -> String.ltb b a = false.
Proof.
  unfold String.ltb. rewrite (String.compare_antisym a b).
  by destruct (String.compare b a).
Qed.

Lemma String_ltb_total (a b : string) :
  String.eqb a b = false -> String.ltb a b = false -> String.ltb b a = true.
Proof.
  unfold String.ltb. rewrite (String.compare_antisym a b).
  destruct (String.compare b a) eqn:Hcmp; simpl; try done.
  apply String.compare_eq_iff in Hcmp as ->. by rewrite String.eqb_refl.
Qed.

(** The merge pairs the same elements whichever list comes first. *)
Lemma common_pairs_swap v1 v2 :
  common_pairs v2 v1 = (fun e => (e.2, e.1)) <$> common_pairs v1 v2.
Proof.
  revert v2. induction v1 as [|e1 r1 IH1]; intros v2.
  - by rewrite common_pairs_nil_r.
  - induction v2 as [|e2 r2 IH2]; [done|].
    rewrite !common_pairs_cons_cons.
    rewrite (String.eqb_sym (EdgeInfo.name e2) (EdgeInfo.name e1)).
    destruct (String.eqb_spec (EdgeInfo.name e1) (EdgeInfo.name e2)) as [Heq|Hne].
    + rewrite <- Heq.
      destruct (String.eqb (EdgeInfo.name e1) EmptyString); simpl; by rewrite IH1.
    + destruct (String.ltb (EdgeInfo.name e1) (EdgeInfo.name e2)) eqn:Hlt.
      * rewrite (String_ltb_antisym _ _ Hlt). apply IH1.
      * rewrite String_ltb_total; [exact IH2| |done].
        by apply String.eqb_neq.
Qed.

Lemma length_threshold_swap commons :
  length_threshold ((fun e => (e.2, e.1)) <$> commons) = length_threshold commons.
Proof.
  unfold length_threshold. generalize DBL_MAX.
  induction commons as [|e rest IH]; intros threshold; simpl; [done|].
  rewrite IH. f_equal. f_equal. unfold get_length_threshold.
  destruct (EdgeInfo.road_priority_class e.1), (EdgeInfo.road_priority_class e.2);
    reflexivity.
Qed.

Lemma equal_class_count_swap (commons : list (EdgeInfo.t * EdgeInfo.t)) :
  length (List.filter check_equal_class ((fun e => (e.2, e.1)) <$> commons))
  = length (List.filter check_equal_class commons).
Proof.
  induction commons as [|e rest IH]; [done|].
  rewrite fmap_cons. cbn [List.filter].
  replace (check_equal_class (e.2, e.1)) with (check_equal_class e)
    by (unfold check_equal_class; simpl; apply N.eqb_sym).
  destruct (check_equal_class e); cbn [length]; by rewrite IH.
Qed.

(** X9.  [IsSegregated] treats the two ends of the edge alike: exchanging the
    two lists of neighbours does not change the answer, whatever [std::sort]
    does with elements of equal name. *)
Theorem IsSegregated_symmetric (std_sort : list EdgeInfo.t -> list EdgeInfo.t)
    v1 v2 current edgeLength :
  IsSegregated std_sort v1 v2 current edgeLength
  = IsSegregated std_sort v2 v1 current edgeLength.
Proof.
  unfold IsSegregated.
  rewrite (orb_comm (length v2 <? 2)).
  destruct ((length v1 <? 2) || (length v2 <? 2)); [done|].
  rewrite (andb_comm (negb (binary_search (std_sort v2) current))).
  destruct (negb (String.eqb (EdgeInfo.name current) EmptyString)
            && (negb (binary_search (std_sort v1) current)
                && negb (binary_search (std_sort v2) current))); [done|].
  rewrite (common_pairs_swap (std_sort v1) (std_sort v2)).
  rewrite length_fmap, equal_class_count_swap, length_threshold_swap. done.
Qed.

Lemma NoDup_fmap_elem_eq {A B : Type} (f : A -> B) (l : list A) x y :
  NoDup (f <$> l) -> x ∈ l -> y ∈ l -> f x = f y -> x = y.
Proof.
  induction l as [|a l IH]; intros Hnd Hx Hy Hxy.
  - by apply elem_of_nil in Hx.
  - rewrite fmap_cons in Hnd. apply NoDup_cons in Hnd as [Ha Hnd].
    apply elem_of_cons in Hx as [->|Hx]; apply elem_of_cons in Hy as [->|Hy].
    + done.
    + exfalso. apply Ha. rewrite Hxy. by apply list_elem_of_fmap_2.
    + exfalso. apply Ha. rewrite <- Hxy. by apply list_elem_of_fmap_2.
    + by apply IH.
Qed.

(** A vector without two elements of one name has one sorted arrangement. *)
Lemma sorted_by_name_unique (v l1 l2 : list EdgeInfo.t) :
  NoDup (EdgeInfo.name <$> v) ->
  l1 ≡ₚ v -> l2 ≡ₚ v -> sorted_by_name l1 -> sorted_by_name l2 -> l1 = l2.
Proof.
  intros Hnd Hp1 Hp2 Hs1%sorted_by_name_le Hs2%sorted_by_name_le.
  apply (StronglySorted_unique_strong name_le); [|done..|by rewrite Hp1, Hp2].
  intros x1 x2 Hx1 Hx2 H12 H21.
  apply (NoDup_fmap_elem_eq EdgeInfo.name v); [done| | |by apply name_le_antisym].
  - by rewrite <- Hp1.
  - by rewrite <- Hp2.
Qed.

Section IsSegregatedSorts.
Variable std_sort std_sort' : list EdgeInfo.t -> list EdgeInfo.t.
Hypothesis std_sort_Permutation : forall v, std_sort v ≡ₚ v.
Hypothesis std_sort_sorted : forall v, sorted_by_name (std_sort v).
Hypothesis std_sort'_Permutation : forall v, std_sort' v ≡ₚ v.
Hypothesis std_sort'_sorted : forall v, sorted_by_name (std_sort' v).

(** X10.  When no two neighbours at one end have the same name, the answer of
    [IsSegregated] does not depend on the order in which [std::sort] leaves
    elements of equal name: any two sorts that return a sorted permutation
    give the same answer. *)
Theorem IsSegregated_sort_independent v1 v2 current edgeLength :
  NoDup (EdgeInfo.name <$> v1) ->
  NoDup (EdgeInfo.name <$> v2) ->
  IsSegregated std_sort v1 v2 current edgeLength
  = IsSegregated std_sort' v1 v2 current edgeLength.
Proof.
  intros Hv1 Hv2. unfold IsSegregated.
  by rewrite (sorted_by_name_unique v1 (std_sort v1) (std_sort' v1)),
             (sorted_by_name_unique v2 (std_sort v2) (std_sort' v2)).
Qed.
End IsSegregatedSorts.

(** *** Neighbours of equal name *)

#[global] Instance name_class_le_trans : Transitive name_class_le.
Proof.
  intros a b c [Hab Hab'] [Hbc Hbc']. split; [by etrans|].
  intros Hca.
  assert (name_le b a) by (by etrans).
  assert (name_le c b) by (by etrans).
  specialize (Hab' ltac:(done)). specialize (Hbc' ltac:(done)). lia.
Qed.

#[global] Instance name_class_le_total : Total name_class_le.
Proof.
  intros a b. unfold name_class_le.
  destruct (decide (name_le a b)) as [Hab|Hab]; destruct (decide (name_le b a)) as [Hba|Hba].
  - destruct (N.le_ge_cases (EdgeInfo.road_class a) (EdgeInfo.road_class b)); auto.
  - left. done.
  - right. done.
  - destruct (total name_le a b); done.
Qed.

Lemma merge_sort_by_name_and_class_Permutation v : merge_sort_by_name_and_class v ≡ₚ v.
Proof. apply merge_sort_Permutation. Qed.

Lemma merge_sort_by_name_and_class_sorted v :
  sorted_by_name (merge_sort_by_name_and_class v).
Proof.
  apply sorted_by_name_le.
  pose proof (StronglySorted_merge_sort name_class_le v) as Hs.
  fold (merge_sort_by_name_and_class v) in Hs.
  induction Hs as [|x l Hs IH Hall]; constructor; [done|].
  eapply Forall_impl; [exact Hall|]. by intros y [? _].
Qed.

(** X11.  With two neighbours of one name at an end the answer of
    [IsSegregated] is not determined by its arguments: two sorts that both
    return a sorted permutation, as [std::sort] has to, pair the neighbours
    differently, and the same edge is segregated with one and not with the
    other. *)
Theorem IsSegregated_depends_on_tie_order :
  (forall v, merge_sort_by_name v ≡ₚ v) /\
  (forall v, sorted_by_name (merge_sort_by_name v)) /\
  (forall v, merge_sort_by_name_and_class v ≡ₚ v) /\
  (forall v, sorted_by_name (merge_sort_by_name_and_class v)) /\
  IsSegregated merge_sort_by_name example_tied_v1 example_tied_v2
    (example_classed_edge 2%N "A" 1%N) 12%float = false /\
  IsSegregated merge_sort_by_name_and_class example_tied_v1 example_tied_v2
    (example_classed_edge 2%N "A" 1%N) 12%float = true.
Proof.
  split; [apply merge_sort_by_name_Permutation|].
  split; [apply merge_sort_by_name_sorted|].
  split; [apply merge_sort_by_name_and_class_Permutation|].
  split; [apply merge_sort_by_name_and_class_sorted|].
  split; vm_compute; reflexivity.
Qed.

Lemma IsSegregated_sort_independent_witness :
  IsSegregated merge_sort_by_name example_named_v1 example_named_v2
    example_current 12%float
  = IsSegregated merge_sort_by_name_and_class example_named_v1 example_named_v2
      example_current 12%float.
Proof.
  apply (IsSegregated_sort_independent merge_sort_by_name merge_sort_by_name_and_class
           merge_sort_by_name_Permutation merge_sort_by_name_sorted
           merge_sort_by_name_and_class_Permutation merge_sort_by_name_and_class_sorted
           example_named_v1 example_named_v2 example_current 12%float).
  - refine (bool_decide_unpack _ _). vm_compute. exact I.
  - refine (bool_decide_unpack _ _). vm_compute. exact I.
Defined.

(** *** The lengths that decide without a look at the classes *)

(** The order of [double]s, as IEEE 754 has it, is transitive. *)
Ltac compare_cases :=
  repeat match goal with
         | |- context [(?a ?= ?b)%Z] => destruct (Z.compare_spec a b)
         | |- context [PosDef.Pos.compare_cont Eq ?a ?b] =>
             change (PosDef.Pos.compare_cont Eq a b) with (Pos.compare a b);
             destruct (Pos.compare_spec a b)
         end; simpl; try discriminate; try reflexivity; try lia.

Lemma SFleb_SFltb_trans (x a b : spec_float) :
  SFleb x a = true -> SFleb a b = true -> SFltb b x = false.
Proof.
  unfold SFleb, SFltb.
  destruct x as [sx|sx| |sx mx ex], a as [sa|sa| |sa ma ea], b as [sb|sb| |sb mb eb];
    simpl; try discriminate; try reflexivity;
    repeat match goal with s : bool |- _ => destruct s end;
    simpl; try discriminate; try reflexivity.
  all: compare_cases.
Qed.

Lemma SFleb_trans (x a b : spec_float) :
  SFleb x a = true -> SFleb a b = true -> SFleb x b = true.
Proof.
  unfold SFleb.
  destruct x as [sx|sx| |sx mx ex], a as [sa|sa| |sa ma ea], b as [sb|sb| |sb mb eb];
    simpl; try discriminate; try reflexivity;
    repeat match goal with s : bool |- _ => destruct s end;
    simpl; try discriminate; try reflexivity.
  all: compare_cases.
Qed.

Lemma double_le_trans (x a b : float) :
  PrimFloat.leb x a = true -> PrimFloat.leb a b = true -> PrimFloat.leb x b = true.
Proof. rewrite !leb_spec. apply SFleb_trans. Qed.

Lemma double_le_lt_trans (x a b : float) :
  PrimFloat.leb x a = true -> PrimFloat.leb a b = true -> PrimFloat.ltb b x = false.
Proof. rewrite !leb_spec, ltb_spec. apply SFleb_SFltb_trans. Qed.

(** No length above 60 is at most a pair threshold. *)
Lemma pair_threshold_at_most_60 (edgeLength : float) (m : Z) :
  In m pair_thresholds ->
  PrimFloat.leb edgeLength (double_of_Z m) = true ->
  PrimFloat.ltb 60 edgeLength = false.
Proof.
  intros Hm Hle. apply (double_le_lt_trans _ _ _ Hle).
  each_threshold Hm; reflexivity.
Qed.

(** A length of at most 10 is at most every pair threshold. *)
Lemma pair_threshold_at_least_10 (edgeLength : float) (m : Z) :
  In m pair_thresholds ->
  PrimFloat.leb edgeLength 10 = true ->
  PrimFloat.leb edgeLength (double_of_Z m) = true.
Proof.
  intros Hm Hle. apply (double_le_trans _ _ _ Hle).
  each_threshold Hm; reflexivity.
Qed.

Lemma length_threshold_pair commons :
  commons <> [] ->
  exists m, In m pair_thresholds /\ length_threshold commons = double_of_Z m.
Proof.
  intros Hne. destruct commons as [|e rest]; [done|].
  pose proof (fold_left_min_is_minimum (pair_threshold <$> rest) (pair_threshold e)) as Hmin.
  exists (fold_left Z.min (pair_threshold <$> rest) (pair_threshold e)). split.
  - destruct Hmin as [Hin _]. change (pair_threshold e :: (pair_threshold <$> rest))
      with (pair_threshold <$> e :: rest) in Hin.
    apply list_elem_of_fmap in Hin as (x & -> & _). apply pair_threshold_In.
  - by apply length_threshold_minimum.
Qed.

Section IsSegregatedLengths.
Variable std_sort : list EdgeInfo.t -> list EdgeInfo.t.
Hypothesis std_sort_Permutation : forall v, std_sort v ≡ₚ v.
Hypothesis std_sort_sorted : forall v, sorted_by_name (std_sort v).

(** X12.  No edge longer than 60 is segregated, whatever its neighbours are;
    an edge of length at most 10 is segregated as soon as the gates on the
    names and the classes hold; and when an edge is segregated, so is every
    shorter edge with the same neighbours.  The lengths are compared as
    [double]s. *)
Theorem IsSegregated_length_bounds v1 v2 current edgeLength :
  (PrimFloat.ltb 60 edgeLength = true ->
   IsSegregated std_sort v1 v2 current edgeLength = false) /\
  (gates_hold std_sort v1 v2 current ->
   PrimFloat.leb edgeLength 10 = true ->
   IsSegregated std_sort v1 v2 current edgeLength = true) /\
  (forall shorter,
     PrimFloat.leb shorter edgeLength = true ->
     IsSegregated std_sort v1 v2 current edgeLength = true ->
     IsSegregated std_sort v1 v2 current shorter = true).
Proof.
  split; [|split].
  - intros Hlong.
    destruct (IsSegregated std_sort v1 v2 current edgeLength) eqn:Hrun; [|done].
    apply (IsSegregated_by_gates std_sort std_sort_Permutation std_sort_sorted)
      in Hrun as [(_ & Hcommons & _) Hle].
    destruct (length_threshold_pair (common_pairs (std_sort v1) (std_sort v2)))
      as (m & Hm & Hthreshold).
    { intros Hnil. rewrite Hnil in Hcommons. simpl in Hcommons. lia. }
    unfold double_le in Hle. rewrite Hthreshold in Hle.
    rewrite (pair_threshold_at_most_60 edgeLength m Hm Hle) in Hlong. done.
  - intros Hgates Hshort.
    apply (IsSegregated_by_gates std_sort std_sort_Permutation std_sort_sorted).
    split; [done|]. destruct Hgates as (_ & Hcommons & _).
    destruct (length_threshold_pair (common_pairs (std_sort v1) (std_sort v2)))
      as (m & Hm & Hthreshold).
    { intros Hnil. rewrite Hnil in Hcommons. simpl in Hcommons. lia. }
    unfold double_le. rewrite Hthreshold. by apply pair_threshold_at_least_10.
  - intros shorter Hshorter Hrun.
    apply (IsSegregated_by_gates std_sort std_sort_Permutation std_sort_sorted)
      in Hrun as [Hgates Hle].
    apply (IsSegregated_by_gates std_sort std_sort_Permutation std_sort_sorted).
    split; [done|]. unfold double_le in *. by eapply double_le_trans.
Qed.

(** X29.  Neighbours without a name never make an edge segregated: when every
    neighbour at one of the two ends has the empty name, [IsSegregated] is
    false, whatever the classes and the length are. *)
Theorem IsSegregated_unnamed v1 v2 current edgeLength :
  (forall e, e ∈ v1 -> EdgeInfo.name e = EmptyString)
  \/ (forall e, e ∈ v2 -> EdgeInfo.name e = EmptyString) ->
  IsSegregated std_sort v1 v2 current edgeLength = false.
Proof.
  intros Hunnamed.
  destruct (IsSegregated std_sort v1 v2 current edgeLength) eqn:Hrun; [|done].
  apply (IsSegregated_by_gates std_sort std_sort_Permutation std_sort_sorted)
    in Hrun as [(_ & Hcommons & _) _].
  destruct (common_pairs (std_sort v1) (std_sort v2)) as [|[a b] rest] eqn:Hpairs;
    [simpl in Hcommons; lia|].
  destruct (common_pairs_spec (std_sort v1) (std_sort v2) a b) as (Ha & Hb & Hsame & Hfull).
  { rewrite Hpairs. by left. }
  rewrite (std_sort_Permutation v1) in Ha. rewrite (std_sort_Permutation v2) in Hb.
  exfalso. destruct Hunnamed as [Hv1|Hv2].
  - by apply Hfull, Hv1.
  - apply Hfull. rewrite Hsame. by apply Hv2.
Qed.
End IsSegregatedLengths.

Lemma IsSegregated_unnamed_witness :
  IsSegregated merge_sort_by_name
    [example_edge 10%N EmptyString PRIMARY; example_edge 11%N EmptyString PRIMARY]
    example_v2 example_current 12%float = false.
Proof.
  apply (IsSegregated_unnamed merge_sort_by_name merge_sort_by_name_Permutation
           merge_sort_by_name_sorted).
  left. intros e He.
  repeat (apply elem_of_cons in He as [->|He]; [reflexivity|]).
  by apply elem_of_nil in He.
Defined.

Lemma IsSegregated_length_bounds_witness :
  IsSegregated merge_sort_by_name example_v1 example_v2 example_current 70%float = false /\
  IsSegregated merge_sort_by_name example_v1 example_v2 example_current 8%float = true.
Proof.
  split.
  - apply (proj1 (IsSegregated_length_bounds merge_sort_by_name
                    merge_sort_by_name_Permutation merge_sort_by_name_sorted
                    example_v1 example_v2 example_current 70%float)).
    reflexivity.
  - apply (proj1 (proj2 (IsSegregated_length_bounds merge_sort_by_name
                           merge_sort_by_name_Permutation merge_sort_by_name_sorted
                           example_v1 example_v2 example_current 8%float))).
    + exact example_gates_hold.
    + reflexivity.
Defined.

(** ** SetClassNames: what a normal return and what an exception mean *)

Section SetClassNamesFurther.
Variable MAX_CLASS_INDEX : nat.
Variable isValidClassName : string -> bool.

(** The first loop adds declared names only, each under the next free
    index. *)
Lemma add_declared_classes_new class_names classes_map m :
  add_declared_classes MAX_CLASS_INDEX isValidClassName class_names classes_map = Ok m ->
  forall name data, m !! name = Some data ->
    classes_map !! name = Some data \/
    (classes_map !! name = None /\ name ∈ class_names /\
     exists index, size classes_map <= index < size m /\
                   index <= MAX_CLASS_INDEX /\
                   data = getClassData MAX_CLASS_INDEX index).
Proof.
  revert classes_map. induction class_names as [|n rest IH]; intros classes_map; simpl.
  - intros [= <-] name data Hnd. by left.
  - destruct (isValidClassName n); simpl; [|done].
    destruct (classes_map !! n) as [d|] eqn:Hn.
    + intros Hrun name data Hnd.
      destruct (IH _ Hrun name data Hnd) as [Hold|(Hnone & Hin & Hindex)]; [by left|].
      right. split; [done|]. split; [by right|done].
    + destruct (Nat.ltb_spec MAX_CLASS_INDEX (size classes_map)) as [|Hfree]; [done|].
      intros Hrun name data Hnd.
      destruct (add_declared_classes_Ok _ _ _ _ _ Hrun) as (Hsub & _).
      apply map_subseteq_size in Hsub. rewrite map_size_insert_None in Hsub by done.
      destruct (IH _ Hrun name data Hnd) as [Hold|(Hnone & Hin & index & Hindex & Hmax & ->)].
      * apply lookup_insert_Some in Hold as [[<- <-]|[Hne Hold]]; [|by left].
        right. split; [done|]. split; [by left|].
        exists (size classes_map). split; [lia|]. split; [lia|done].
      * apply lookup_insert_None in Hnone as [Hnone Hne].
        right. split; [done|]. split; [by right|].
        rewrite map_size_insert_None in Hindex by done.
        exists index. split; [lia|]. done.
Qed.

(** X13.  With a non-empty list of declared names, a normal return of
    [SetClassNames] means: every declared name is legal; the class map holds
    exactly the declared names; the classes the ways used keep their masks;
    and each declared name no way used has the mask of a fresh index, at
    least the number of classes the ways used and at most
    [MAX_CLASS_INDEX]. *)
Theorem SetClassNames_declared class_names classes_map p m p' :
  class_names <> [] ->
  SetClassNames MAX_CLASS_INDEX isValidClassName class_names classes_map p = Ok (m, p') ->
  (forall name, name ∈ class_names -> isValidClassName name = true) /\
  (forall name, is_Some (m !! name) <-> name ∈ class_names) /\
  classes_map ⊆ m /\
  (forall name data, m !! name = Some data -> classes_map !! name = None ->
     exists index, size classes_map <= index < size m /\
                   index <= MAX_CLASS_INDEX /\
                   data = getClassData MAX_CLASS_INDEX index).
Proof.
  intros Hne Hrun.
  destruct (SetClassNames_Ok _ _ _ _ _ _ _ Hne Hrun) as (Hsub & Hall & Hknown & _).
  split; [intros name Hin; by apply Hall|].
  split; [intros name; split; [apply Hknown|intros Hin; by apply Hall]|].
  split; [done|].
  unfold SetClassNames in Hrun. rewrite bool_decide_eq_false_2 in Hrun by done.
  simpl in Hrun.
  destruct (add_declared_classes MAX_CLASS_INDEX isValidClassName class_names classes_map)
    as [m0| | |] eqn:Hadd; simpl in Hrun; [|done..].
  destruct (check_known_classes class_names (map_to_list m0)) as [[]| | |];
    simpl in Hrun; [|done..].
  destruct (store_class_names MAX_CLASS_INDEX (map_to_list m0) p);
    simpl in Hrun; [|done..].
  injection Hrun as <- <-.
  intros name data Hnd Hnone.
  destruct (add_declared_classes_new _ _ _ Hadd name data Hnd)
    as [Hold|(_ & _ & Hindex)]; [congruence|done].
Qed.

Lemma getClassData_inj index1 index2 :
  index1 <= MAX_CLASS_INDEX -> index2 <= MAX_CLASS_INDEX ->
  getClassData MAX_CLASS_INDEX index1 = getClassData MAX_CLASS_INDEX index2 ->
  index1 = index2.
Proof.
  intros H1 H2 Heq.
  pose proof (getClassIndexes_getClassData MAX_CLASS_INDEX index1 H1) as Hi1.
  rewrite Heq, getClassIndexes_getClassData in Hi1 by done. congruence.
Qed.

Lemma numbered_classes_single classes_map :
  numbered_classes MAX_CLASS_INDEX classes_map ->
  single_class_entries MAX_CLASS_INDEX classes_map.
Proof.
  intros (Hsize & Hnum & _) name data Hnd.
  destruct (Hnum name data Hnd) as (index & Hindex & ->).
  rewrite getClassIndexes_getClassData by lia. done.
Qed.

(** The first loop keeps the numbering. *)
Lemma add_declared_classes_numbered class_names classes_map m :
  add_declared_classes MAX_CLASS_INDEX isValidClassName class_names classes_map = Ok m ->
  numbered_classes MAX_CLASS_INDEX classes_map ->
  numbered_classes MAX_CLASS_INDEX m.
Proof.
  revert classes_map. induction class_names as [|n rest IH]; intros classes_map; simpl.
  - by intros [= <-].
  - destruct (isValidClassName n); simpl; [|done].
    destruct (classes_map !! n) as [d|] eqn:Hn; [apply IH|].
    destruct (Nat.ltb_spec MAX_CLASS_INDEX (size classes_map)) as [|Hfree]; [done|].
    intros Hrun (Hsize & Hnum & Hinj). apply (IH _ Hrun).
    unfold numbered_classes. rewrite map_size_insert_None by done.
    split; [lia|]. split.
    + intros name data [[<- <-]|[Hne Hnd]]%lookup_insert_Some.
      * exists (size classes_map). split; [lia|done].
      * destruct (Hnum name data Hnd) as (index & Hindex & ->).
        exists index. split; [lia|done].
    + intros n1 n2 data H1 H2.
      apply lookup_insert_Some in H1 as [[Hn1 Hd1]|[Hne1 H1]];
        apply lookup_insert_Some in H2 as [[Hn2 Hd2]|[Hne2 H2]].
      * congruence.
      * destruct (Hnum n2 _ H2) as (index & Hindex & Heq). rewrite <- Hd1 in Heq.
        apply getClassData_inj in Heq; lia.
      * destruct (Hnum n1 _ H1) as (index & Hindex & Heq). rewrite <- Hd2 in Heq.
        apply getClassData_inj in Heq; lia.
      * by apply (Hinj n1 n2 data).
Qed.

(** X14.  [SetClassNames] keeps the numbering of the classes and turns it
    around: when the class map it is given numbers its classes 0, 1, ...
    without gaps or repetitions, so does the class map it returns, and the
    profile properties then hold, under the index of each class, the name of
    that class; the indices from the number of classes on and the excludable
    masks are left as they were. *)
Theorem SetClassNames_numbered class_names classes_map p m p' :
  numbered_classes MAX_CLASS_INDEX classes_map ->
  SetClassNames MAX_CLASS_INDEX isValidClassName class_names classes_map p = Ok (m, p') ->
  numbered_classes MAX_CLASS_INDEX m /\
  (forall name index,
     m !! name = Some (getClassData MAX_CLASS_INDEX index) -> index < size m ->
     ProfileProperties.class_names p' !! index = Some name) /\
  (forall index, size m <= index ->
     ProfileProperties.class_names p' !! index
     = ProfileProperties.class_names p !! index) /\
  ProfileProperties.excludable_classes p' = ProfileProperties.excludable_classes p.
Proof.
  intros Hnumbered Hrun. unfold SetClassNames in Hrun.
  assert (Hm : exists m0,
             (if negb (bool_decide (class_names = []))
              then m1 ← add_declared_classes MAX_CLASS_INDEX isValidClassName
                          class_names classes_map;
                   _ ← check_known_classes class_names (map_to_list m1); Ok m1
              else Ok classes_map) = Ok m0 /\ numbered_classes MAX_CLASS_INDEX m0).
  { destruct (negb (bool_decide (class_names = []))); [|by eexists].
    destruct (add_declared_classes MAX_CLASS_INDEX isValidClassName class_names
                classes_map) as [m1| | |] eqn:Hadd; simpl in *; [|done..].
    destruct (check_known_classes class_names (map_to_list m1)) as [[]| | |];
      simpl in *; [|done..].
    exists m1. split; [done|]. by eapply add_declared_classes_numbered. }
  destruct Hm as (m0 & Hm0 & Hnum0). rewrite Hm0 in Hrun. simpl in Hrun.
  destruct (store_class_names_stores MAX_CLASS_INDEX (map_to_list m0) p)
    as (p0 & Hstore & Hin & Hout & Hexcl).
  { intros name data Hnd%elem_of_map_to_list.
    by apply (numbered_classes_single m0 Hnum0 name data). }
  rewrite Hstore in Hrun. simpl in Hrun. injection Hrun as <- <-.
  split; [done|]. destruct Hnum0 as (Hsize & Hnum & Hinj).
  assert (Hidx : forall index, index <= MAX_CLASS_INDEX ->
            class_index MAX_CLASS_INDEX (getClassData MAX_CLASS_INDEX index) = index).
  { intros index Hle. unfold class_index. by rewrite getClassIndexes_getClassData. }
  split; [|split; [|done]].
  - intros name index Hnd Hindex.
    destruct (Hin name _ (proj2 (elem_of_map_to_list _ _ _) Hnd))
      as (name' & data' & Hnd'%elem_of_map_to_list & Hsame & Hlook).
    rewrite Hidx in Hlook, Hsame by lia. rewrite Hlook. f_equal.
    destruct (Hnum name' data' Hnd') as (index' & Hindex' & ->).
    rewrite Hidx in Hsame by lia. subst index'. by apply (Hinj name' name _ Hnd' Hnd).
  - intros index Hindex. apply Hout.
    intros name data Hnd%elem_of_map_to_list.
    destruct (Hnum name data Hnd) as (index' & Hindex' & ->).
    rewrite Hidx by lia. lia.
Qed.
End SetClassNamesFurther.

Section SetClassNamesThrows.
Variable MAX_CLASS_INDEX : nat.
Variable isValidClassName : string -> bool.

Ltac names_included :=
  apply elem_of_subseteq; intros ?;
  rewrite ?elem_of_union, ?elem_of_singleton, ?elem_of_list_to_set, ?elem_of_cons; tauto.

Lemma add_declared_classes_Throw class_names classes_map e :
  add_declared_classes MAX_CLASS_INDEX isValidClassName class_names classes_map = Throw e ->
  (exists name, e = InvalidClassName name /\ name ∈ class_names
                /\ isValidClassName name = false) \/
  (e = MaximumNumberOfClasses /\
   MAX_CLASS_INDEX + 1 < size (dom classes_map ∪ list_to_set class_names : gset string)).
Proof.
  revert classes_map. induction class_names as [|n rest IH]; intros classes_map; simpl.
  - done.
  - destruct (isValidClassName n) eqn:Hvalid; simpl.
    2:{ intros [= <-]. left. exists n. split; [done|]. split; [by left|done]. }
    destruct (classes_map !! n) as [d|] eqn:Hn.
    + intros Hrun. destruct (IH _ Hrun) as [(name & -> & Hin & Hbad)|[-> Hmany]].
      * left. exists name. split; [done|]. split; [by right|done].
      * right. split; [done|]. eapply Nat.lt_le_trans; [exact Hmany|].
        apply subseteq_size. names_included.
    + destruct (Nat.ltb_spec MAX_CLASS_INDEX (size classes_map)) as [Hfull|Hfree].
      * intros [= <-]. right. split; [done|].
        assert (Hsize : size ({[n]} ∪ dom classes_map : gset string)
                        = S (size classes_map)).
        { rewrite size_union by (by apply disjoint_singleton_l, not_elem_of_dom).
          by rewrite size_singleton, size_dom. }
        eapply Nat.lt_le_trans; [|apply (subseteq_size ({[n]} ∪ dom classes_map))].
        -- lia.
        -- names_included.
      * intros Hrun. destruct (IH _ Hrun) as [(name & -> & Hin & Hbad)|[-> Hmany]].
        -- left. exists name. split; [done|]. split; [by right|done].
        -- right. split; [done|]. rewrite dom_insert_L in Hmany.
           eapply Nat.lt_le_trans; [exact Hmany|]. apply subseteq_size. names_included.
Qed.

Lemma check_known_classes_Throw class_names entries e :
  check_known_classes class_names entries = Throw e ->
  exists name data, e = UnknownClassName name /\ (name, data) ∈ entries
                    /\ name ∉ class_names.
Proof.
  induction entries as [|[n d] rest IH]; simpl; [done|].
  destruct (std_find class_names n) eqn:Hfind.
  - intros Hrun. destruct (IH Hrun) as (name & data & -> & Hin & Hnot).
    exists name, data. split; [done|]. split; [by right|done].
  - intros [= <-]. exists n, d. split; [done|]. split; [by left|].
    intros Hin%std_find_spec. congruence.
Qed.

(** What an exception of [SetClassNames] means. *)
Lemma SetClassNames_Throw class_names classes_map p e :
  SetClassNames MAX_CLASS_INDEX isValidClassName class_names classes_map p = Throw e ->
  class_names <> [] /\
  ((exists name, e = InvalidClassName name /\ name ∈ class_names
                 /\ isValidClassName name = false) \/
   (e = MaximumNumberOfClasses /\
    MAX_CLASS_INDEX + 1 < size (dom classes_map ∪ list_to_set class_names : gset string)) \/
   (exists name, e = UnknownClassName name /\ is_Some (classes_map !! name)
                 /\ name ∉ class_names)).
Proof.
  unfold SetClassNames. case_bool_decide as Hempty; simpl.
  { destruct (store_class_names MAX_CLASS_INDEX (map_to_list classes_map) p) eqn:Hstore;
      simpl; [done| |done..].
    by apply store_class_names_never_throws in Hstore. }
  intros Hrun. split; [done|].
  destruct (add_declared_classes MAX_CLASS_INDEX isValidClassName class_names classes_map)
    as [m0|e0| |] eqn:Hadd; simpl in Hrun.
  - destruct (check_known_classes class_names (map_to_list m0)) as [[]|e1| |] eqn:Hcheck;
      simpl in Hrun.
    + destruct (store_class_names MAX_CLASS_INDEX (map_to_list m0) p) eqn:Hstore;
        simpl in Hrun; [done| |done..].
      by apply store_class_names_never_throws in Hstore.
    + injection Hrun as <-.
      apply check_known_classes_Throw in Hcheck
        as (name & data & -> & Hin%elem_of_map_to_list & Hnot).
      right. right. exists name. split; [done|]. split; [|done].
      destruct (add_declared_classes_new _ _ _ _ _ Hadd name data Hin)
        as [Hold|(_ & Hdeclared & _)]; [by eexists|done].
    + done.
    + done.
  - injection Hrun as <-.
    apply add_declared_classes_Throw in Hadd as [Hinvalid|Hmany]; auto.
  - done.
  - done.
Qed.

(** X15.  Each exception of [SetClassNames] names a fault of the profile:
    "Invalid class name" carries a declared name that is not legal;
    "Maximum number of classes" means that the classes the ways used and the
    declared names are more than [MAX_CLASS_INDEX + 1] names; "Profile used
    unknown class name" carries a class that a way used and that the list
    does not declare.  In each case the list of declared names is not
    empty, and the declaration is not one that [SetClassNames] accepts. *)
Theorem SetClassNames_exception class_names classes_map p e :
  SetClassNames MAX_CLASS_INDEX isValidClassName class_names classes_map p = Throw e ->
  class_names <> [] /\
  ((exists name, e = InvalidClassName name /\ name ∈ class_names
                 /\ isValidClassName name = false) \/
   (e = MaximumNumberOfClasses /\
    MAX_CLASS_INDEX + 1 < size (dom classes_map ∪ list_to_set class_names : gset string)) \/
   (exists name, e = UnknownClassName name /\ is_Some (classes_map !! name)
                 /\ name ∉ class_names)) /\
  ~ valid_declaration MAX_CLASS_INDEX isValidClassName class_names classes_map.
Proof.
  intros Hrun. destruct (SetClassNames_Throw _ _ _ _ Hrun) as [Hne Hfault].
  split; [done|]. split; [done|].
  intros [Hempty|(Hvalid & Hsize & Hknown)]; [done|].
  destruct Hfault as [(name & _ & Hin & Hbad)|[[_ Hmany]|(name & _ & Hused & Hnot)]].
  - specialize (Hvalid name Hin). congruence.
  - lia.
  - by apply Hnot, Hknown.
Qed.

(** [SetClassNames] returns normally exactly for the declarations it accepts,
    when the class map has at most [MAX_CLASS_INDEX + 1] classes, each of
    one bit. *)
Lemma SetClassNames_returns class_names classes_map p :
  single_class_entries MAX_CLASS_INDEX classes_map ->
  size classes_map <= MAX_CLASS_INDEX + 1 ->
  ((exists r, SetClassNames MAX_CLASS_INDEX isValidClassName class_names classes_map p
              = Ok r)
   <-> valid_declaration MAX_CLASS_INDEX isValidClassName class_names classes_map).
Proof.
  intros Hsingle Hsize. split.
  - intros [[m p'] Hrun].
    destruct (decide (class_names = [])) as [Hempty|Hne]; [by left|]. right.
    destruct (SetClassNames_Ok _ _ _ _ _ _ _ Hne Hrun) as (Hsub & Hall & Hknown & Hbound).
    split; [intros name Hin; by apply Hall|]. split.
    + etrans; [|exact (Hbound Hsize)]. rewrite <- (size_dom (D := gset string) m).
      apply subseteq_size, elem_of_subseteq. intros name [Hd|Hl]%elem_of_union.
      * apply elem_of_dom. apply elem_of_dom in Hd as [d Hd].
        exists d. by eapply lookup_weaken.
      * apply elem_of_dom. apply elem_of_list_to_set in Hl. by apply Hall.
    + intros name [d Hd]. apply Hknown. exists d. by eapply lookup_weaken.
  - intros Hvalid.
    destruct (SetClassNames MAX_CLASS_INDEX isValidClassName class_names classes_map p)
      as [r|e| |] eqn:Hrun.
    + by exists r.
    + exfalso. destruct (SetClassNames_Throw _ _ _ _ Hrun) as [Hne Hfault].
      destruct Hvalid as [Hempty|(Hvalid & Hmax & Hknown)]; [done|].
      destruct Hfault as [(name & _ & Hin & Hbad)|[[_ Hmany]|(name & _ & Hused & Hnot)]].
      * specialize (Hvalid name Hin). congruence.
      * lia.
      * by apply Hnot, Hknown.
    + by apply SetClassNames_asserts_nothing in Hrun.
    + by apply SetClassNames_in_bounds in Hrun.
Qed.
End SetClassNamesThrows.

(** *** A declaration of three classes *)

Example SetClassNames_declared_example :
  SetClassNames example_MAX_CLASS_INDEX isValidClassName_spec
    ["toll"; "tunnel"; "ferry"]%string example_classes_map ProfileProperties.empty
  = Ok (example_declared_map, example_declared_properties).
Proof. vm_compute. reflexivity. Qed.

Lemma example_classes_map_numbered :
  numbered_classes example_MAX_CLASS_INDEX example_classes_map.
Proof.
  split; [vm_compute; lia|]. split.
  - intros name data Hnd. unfold example_classes_map in Hnd.
    apply lookup_insert_Some in Hnd as [[_ <-]|[_ Hnd]]; [exists 0; split; [vm_compute; lia|done]|].
    apply lookup_insert_Some in Hnd as [[_ <-]|[_ Hnd]]; [exists 1; split; [vm_compute; lia|done]|].
    by rewrite lookup_empty in Hnd.
  - intros name1 name2 data H1 H2. unfold example_classes_map in H1, H2.
    apply lookup_insert_Some in H1 as [[<- <-]|[Hne1 H1]];
      apply lookup_insert_Some in H2 as [[<- Hd2]|[Hne2 H2]]; try done.
    + apply lookup_insert_Some in H2 as [[<- Hd2]|[_ H2]]; [done|].
      by rewrite lookup_empty in H2.
    + apply lookup_insert_Some in H1 as [[<- <-]|[_ H1]]; [done|].
      by rewrite lookup_empty in H1.
    + apply lookup_insert_Some in H1 as [[<- <-]|[_ H1]];
        [|by rewrite lookup_empty in H1].
      apply lookup_insert_Some in H2 as [[<- _]|[_ H2]]; [done|].
      by rewrite lookup_empty in H2.
Defined.

Lemma SetClassNames_declared_witness :
  (forall name, name ∈ ["toll"; "tunnel"; "ferry"]%string ->
     isValidClassName_spec name = true) /\
  (forall name, is_Some (example_declared_map !! name)
                <-> name ∈ ["toll"; "tunnel"; "ferry"]%string) /\
  example_classes_map ⊆ example_declared_map /\
  (forall name data, example_declared_map !! name = Some data ->
     example_classes_map !! name = None ->
     exists index, size example_classes_map <= index < size example_declared_map /\
                   index <= example_MAX_CLASS_INDEX /\
                   data = getClassData example_MAX_CLASS_INDEX index).
Proof.
  apply (SetClassNames_declared example_MAX_CLASS_INDEX isValidClassName_spec
           ["toll"; "tunnel"; "ferry"]%string example_classes_map ProfileProperties.empty
           example_declared_map example_declared_properties).
  - done.
  - vm_compute. reflexivity.
Defined.

Lemma SetClassNames_numbered_witness :
  numbered_classes example_MAX_CLASS_INDEX example_declared_map /\
  (forall name index,
     example_declared_map !! name = Some (getClassData example_MAX_CLASS_INDEX index) ->
     index < size example_declared_map ->
     ProfileProperties.class_names example_declared_properties !! index = Some name) /\
  (forall index, size example_declared_map <= index ->
     ProfileProperties.class_names example_declared_properties !! index
     = ProfileProperties.class_names ProfileProperties.empty !! index) /\
  ProfileProperties.excludable_classes example_declared_properties
  = ProfileProperties.excludable_classes ProfileProperties.empty.
Proof.
  apply (SetClassNames_numbered example_MAX_CLASS_INDEX isValidClassName_spec
           ["toll"; "tunnel"; "ferry"]%string example_classes_map ProfileProperties.empty
           example_declared_map example_declared_properties).
  - exact example_classes_map_numbered.
  - vm_compute. reflexivity.
Defined.

Lemma SetClassNames_exception_witness :
  ["toll road"]%string <> [] /\
  ((exists name, InvalidClassName "toll road" = InvalidClassName name
                 /\ name ∈ ["toll road"]%string
                 /\ isValidClassName_spec name = false) \/
   (InvalidClassName "toll road" = MaximumNumberOfClasses /\
    example_MAX_CLASS_INDEX + 1
    < size (dom example_classes_map ∪ list_to_set ["toll road"]%string : gset string)) \/
   (exists name, InvalidClassName "toll road" = UnknownClassName name
                 /\ is_Some (example_classes_map !! name)
                 /\ name ∉ ["toll road"]%string)) /\
  ~ valid_declaration example_MAX_CLASS_INDEX isValidClassName_spec
      ["toll road"]%string example_classes_map.
Proof.
  apply (SetClassNames_exception example_MAX_CLASS_INDEX isValidClassName_spec
           ["toll road"]%string example_classes_map ProfileProperties.empty
           (InvalidClassName "toll road")).
  reflexivity.
Defined.

(** ** SetExcludableClasses: the bits of a mask and the indices written *)

Lemma combination_mask_testbit classes_map combination mask i :
  N.testbit (combination_mask classes_map combination mask) i = true
  <-> N.testbit mask i = true
      \/ exists name data, name ∈ combination /\ classes_map !! name = Some data
                           /\ N.testbit data i = true.
Proof.
  revert mask. induction combination as [|n rest IH]; intros mask; simpl.
  - split; [by left|]. intros [?|(name & data & Hin & _)]; [done|].
    by apply elem_of_nil in Hin.
  - destruct (classes_map !! n) as [d|] eqn:Hn; rewrite IH; clear IH.
    + rewrite N.lor_spec, orb_true_iff. split.
      * intros [[Hmask|Hd]|(name & data & Hin & Hnd & Hbit)].
        -- by left.
        -- right. exists n, d. split; [by left|done].
        -- right. exists name, data. split; [by right|done].
      * intros [Hmask|(name & data & [->|Hin]%elem_of_cons & Hnd & Hbit)].
        -- left. by left.
        -- left. right. congruence.
        -- right. by exists name, data.
    + split.
      * intros [Hmask|(name & data & Hin & Hnd & Hbit)]; [by left|].
        right. exists name, data. split; [by right|done].
      * intros [Hmask|(name & data & [->|Hin]%elem_of_cons & Hnd & Hbit)].
        -- by left.
        -- congruence.
        -- right. by exists name, data.
Qed.

(** X16.  The mask [SetExcludableClasses] computes for a combination is the
    union of the masks of its known names: a bit is set in it exactly when it
    is set in the mask of some name of the combination that the class map
    knows.  Names the class map does not know, the order of the names and
    repetitions make no difference. *)
Theorem combination_mask_bits classes_map combination i :
  N.testbit (combination_mask classes_map combination 0%N) i = true
  <-> exists name data, name ∈ combination /\ classes_map !! name = Some data
                        /\ N.testbit data i = true.
Proof.
  rewrite combination_mask_testbit, N.bits_0. split; [|by right].
  by intros [?|?].
Qed.

Lemma surviving_masks_length classes_map excludable_classes :
  length (surviving_masks classes_map excludable_classes) <= length excludable_classes.
Proof.
  unfold surviving_masks.
  etrans; [apply filter_length_le|]. by rewrite length_fmap.
Qed.

(** X17.  [SetExcludableClasses] fails no assertion; it throws exactly when
    there are more than [MAX_EXCLUDABLE_CLASSES] combinations; it writes
    outside the store of the masks exactly when there are at most
    [MAX_EXCLUDABLE_CLASSES] combinations and [MAX_EXCLUDABLE_CLASSES] or more
    of them have a mask that is not zero; and when it returns, every index at
    which the excludable masks have changed is at most the number of
    combinations and below [MAX_EXCLUDABLE_CLASSES]. *)
Theorem SetExcludableClasses_indices MAX_EXCLUDABLE_CLASSES classes_map
    excludable_classes p :
  SetExcludableClasses MAX_EXCLUDABLE_CLASSES classes_map excludable_classes p
  <> AssertionFailed /\
  (throws (SetExcludableClasses MAX_EXCLUDABLE_CLASSES classes_map excludable_classes p)
   <-> MAX_EXCLUDABLE_CLASSES < length excludable_classes) /\
  (SetExcludableClasses MAX_EXCLUDABLE_CLASSES classes_map excludable_classes p
   = OutOfBounds
   <-> length excludable_classes <= MAX_EXCLUDABLE_CLASSES /\
       MAX_EXCLUDABLE_CLASSES <= length (surviving_masks classes_map excludable_classes)) /\
  (forall p',
     SetExcludableClasses MAX_EXCLUDABLE_CLASSES classes_map excludable_classes p = Ok p' ->
     forall index,
       ProfileProperties.excludable_classes p' !! index
       <> ProfileProperties.excludable_classes p !! index ->
       index <= length excludable_classes /\ index < MAX_EXCLUDABLE_CLASSES).
Proof.
  pose proof (surviving_masks_length classes_map excludable_classes) as Hlen.
  destruct (SetExcludableClasses_runs MAX_EXCLUDABLE_CLASSES classes_map
              excludable_classes p)
    as [[Hmany ->]|[(Hfew & Hfull & ->)|(Hfew & Hfit & p' & -> & _ & _ & _ & Hout)]].
  - split; [done|]. split; [|split; [|done]].
    + split; [done|]. intros _. by eexists.
    + split; [done|]. lia.
  - split; [done|]. split; [|split; [|done]].
    + split; [by intros [? ?]|lia].
    + done.
  - split; [done|]. split; [|split].
    + split; [by intros [? ?]|lia].
    + split; [done|lia].
    + intros p'' [= <-] index Hchanged.
      destruct (decide (index <= length (surviving_masks classes_map excludable_classes)))
        as [Hle|Hgt]; [lia|].
      exfalso. apply Hchanged. apply Hout. lia.
Qed.

(** ** SetClassNames, then SetExcludableClasses *)

Lemma getClassData_nonzero MAX_CLASS_INDEX index :
  index <= MAX_CLASS_INDEX -> getClassData MAX_CLASS_INDEX index <> 0%N.
Proof.
  intros Hle Hzero.
  pose proof (getClassIndexes_getClassData MAX_CLASS_INDEX index Hle) as Hindexes.
  rewrite Hzero in Hindexes. unfold getClassIndexes in Hindexes.
  assert (Hin : In index (List.filter (fun i => N.testbit 0 (N.of_nat i))
                            (seq 0 (class_data_width MAX_CLASS_INDEX))))
    by (rewrite Hindexes; by left).
  apply filter_In in Hin as [_ Hbit]. by rewrite N.bits_0 in Hbit.
Qed.

(** When [SetClassNames] returns, every class of the map it leaves has passed
    the assertion of the last loop: it is one bit, and so not the empty
    mask. *)
Lemma store_class_names_Ok_single MAX_CLASS_INDEX entries p p' :
  store_class_names MAX_CLASS_INDEX entries p = Ok p' ->
  forall name data, (name, data) ∈ entries ->
    length (getClassIndexes MAX_CLASS_INDEX data) = 1.
Proof.
  intros Hrun name data Hin.
  destruct (decide (length (getClassIndexes MAX_CLASS_INDEX data) = 1)) as [|Hne]; [done|].
  rewrite store_class_names_AssertionFailed in Hrun; [done|]. by exists name, data.
Qed.

Lemma SetClassNames_Ok_single MAX_CLASS_INDEX isValidClassName class_names classes_map
    p m p' :
  SetClassNames MAX_CLASS_INDEX isValidClassName class_names classes_map p = Ok (m, p') ->
  single_class_entries MAX_CLASS_INDEX m.
Proof.
  unfold SetClassNames. intros Hrun name data Hnd%elem_of_map_to_list.
  destruct (if negb (bool_decide (class_names = []))
            then
              m0 ← add_declared_classes MAX_CLASS_INDEX isValidClassName class_names
                     classes_map;
              _ ← check_known_classes class_names (map_to_list m0);
              Ok m0
            else Ok classes_map) as [m1| | |]; simpl in Hrun; [|done..].
  destruct (store_class_names MAX_CLASS_INDEX (map_to_list m1) p) as [p1| | |] eqn:Hstore;
    simpl in Hrun; [|done..].
  injection Hrun as <- <-.
  by apply (store_class_names_Ok_single _ _ _ _ Hstore name data).
Qed.

Lemma single_class_nonzero MAX_CLASS_INDEX data :
  length (getClassIndexes MAX_CLASS_INDEX data) = 1 -> data <> 0%N.
Proof.
  intros Hone ->. unfold getClassIndexes in Hone.
  assert (Hnil : List.filter (fun i => N.testbit 0 (N.of_nat i))
                   (seq 0 (class_data_width MAX_CLASS_INDEX)) = []).
  { clear Hone.
    induction (seq 0 (class_data_width MAX_CLASS_INDEX)) as [|i l IH]; [done|].
    cbn [List.filter]. rewrite N.bits_0. exact IH. }
  by rewrite Hnil in Hone.
Qed.

(** X18.  A declared class can be excluded whether or not a way uses it: when
    [SetClassNames] has returned for a non-empty list of declared names and
    [SetExcludableClasses] has returned for the class map it left, every
    combination that names a declared class has a mask that is not zero and
    is stored under an index that is at least 1, at most the number of
    combinations and below [MAX_EXCLUDABLE_CLASSES]. *)
Theorem declared_classes_are_excludable MAX_CLASS_INDEX MAX_EXCLUDABLE_CLASSES
    isValidClassName class_names classes_map p m p' excludable_classes p''
    combination name :
  class_names <> [] ->
  SetClassNames MAX_CLASS_INDEX isValidClassName class_names classes_map p = Ok (m, p') ->
  SetExcludableClasses MAX_EXCLUDABLE_CLASSES m excludable_classes p' = Ok p'' ->
  combination ∈ excludable_classes ->
  name ∈ class_names -> name ∈ combination ->
  combination_mask m combination 0%N <> 0%N /\
  exists index,
    1 <= index <= length excludable_classes /\
    index < MAX_EXCLUDABLE_CLASSES /\
    ProfileProperties.excludable_classes p'' !! index
    = Some (combination_mask m combination 0%N).
Proof.
  intros Hne Hrun Hexcl Hcombination Hdeclared Hin.
  assert (Hmask : combination_mask m combination 0%N <> 0%N).
  { destruct (SetClassNames_Ok _ _ _ _ _ _ _ Hne Hrun) as (_ & Hall & _).
    destruct (Hall name Hdeclared) as [[data Hnd] _].
    assert (Hm : forall n d, m !! n = Some d -> d <> 0%N).
    { intros n d Hn. apply (single_class_nonzero MAX_CLASS_INDEX).
      by apply (SetClassNames_Ok_single _ _ _ _ _ _ _ Hrun n d). }
    intros Hzero.
    pose proof (proj1 (combination_mask_zero m combination Hm) Hzero name Hin) as Hnone.
    congruence. }
  split; [done|].
  assert (Hsurvives : combination_mask m combination 0%N
                      ∈ surviving_masks m excludable_classes).
  { unfold surviving_masks. apply list_elem_of_In, filter_In. split.
    - apply list_elem_of_In.
      by apply (list_elem_of_fmap_2 (fun c => combination_mask m c 0%N)).
    - apply N.ltb_lt. lia. }
  apply list_elem_of_lookup_1 in Hsurvives as [i Hi].
  pose proof (lookup_lt_Some _ _ _ Hi) as Hlt.
  pose proof (surviving_masks_length m excludable_classes) as Hlen.
  destruct (SetExcludableClasses_runs MAX_EXCLUDABLE_CLASSES m excludable_classes p')
    as [[_ Hthrow]|[(_ & _ & Hout)|(_ & Hfit & p1 & Hok & _ & _ & Hstored & _)]];
    [congruence..|].
  rewrite Hexcl in Hok. injection Hok as <-.
  exists (S i). split; [lia|]. split; [lia|]. by apply Hstored.
Qed.

Lemma declared_classes_are_excludable_witness :
  combination_mask example_declared_map ["ferry"; "tunnel"]%string 0%N <> 0%N /\
  exists index,
    1 <= index <= length [["ferry"; "tunnel"]%string] /\
    index < example_MAX_EXCLUDABLE_CLASSES /\
    ProfileProperties.excludable_classes example_excluded_properties !! index
    = Some (combination_mask example_declared_map ["ferry"; "tunnel"]%string 0%N).
Proof.
  apply (declared_classes_are_excludable example_MAX_CLASS_INDEX
           example_MAX_EXCLUDABLE_CLASSES isValidClassName_spec
           ["toll"; "tunnel"; "ferry"]%string example_classes_map ProfileProperties.empty
           example_declared_map example_declared_properties
           [["ferry"; "tunnel"]%string] example_excluded_properties
           ["ferry"; "tunnel"]%string "tunnel"%string).
  - done.
  - vm_compute. reflexivity.
  - vm_compute. reflexivity.
  - left.
  - right. left.
  - right. left.
Defined.

(** ** ParseOSMData: when the profile properties are written *)

Section ParseOSMDataWrites.
Variable MAX_CLASS_INDEX : nat.
Variable MAX_EXCLUDABLE_CLASSES : nat.
Variable isValidClassName : string -> bool.
Context {Edge LaneDescriptionMap TurnRestriction ConditionalTurnRestriction : Type}.

Variable PrepareData :
  @ExtractionContainers Edge TurnRestriction ConditionalTurnRestriction ->
  @ExtractionContainers Edge TurnRestriction ConditionalTurnRestriction.

Ltac event_in_list H :=
  repeat (apply elem_of_cons in H as [H|H]; [try discriminate H|]);
  try (by apply elem_of_nil in H).

(** X19.  [ParseOSMData] prepares the data exactly when the reading left
    edges, and it writes the profile properties exactly when it returns
    normally: then they are written once, as the last step after the
    timestamp, the two readings and [PrepareData], and they are what
    [SetExcludableClasses] makes of the result of [SetClassNames]. *)
Theorem ParseOSMData_writes_properties (scripting_environment : ScriptingEnvironment)
    (parsed : @ParsedData Edge LaneDescriptionMap TurnRestriction
                ConditionalTurnRestriction) :
  let run := ParseOSMData MAX_CLASS_INDEX MAX_EXCLUDABLE_CLASSES isValidClassName
               PrepareData scripting_environment parsed in
  (EvPrepareData ∈ trace_of run
   <-> all_edges_list (extraction_containers parsed) <> []) /\
  ((exists r, outcome_of run = Ok r)
   <-> exists p, EvWriteProfileProperties p ∈ trace_of run) /\
  (forall p, EvWriteProfileProperties p ∈ trace_of run ->
     trace_of run = [EvWriteTimestamp; EvParseRelations; EvParseWaysAndNodes;
                     EvPrepareData; EvWriteProfileProperties p] /\
     exists r,
       SetClassNames MAX_CLASS_INDEX isValidClassName
         (GetClassNames scripting_environment) (classes_map parsed)
         (GetProfileProperties scripting_environment) = Ok r /\
       SetExcludableClasses MAX_EXCLUDABLE_CLASSES r.1
         (GetExcludableClasses scripting_environment) r.2 = Ok p).
Proof.
  cbv zeta. rewrite ParseOSMData_runs. unfold ingestion, trace_of, outcome_of.
  case_bool_decide as Hedges; simpl.
  { split; [split; [intros Hin; event_in_list Hin|done]|].
    split; [split; [by intros [? ?]|intros [p Hin]; event_in_list Hin]|].
    intros p Hin. event_in_list Hin. }
  destruct (SetClassNames MAX_CLASS_INDEX isValidClassName
              (GetClassNames scripting_environment) (classes_map parsed)
              (GetProfileProperties scripting_environment)) as [r|e| |] eqn:Hnames.
  - destruct (SetExcludableClasses MAX_EXCLUDABLE_CLASSES r.1
                (GetExcludableClasses scripting_environment) r.2) as [p0|e| |] eqn:Hmasks;
      simpl.
    + split; [split; [done|]; intros _; do 3 right; by left|].
      split; [split; [|by eexists]; intros _; exists p0; do 4 right; by left|].
      intros p Hin. event_in_list Hin. injection Hin as ->.
      split; [done|]. by exists r.
    + split; [split; [done|]; intros _; do 3 right; by left|].
      split; [split; [by intros [? ?]|intros [p Hin]; event_in_list Hin]|].
      intros p Hin. event_in_list Hin.
    + split; [split; [done|]; intros _; do 3 right; by left|].
      split; [split; [by intros [? ?]|intros [p Hin]; event_in_list Hin]|].
      intros p Hin. event_in_list Hin.
    + split; [split; [done|]; intros _; do 3 right; by left|].
      split; [split; [by intros [? ?]|intros [p Hin]; event_in_list Hin]|].
      intros p Hin. event_in_list Hin.
  - simpl. split; [split; [done|]; intros _; do 3 right; by left|].
    split; [split; [by intros [? ?]|intros [p Hin]; event_in_list Hin]|].
    intros p Hin. event_in_list Hin.
  - simpl. split; [split; [done|]; intros _; do 3 right; by left|].
    split; [split; [by intros [? ?]|intros [p Hin]; event_in_list Hin]|].
    intros p Hin. event_in_list Hin.
  - simpl. split; [split; [done|]; intros _; do 3 right; by left|].
    split; [split; [by intros [? ?]|intros [p Hin]; event_in_list Hin]|].
    intros p Hin. event_in_list Hin.
Qed.

(** After [SetClassNames] the class map knows the classes the ways used and
    the declared names, so the combinations whose mask is not zero are the
    ones that name one of them. *)
Lemma SetClassNames_Ok_known class_names classes_map p m p' name :
  SetClassNames MAX_CLASS_INDEX isValidClassName class_names classes_map p = Ok (m, p') ->
  is_Some (m !! name) <-> is_Some (classes_map !! name) \/ name ∈ class_names.
Proof.
  intros Hrun. destruct (decide (class_names = [])) as [->|Hne].
  - unfold SetClassNames in Hrun. simpl in Hrun.
    destruct (store_class_names MAX_CLASS_INDEX (map_to_list classes_map) p)
      as [p1| | |]; simpl in Hrun; [|done..].
    injection Hrun as <- <-. split; [by left|].
    intros [?|Hin]; [done|]. by apply elem_of_nil in Hin.
  - destruct (SetClassNames_Ok _ _ _ _ _ _ _ Hne Hrun) as (Hsub & Hall & Hknown & _).
    split; [intros Hm; right; by apply Hknown|].
    intros [[data Hnd]|Hin]; [|by apply Hall].
    exists data. by eapply lookup_weaken.
Qed.

Lemma surviving_masks_combinations class_names classes_map p m p' excludable_classes :
  SetClassNames MAX_CLASS_INDEX isValidClassName class_names classes_map p = Ok (m, p') ->
  length (surviving_masks m excludable_classes)
  = length (combinations_of_classes class_names classes_map excludable_classes).
Proof.
  intros Hrun.
  assert (Hm : forall n d, m !! n = Some d -> d <> 0%N).
  { intros n d Hn. apply (single_class_nonzero MAX_CLASS_INDEX).
    by apply (SetClassNames_Ok_single _ _ _ _ _ _ _ Hrun n d). }
  unfold combinations_of_classes.
  induction excludable_classes as [|c rest IH]; [done|].
  rewrite surviving_masks_cons. cbn [List.filter].
  assert (Hsame : (0 <? combination_mask m c 0%N)%N
                  = names_a_class class_names classes_map c).
  { apply eq_true_iff_eq. rewrite N.ltb_lt. unfold names_a_class.
    rewrite existsb_exists.
    pose proof (combination_mask_zero m c Hm) as Hzero. split.
    - intros Hpos.
      destruct (decide (Exists (fun name => is_Some (m !! name)) c)) as [Hex|Hnex].
      + apply Exists_exists in Hex as (name & Hin & Hsome).
        exists name. split; [by apply list_elem_of_In|].
        apply (SetClassNames_Ok_known _ _ _ _ _ name Hrun) in Hsome as [Hused|Hdeclared].
        * apply orb_true_iff. left. by apply bool_decide_eq_true.
        * apply orb_true_iff. right. by apply std_find_spec.
      + assert (Hnone : combination_mask m c 0%N = 0%N); [|lia].
        apply Hzero. intros name Hin. apply eq_None_not_Some. intros Hsome.
        apply Hnex, Exists_exists. by exists name.
    - intros (name & Hin%list_elem_of_In & Hknown).
      assert (Hsome : is_Some (m !! name)).
      { apply (SetClassNames_Ok_known _ _ _ _ _ name Hrun).
        apply orb_true_iff in Hknown as [Hused|Hdeclared].
        - left. by apply bool_decide_eq_true in Hused.
        - right. by apply std_find_spec. }
      assert (Hne : combination_mask m c 0%N <> 0%N); [|lia].
      intros Hnone. destruct Hsome as [d Hd].
      by rewrite (proj1 Hzero Hnone name Hin) in Hd. }
  rewrite Hsame. destruct (names_a_class class_names classes_map c); simpl; by rewrite IH.
Qed.

(** X28.  For a class map of at most [MAX_CLASS_INDEX + 1] classes of one bit
    each, [ParseOSMData] returns normally exactly when the reading left
    edges, the declaration of the class names is one [SetClassNames]
    accepts, there are at most [MAX_EXCLUDABLE_CLASSES] excludable
    combinations, and fewer than [MAX_EXCLUDABLE_CLASSES] of them name a class
    that a way used or that is declared.  When only the last condition fails,
    [SetExcludableClasses] writes outside the store of the masks; in every
    other case [ParseOSMData] throws; no assertion fails. *)
Theorem ParseOSMData_returns_iff (scripting_environment : ScriptingEnvironment)
    (parsed : @ParsedData Edge LaneDescriptionMap TurnRestriction
                ConditionalTurnRestriction) :
  single_class_entries MAX_CLASS_INDEX (classes_map parsed) ->
  size (classes_map parsed) <= MAX_CLASS_INDEX + 1 ->
  let run := ParseOSMData MAX_CLASS_INDEX MAX_EXCLUDABLE_CLASSES isValidClassName
               PrepareData scripting_environment parsed in
  let accepted :=
    all_edges_list (extraction_containers parsed) <> [] /\
    valid_declaration MAX_CLASS_INDEX isValidClassName
      (GetClassNames scripting_environment) (classes_map parsed) /\
    length (GetExcludableClasses scripting_environment) <= MAX_EXCLUDABLE_CLASSES in
  let stored :=
    length (combinations_of_classes (GetClassNames scripting_environment)
              (classes_map parsed) (GetExcludableClasses scripting_environment)) in
  ((exists r, outcome_of run = Ok r) <-> accepted /\ stored < MAX_EXCLUDABLE_CLASSES) /\
  (outcome_of run = OutOfBounds <-> accepted /\ MAX_EXCLUDABLE_CLASSES <= stored) /\
  (throws (outcome_of run) <-> ~ accepted).
Proof.
  intros Hsingle Hsize. cbv zeta. rewrite ParseOSMData_runs. unfold outcome_of.
  pose proof (SetClassNames_returns MAX_CLASS_INDEX isValidClassName
                (GetClassNames scripting_environment) (classes_map parsed)
                (GetProfileProperties scripting_environment) Hsingle Hsize) as Hnames.
  case_bool_decide as Hedges; simpl.
  { split; [|split].
    - split; [by intros [? ?]|]. by intros [[? _] _].
    - split; [done|]. by intros [[? _] _].
    - split; [by intros _ [? _]|]. intros _. by eexists. }
  destruct (SetClassNames MAX_CLASS_INDEX isValidClassName
              (GetClassNames scripting_environment) (classes_map parsed)
              (GetProfileProperties scripting_environment)) as [[m p']|e| |] eqn:Hrun.
  - assert (Hvalid : valid_declaration MAX_CLASS_INDEX isValidClassName
                       (GetClassNames scripting_environment) (classes_map parsed))
      by (apply Hnames; by eexists).
    rewrite <- (surviving_masks_combinations _ _ _ _ _
                  (GetExcludableClasses scripting_environment) Hrun).
    simpl.
    destruct (SetExcludableClasses_runs MAX_EXCLUDABLE_CLASSES m
                (GetExcludableClasses scripting_environment) p')
      as [[Hmany ->]|[(Hfew & Hfull & ->)|(Hfew & Hfit & p1 & -> & _)]]; simpl.
    + split; [|split].
      * split; [by intros [? ?]|]. intros [(_ & _ & ?) _]. lia.
      * split; [done|]. intros [(_ & _ & ?) _]. lia.
      * split; [|intros _; by eexists]. intros _ (_ & _ & ?). lia.
    + split; [|split].
      * split; [by intros [? ?]|]. intros [_ ?]. lia.
      * split; [done|]. done.
      * split; [by intros [? ?]|]. intros Hnot. by destruct Hnot.
    + split; [|split].
      * split; [done|]. intros _. by eexists.
      * split; [done|]. intros [_ ?]. lia.
      * split; [by intros [? ?]|]. intros Hnot. by destruct Hnot.
  - simpl. split; [|split].
    + split; [by intros [? ?]|].
      intros [(_ & Hvalid & _) _]. apply Hnames in Hvalid as [? ?]. done.
    + split; [done|].
      intros [(_ & Hvalid & _) _]. apply Hnames in Hvalid as [? ?]. done.
    + split; [|intros _; by eexists].
      intros _ (_ & Hvalid & _). apply Hnames in Hvalid as [? ?]. done.
  - by apply SetClassNames_asserts_nothing in Hrun.
  - by apply SetClassNames_in_bounds in Hrun.
Qed.
End ParseOSMDataWrites.

Lemma ParseOSMData_returns_iff_witness :
  let run := ParseOSMData example_MAX_CLASS_INDEX example_MAX_EXCLUDABLE_CLASSES
               isValidClassName_spec id
               (example_profile ["toll"; "ferry"]%string [["toll"%string]])
               (example_parsed [1; 2] example_classes_map) in
  let accepted :=
    all_edges_list (extraction_containers (example_parsed [1; 2] example_classes_map))
    <> [] /\
    valid_declaration example_MAX_CLASS_INDEX isValidClassName_spec
      ["toll"; "ferry"]%string example_classes_map /\
    length [["toll"%string]] <= example_MAX_EXCLUDABLE_CLASSES in
  let stored :=
    length (combinations_of_classes ["toll"; "ferry"]%string example_classes_map
              [["toll"%string]]) in
  ((exists r, outcome_of run = Ok r)
   <-> accepted /\ stored < example_MAX_EXCLUDABLE_CLASSES) /\
  (outcome_of run = OutOfBounds
   <-> accepted /\ example_MAX_EXCLUDABLE_CLASSES <= stored) /\
  (throws (outcome_of run) <-> ~ accepted).
Proof.
  apply (ParseOSMData_returns_iff example_MAX_CLASS_INDEX example_MAX_EXCLUDABLE_CLASSES
           isValidClassName_spec id
           (example_profile ["toll"; "ferry"]%string [["toll"%string]])
           (example_parsed [1; 2] example_classes_map)).
  - exact example_classes_map_single.
  - vm_compute. lia.
Defined.

(** ** BuildRTree: the assertion and the segments kept *)

Lemma startpoint_segments_sublist segments node_is_startpoint :
  sublist (startpoint_segments segments node_is_startpoint) segments.
Proof.
  revert node_is_startpoint.
  induction segments as [|s segments IH]; intros [|flag flags]; simpl;
    try apply sublist_nil_l.
  destruct flag; [by apply sublist_skip|by apply sublist_cons].
Qed.

Lemma startpoint_segments_length segments node_is_startpoint :
  length node_is_startpoint = length segments ->
  length (startpoint_segments segments node_is_startpoint)
  = length (List.filter (fun flag : bool => flag) node_is_startpoint).
Proof.
  revert node_is_startpoint.
  induction segments as [|s segments IH]; intros [|flag flags] Hlen; simpl in *;
    try done.
  destruct flag; simpl; rewrite IH by lia; done.
Qed.

(** X20.  The assertion of [BuildRTree] fails exactly when there are not as
    many start point flags as segments.  The tree it builds is never empty:
    its segments are segments of the input, in their order, as many as there
    are flags set. *)
Theorem BuildRTree_outcomes edge_based_node_segments node_is_startpoint :
  (BuildRTree edge_based_node_segments node_is_startpoint = AssertionFailed
   <-> length node_is_startpoint <> length edge_based_node_segments) /\
  (forall rtree,
     BuildRTree edge_based_node_segments node_is_startpoint = Ok rtree ->
     rtree_segments rtree <> [] /\
     sublist (rtree_segments rtree) edge_based_node_segments /\
     length (rtree_segments rtree)
     = length (List.filter (fun flag : bool => flag) node_is_startpoint)).
Proof.
  unfold BuildRTree.
  destruct (Nat.eqb_spec (length node_is_startpoint) (length edge_based_node_segments))
    as [Hlen|Hlen]; simpl; [|done].
  destruct (filter_startpoints_spec node_is_startpoint edge_based_node_segments 0 0)
    as (segments' & new_size & -> & Hlen' & Hsize & Htake); [lia|lia|].
  simpl in *. rewrite drop_0 in Htake. rewrite Htake.
  destruct (Nat.eqb_spec new_size 0) as [Hzero|Hpos].
  - split; [done|]. done.
  - split; [done|]. intros rtree [= <-]. simpl.
    split; [|split].
    + intros Hnil. apply (f_equal length) in Htake. rewrite Hnil in Htake.
      rewrite length_take in Htake. simpl in Htake. lia.
    + apply startpoint_segments_sublist.
    + by apply startpoint_segments_length.
Qed.

(** ** FindSegregatedNodes *)

(** *** The merge of the infos of one node *)

Lemma merge_equal_infos_before before curr between rest :
  merge_equal_infos before curr between rest
  = out ← merge_equal_infos [] curr between rest; Ok (before ++ out).
Proof.
  revert before curr between.
  induction rest as [|next rest' IH]; intros before curr between; simpl; [done|].
  destruct (EdgeInfo.node curr =? EdgeInfo.node next)%N.
  - destruct (String.eqb (EdgeInfo.name curr) (EdgeInfo.name next)); simpl; [|done].
    destruct (EdgeInfo.road_class curr =? EdgeInfo.road_class next)%N; simpl; [|done].
    destruct (negb (EdgeInfo.direction curr =? EdgeInfo.direction next)%Z); simpl; [|done].
    apply IH.
  - rewrite (IH (before ++ curr :: between)), (IH (curr :: between)).
    destruct (merge_equal_infos [] next [] rest'); simpl; [|done..].
    by rewrite <- app_assoc.
Qed.

Lemma merge_equal_infos_head curr between rest out :
  merge_equal_infos [] curr between rest = Ok out ->
  exists head tail, out = head :: tail /\ EdgeInfo.node head = EdgeInfo.node curr.
Proof.
  revert curr between.
  induction rest as [|next rest' IH]; intros curr between; simpl.
  - intros [= <-]. by eexists _, _.
  - destruct (EdgeInfo.node curr =? EdgeInfo.node next)%N.
    + destruct (String.eqb (EdgeInfo.name curr) (EdgeInfo.name next)); simpl; [|done].
      destruct (EdgeInfo.road_class curr =? EdgeInfo.road_class next)%N; simpl; [|done].
      destruct (negb (EdgeInfo.direction curr =? EdgeInfo.direction next)%Z);
        simpl; [|done].
      intros Hrun. apply IH in Hrun as (head & tail & -> & Hnode). by eexists _, _.
    + rewrite merge_equal_infos_before.
      destruct (merge_equal_infos [] next [] rest'); simpl; [|done..].
      intros [= <-]. by eexists _, _.
Qed.

Lemma unique_from_same_node kept between rest :
  Forall (fun e => EdgeInfo.node e = EdgeInfo.node kept) between ->
  unique_from kept (between ++ rest) = unique_from kept rest.
Proof.
  induction 1 as [|e between He Hall IH]; simpl; [done|].
  by rewrite He, N.eqb_refl.
Qed.

(** The merge loop followed by [std::unique] is [merge_runs]. *)
Lemma merge_equal_infos_unique curr between rest out :
  merge_equal_infos [] curr between rest = Ok out ->
  Forall (fun e => EdgeInfo.node e = EdgeInfo.node curr) between ->
  unique_by_node out = merge_runs curr rest.
Proof.
  revert curr between out.
  induction rest as [|next rest' IH]; intros curr between out; simpl.
  - intros [= <-] Hbetween. simpl.
    rewrite <- (app_nil_r between). by rewrite unique_from_same_node.
  - destruct (N.eqb_spec (EdgeInfo.node curr) (EdgeInfo.node next)) as [Heq|Hne].
    + destruct (String.eqb (EdgeInfo.name curr) (EdgeInfo.name next)); simpl; [|done].
      destruct (EdgeInfo.road_class curr =? EdgeInfo.road_class next)%N; simpl; [|done].
      destruct (negb (EdgeInfo.direction curr =? EdgeInfo.direction next)%Z);
        simpl; [|done].
      intros Hrun Hbetween. apply (IH _ _ _ Hrun).
      apply Forall_app. split; [done|]. by constructor.
    + rewrite merge_equal_infos_before.
      destruct (merge_equal_infos [] next [] rest') as [out'| | |] eqn:Hrun;
        simpl; [|done..].
      intros [= <-] Hbetween. simpl.
      rewrite unique_from_same_node by done.
      destruct (merge_equal_infos_head _ _ _ _ Hrun) as (head & tail & -> & Hhead).
      simpl. rewrite Hhead.
      destruct (N.eqb_spec (EdgeInfo.node curr) (EdgeInfo.node next)); [done|].
      f_equal. by apply (IH next [] (head :: tail)).
Qed.

(** Each info has, in what is left, one of its node, its name and its class:
    the assertions of the merge loop. *)
Lemma merge_equal_infos_represents curr between rest out :
  merge_equal_infos [] curr between rest = Ok out ->
  forall x, x ∈ curr :: rest ->
    exists kept, kept ∈ merge_runs curr rest /\
      EdgeInfo.node kept = EdgeInfo.node x /\
      EdgeInfo.name kept = EdgeInfo.name x /\
      EdgeInfo.road_class kept = EdgeInfo.road_class x.
Proof.
  revert curr between out.
  induction rest as [|next rest' IH]; intros curr between out; simpl.
  - intros _ x Hx. apply list_elem_of_singleton in Hx as ->.
    exists curr. split; [by left|done].
  - destruct (N.eqb_spec (EdgeInfo.node curr) (EdgeInfo.node next)) as [Heq|Hne].
    + destruct (String.eqb_spec (EdgeInfo.name curr) (EdgeInfo.name next)) as [Hname|];
        simpl; [|done].
      destruct (N.eqb_spec (EdgeInfo.road_class curr) (EdgeInfo.road_class next))
        as [Hclass|]; simpl; [|done].
      destruct (negb (EdgeInfo.direction curr =? EdgeInfo.direction next)%Z);
        simpl; [|done].
      intros Hrun x Hx.
      apply elem_of_cons in Hx as [->|[->|Hx]%elem_of_cons].
      * apply (IH _ _ _ Hrun (set_direction 2 curr)). by left.
      * destruct (IH _ _ _ Hrun (set_direction 2 curr) ltac:(by left))
          as (kept & Hin & Hn & Hnm & Hc).
        exists kept. simpl in *. split; [done|]. split; [congruence|].
        split; congruence.
      * apply (IH _ _ _ Hrun x). by right.
    + rewrite merge_equal_infos_before.
      destruct (merge_equal_infos [] next [] rest') as [out'| | |] eqn:Hrun;
        simpl; [|done..].
      intros _ x Hx. apply elem_of_cons in Hx as [->|Hx].
      * exists curr. split; [by left|done].
      * destruct (IH _ _ _ Hrun x Hx) as (kept & Hin & Hkept).
        exists kept. split; [by right|done].
Qed.

Lemma count_node_cons node e info :
  count_node node (e :: info)
  = (if (EdgeInfo.node e =? node)%N then 1 else 0) + count_node node info.
Proof. unfold count_node. simpl. by destruct (EdgeInfo.node e =? node)%N. Qed.

Lemma count_node_zero node info :
  (forall e, e ∈ info -> EdgeInfo.node e <> node) -> count_node node info = 0.
Proof.
  induction info as [|e info IH]; intros Hall; [done|].
  rewrite count_node_cons, IH.
  - destruct (N.eqb_spec (EdgeInfo.node e) node) as [Heq|]; [|done].
    exfalso. by apply (Hall e); [left|].
  - intros x Hx. apply Hall. by right.
Qed.

Lemma count_node_Permutation node info info' :
  info ≡ₚ info' -> count_node node info = count_node node info'.
Proof.
  induction 1 as [|x l l' Hp IH|x y l|l l' l'' Hp1 IH1 Hp2 IH2];
    rewrite ?count_node_cons; try done; lia.
Qed.

Lemma sorted_by_node_le curr rest :
  sorted_by_node (curr :: rest) ->
  sorted_by_node rest /\
  forall e, e ∈ rest -> (EdgeInfo.node curr <= EdgeInfo.node e)%N.
Proof.
  intros [Hrest Hall]%StronglySorted_inv. split; [done|].
  rewrite Forall_forall in Hall. intros e He. specialize (Hall e He).
  apply N.ltb_ge in Hall. done.
Qed.

Lemma sorted_by_node_set_direction d curr rest :
  sorted_by_node (curr :: rest) -> sorted_by_node (set_direction d curr :: rest).
Proof. intros [Hrest Hall]%StronglySorted_inv. by constructor. Qed.

(** What is left of a sorted vector, info by info. *)
Lemma merge_runs_spec curr rest :
  sorted_by_node (curr :: rest) ->
  forall i, i ∈ merge_runs curr rest ->
    (EdgeInfo.node i = EdgeInfo.node curr /\
     ((i = curr /\ count_node (EdgeInfo.node curr) rest = 0) \/
      (i = set_direction 2 curr /\ 0 < count_node (EdgeInfo.node curr) rest)))
    \/
    (EdgeInfo.node i <> EdgeInfo.node curr /\
     exists x, x ∈ rest /\ EdgeInfo.node x = EdgeInfo.node i /\
       ((i = x /\ count_node (EdgeInfo.node i) rest = 1) \/
        (i = set_direction 2 x /\ 2 <= count_node (EdgeInfo.node i) rest))).
Proof.
  revert curr. induction rest as [|next rest' IH]; intros curr Hsorted i Hi.
  - simpl in Hi. apply list_elem_of_singleton in Hi as ->.
    left. split; [done|]. left. done.
  - simpl in Hi. pose proof (sorted_by_node_le _ _ Hsorted) as [Hrest Hle].
    pose proof (sorted_by_node_le _ _ Hrest) as [Hrest' Hle'].
    pose proof (Hle next ltac:(by left)) as Hnext.
    destruct (N.eqb_spec (EdgeInfo.node curr) (EdgeInfo.node next)) as [Heq|Hne].
    + assert (Hsorted' : sorted_by_node (set_direction 2 curr :: rest')).
      { apply sorted_by_node_set_direction. apply StronglySorted_inv in Hsorted as [_ Hall].
        apply Forall_cons in Hall as [_ Hall]. by constructor. }
      destruct (IH _ Hsorted' i Hi) as [[Hnode Hcase]|[Hnode (x & Hx & Hxn & Hcase)]];
        simpl in Hnode.
      * left. split; [done|]. right. rewrite count_node_cons, Heq, N.eqb_refl.
        split; [|lia]. destruct Hcase as [[-> _]|[-> _]]; done.
      * right. split; [done|]. exists x. split; [by right|]. split; [done|].
        rewrite count_node_cons.
        destruct (N.eqb_spec (EdgeInfo.node next) (EdgeInfo.node i)); [congruence|].
        done.
    + assert (Hlater : forall e, e ∈ rest' -> (EdgeInfo.node curr < EdgeInfo.node e)%N).
      { intros e He. specialize (Hle' e He). lia. }
      apply elem_of_cons in Hi as [->|Hi].
      * left. split; [done|]. left. split; [done|]. apply count_node_zero.
        intros e [->|He]%elem_of_cons; [done|]. specialize (Hlater e He). lia.
      * destruct (IH _ Hrest i Hi) as [[Hnode Hcase]|[Hnode (x & Hx & Hxn & Hcase)]].
        -- right. split; [congruence|]. exists next. split; [by left|]. split; [done|].
           rewrite count_node_cons, Hnode, N.eqb_refl.
           destruct Hcase as [[-> Hc]|[-> Hc]]; [left|right]; split; try done; lia.
        -- right. split.
           { specialize (Hlater x Hx). lia. }
           exists x. split; [by right|]. split; [done|]. rewrite count_node_cons.
           destruct (N.eqb_spec (EdgeInfo.node next) (EdgeInfo.node i)); [congruence|].
           done.
Qed.

Lemma merge_runs_nodes curr rest :
  sorted_by_node (curr :: rest) ->
  forall i, i ∈ merge_runs curr rest ->
    (EdgeInfo.node curr <= EdgeInfo.node i)%N /\
    exists x, x ∈ curr :: rest /\ EdgeInfo.node x = EdgeInfo.node i /\
      (i = x \/ i = set_direction 2 x).
Proof.
  intros Hsorted i Hi. pose proof (sorted_by_node_le _ _ Hsorted) as [_ Hle].
  destruct (merge_runs_spec _ _ Hsorted i Hi)
    as [[Hnode Hcase]|[Hnode (x & Hx & Hxn & Hcase)]].
  - split; [lia|]. exists curr. split; [by left|]. split; [done|].
    destruct Hcase as [[-> _]|[-> _]]; auto.
  - split; [specialize (Hle x Hx); lia|]. exists x. split; [by right|]. split; [done|].
    destruct Hcase as [[-> _]|[-> _]]; auto.
Qed.

Lemma merge_runs_strict curr rest :
  sorted_by_node (curr :: rest) -> StronglySorted node_lt (merge_runs curr rest).
Proof.
  revert curr. induction rest as [|next rest' IH]; intros curr Hsorted; simpl.
  - repeat constructor.
  - pose proof (sorted_by_node_le _ _ Hsorted) as [Hrest Hle].
    pose proof (Hle next ltac:(by left)) as Hnext.
    destruct (N.eqb_spec (EdgeInfo.node curr) (EdgeInfo.node next)) as [Heq|Hne].
    + apply IH, sorted_by_node_set_direction.
      apply StronglySorted_inv in Hsorted as [_ Hall].
      apply Forall_cons in Hall as [_ Hall]. apply StronglySorted_inv in Hrest as [? _].
      by constructor.
    + constructor; [by apply IH|]. apply Forall_forall. intros i Hi.
      destruct (merge_runs_nodes _ _ Hrest i Hi) as [Hge _]. unfold node_lt. lia.
Qed.

(** The infos of a sorted vector, counted over the whole vector. *)
Lemma merge_runs_counts first rest :
  sorted_by_node (first :: rest) ->
  forall i, i ∈ merge_runs first rest ->
    exists x, x ∈ first :: rest /\ EdgeInfo.node x = EdgeInfo.node i /\
      ((i = x /\ count_node (EdgeInfo.node i) (first :: rest) = 1) \/
       (i = set_direction 2 x /\ 2 <= count_node (EdgeInfo.node i) (first :: rest))).
Proof.
  intros Hsorted i Hi. rewrite count_node_cons.
  destruct (merge_runs_spec _ _ Hsorted i Hi)
    as [[Hnode Hcase]|[Hnode (x & Hx & Hxn & Hcase)]].
  - exists first. split; [by left|]. split; [done|].
    rewrite Hnode, N.eqb_refl.
    destruct Hcase as [[-> Hc]|[-> Hc]]; [left|right]; split; try done; lia.
  - exists x. split; [by right|]. split; [done|].
    destruct (N.eqb_spec (EdgeInfo.node first) (EdgeInfo.node i)); [congruence|].
    done.
Qed.

(** *** collect_edge_info_fn *)

Lemma node_lt_unique info a b :
  StronglySorted node_lt info -> a ∈ info -> b ∈ info ->
  EdgeInfo.node a = EdgeInfo.node b -> a = b.
Proof.
  induction 1 as [|x l Hs IH Hall]; intros Ha Hb Hnode.
  - by apply elem_of_nil in Ha.
  - rewrite Forall_forall in Hall. unfold node_lt in Hall.
    apply elem_of_cons in Ha as [->|Ha]; apply elem_of_cons in Hb as [->|Hb].
    + done.
    + specialize (Hall b Hb). lia.
    + specialize (Hall a Ha). lia.
    + by apply IH.
Qed.

Section CollectEdgeInfo.
Variable INVALID_NAMEID : N.
Variable GetNameForID : N -> string.
Variable std_sort_by_node : list EdgeInfo.t -> list EdgeInfo.t.
Variable graph : NodeBasedDynamicGraph.
Variable annotation : N -> NodeBasedEdgeAnnotation.t.
Hypothesis std_sort_by_node_Permutation : forall v, std_sort_by_node v ≡ₚ v.
Hypothesis std_sort_by_node_sorted : forall v, sorted_by_node (std_sort_by_node v).

Abbreviation info_of e :=
  (edge_info GetNameForID annotation (GetTarget graph e) (GetEdgeData graph e)).
Abbreviation pushed_infos edges1 node2 :=
  (List.map (fun e => info_of e)
     (List.filter (fun e => negb (GetTarget graph e =? node2)%N) edges1)).
Abbreviation collect :=
  (collect_edge_info_fn INVALID_NAMEID GetNameForID std_sort_by_node graph annotation).

Lemma push_edge_infos_Ok edges1 node2 info info' :
  push_edge_infos INVALID_NAMEID GetNameForID graph annotation edges1 node2 info
  = Ok info' ->
  info' = info ++ pushed_infos edges1 node2.
Proof.
  revert info. induction edges1 as [|e rest IH]; intros info; simpl.
  - intros [= <-]. by rewrite app_nil_r.
  - destruct (GetTarget graph e =? node2)%N; simpl; [apply IH|].
    unfold get_edge_info.
    destruct (negb (NodeBasedEdgeAnnotation.name_id
                      (annotation (NodeBasedEdgeData.annotation_data
                                     (GetEdgeData graph e))) =? INVALID_NAMEID)%N);
      simpl; [|done].
    intros Hrun. apply IH in Hrun as ->. by rewrite <- app_assoc.
Qed.

Lemma elem_of_pushed_infos edges1 node2 x :
  x ∈ pushed_infos edges1 node2
  <-> exists e, e ∈ edges1 /\ GetTarget graph e <> node2 /\ x = info_of e.
Proof.
  rewrite list_elem_of_In, in_map_iff. split.
  - intros (e & <- & [Hin Htarget]%filter_In). exists e.
    split; [by apply list_elem_of_In|]. split; [|done].
    by apply negb_true_iff, N.eqb_neq in Htarget.
  - intros (e & Hin & Htarget & ->). exists e. split; [done|].
    apply filter_In. split; [by apply list_elem_of_In|].
    by apply negb_true_iff, N.eqb_neq.
Qed.

Lemma count_node_pushed_infos edges1 node2 node :
  node <> node2 ->
  count_node node (pushed_infos edges1 node2) = edges_to graph edges1 node.
Proof.
  intros Hne. unfold edges_to. induction edges1 as [|e rest IH]; simpl; [done|].
  destruct (N.eqb_spec (GetTarget graph e) node2) as [Heq|Hother]; simpl.
  - destruct (N.eqb_spec (GetTarget graph e) node); [congruence|]. done.
  - rewrite count_node_cons, IH. cbn [EdgeInfo.node edge_info].
    by destruct (GetTarget graph e =? node)%N.
Qed.

(** What [collect_edge_info_fn] returns. *)
Lemma collect_edge_info_fn_Ok edges1 node2 info :
  collect edges1 node2 = Ok info ->
  (pushed_infos edges1 node2 = [] /\ info = []) \/
  exists first rest out,
    std_sort_by_node (pushed_infos edges1 node2) = first :: rest /\
    merge_equal_infos [] first [] rest = Ok out /\
    info = merge_runs first rest.
Proof.
  unfold collect_edge_info_fn.
  destruct (push_edge_infos INVALID_NAMEID GetNameForID graph annotation edges1 node2 [])
    as [pushed| | |] eqn:Hpush; simpl; [|done..].
  apply push_edge_infos_Ok in Hpush. simpl in Hpush. subst pushed.
  case_bool_decide as Hempty.
  { intros [= <-]. by left. }
  destruct (std_sort_by_node (pushed_infos edges1 node2)) as [|first rest] eqn:Hsort.
  { exfalso. apply Hempty. apply Permutation_nil.
    by rewrite <- (std_sort_by_node_Permutation (pushed_infos edges1 node2)), Hsort. }
  destruct (merge_equal_infos [] first [] rest) as [out| | |] eqn:Hmerge; simpl; [|done..].
  intros [= <-]. right. exists first, rest, out. split; [done|]. split; [done|].
  by apply (merge_equal_infos_unique first [] rest out).
Qed.

(** The nodes of the vector that [collect_edge_info_fn] returns. *)
Lemma collect_edge_info_fn_nodes edges1 node2 info :
  collect edges1 node2 = Ok info ->
  StronglySorted node_lt info /\
  forall node,
    (exists i, i ∈ info /\ EdgeInfo.node i = node)
    <-> node <> node2 /\ exists e, e ∈ edges1 /\ GetTarget graph e = node.
Proof.
  intros [[Hpushed ->]|(first & rest & out & Hsort & Hmerge & ->)]%collect_edge_info_fn_Ok.
  - split; [constructor|]. intros node. split.
    + intros (i & Hi & _). by apply elem_of_nil in Hi.
    + intros (Hne & e & Hin & Htarget). exfalso.
      assert (Hx : info_of e ∈ pushed_infos edges1 node2).
      { apply elem_of_pushed_infos. exists e. split; [done|]. split; [congruence|done]. }
      rewrite Hpushed in Hx. by apply elem_of_nil in Hx.
  - pose proof (std_sort_by_node_sorted (pushed_infos edges1 node2)) as Hsorted.
    rewrite Hsort in Hsorted.
    split; [by apply merge_runs_strict|]. intros node. split.
    + intros (i & Hi & <-).
      destruct (merge_runs_nodes _ _ Hsorted i Hi) as (_ & x & Hx & Hxn & _).
      rewrite <- Hsort, (std_sort_by_node_Permutation (pushed_infos edges1 node2)) in Hx.
      apply elem_of_pushed_infos in Hx as (e & Hin & Htarget & ->).
      simpl in Hxn. rewrite <- Hxn. split; [done|]. by exists e.
    + intros (Hne & e & Hin & <-).
      assert (Hx : info_of e ∈ first :: rest).
      { rewrite <- Hsort, (std_sort_by_node_Permutation (pushed_infos edges1 node2)).
        apply elem_of_pushed_infos. by exists e. }
      destruct (merge_equal_infos_represents _ _ _ _ Hmerge _ Hx) as (kept & Hkept & Hn & _).
      by exists kept.
Qed.

Lemma node_lt_NoDup info :
  StronglySorted node_lt info -> NoDup (EdgeInfo.node <$> info).
Proof.
  induction 1 as [|x l Hs IH Hall]; [constructor|].
  rewrite fmap_cons. constructor; [|done].
  rewrite Forall_forall in Hall. unfold node_lt in Hall.
  intros (y & Hnode & Hy)%list_elem_of_fmap. specialize (Hall y Hy). lia.
Qed.

(** X21.  The vector [collect_edge_info_fn] returns has one info for each
    node that an edge of the range leads to, the node [node2] left out, and
    no other: its nodes are strictly ascending, so no two infos have the same
    node, and an empty range, or one that only leads to [node2], gives the
    empty vector. *)
Theorem collect_edge_info_nodes edges1 node2 info :
  collect edges1 node2 = Ok info ->
  StronglySorted node_lt info /\
  NoDup (EdgeInfo.node <$> info) /\
  (forall node,
     (exists i, i ∈ info /\ EdgeInfo.node i = node)
     <-> node <> node2 /\ exists e, e ∈ edges1 /\ GetTarget graph e = node) /\
  (info = [] <-> forall e, e ∈ edges1 -> GetTarget graph e = node2).
Proof.
  intros Hrun. destruct (collect_edge_info_fn_nodes _ _ _ Hrun) as [Hstrict Hnodes].
  split; [done|]. split; [by apply node_lt_NoDup|]. split; [done|]. split.
  - intros -> e Hin. destruct (decide (GetTarget graph e = node2)) as [|Hne]; [done|].
    destruct (proj2 (Hnodes (GetTarget graph e))) as (i & Hi & _).
    + split; [done|]. by exists e.
    + by apply elem_of_nil in Hi.
  - intros Hall. destruct info as [|i rest]; [done|]. exfalso.
    destruct (proj1 (Hnodes (EdgeInfo.node i))) as [Hne (e & Hin & Htarget)].
    + exists i. split; [by left|done].
    + apply Hne. rewrite <- Htarget. by apply Hall.
Qed.

(** X22.  An info that [collect_edge_info_fn] returns stands for all edges of
    the range that lead to its node: it is the info of one of them when there
    is one such edge, and the info of one of them with the direction 2 when
    there are more; and in a run that passes its assertions each of these
    edges has the name and the class mask of the info. *)
Theorem collect_edge_info_merged edges1 node2 info i :
  collect edges1 node2 = Ok info ->
  i ∈ info ->
  (exists e, e ∈ edges1 /\ GetTarget graph e = EdgeInfo.node i /\
     ((edges_to graph edges1 (EdgeInfo.node i) = 1 /\ i = info_of e) \/
      (2 <= edges_to graph edges1 (EdgeInfo.node i) /\
       i = set_direction 2 (info_of e)))) /\
  (forall e, e ∈ edges1 -> GetTarget graph e = EdgeInfo.node i ->
     EdgeInfo.name (info_of e) = EdgeInfo.name i /\
     EdgeInfo.road_class (info_of e) = EdgeInfo.road_class i).
Proof.
  intros Hrun Hi. pose proof (collect_edge_info_fn_nodes _ _ _ Hrun) as [Hstrict Hnodes].
  assert (Hne : EdgeInfo.node i <> node2).
  { apply (Hnodes (EdgeInfo.node i)). by exists i. }
  apply collect_edge_info_fn_Ok in Hrun
    as [[Hpushed ->]|(first & rest & out & Hsort & Hmerge & ->)].
  { by apply elem_of_nil in Hi. }
  pose proof (std_sort_by_node_sorted (pushed_infos edges1 node2)) as Hsorted.
  rewrite Hsort in Hsorted. split.
  - destruct (merge_runs_counts _ _ Hsorted i Hi) as (x & Hx & Hxn & Hcase).
    rewrite <- Hsort in Hx, Hcase.
    rewrite (count_node_Permutation _ _ _
               (std_sort_by_node_Permutation (pushed_infos edges1 node2))) in Hcase.
    rewrite count_node_pushed_infos in Hcase by done.
    rewrite (std_sort_by_node_Permutation (pushed_infos edges1 node2)) in Hx.
    apply elem_of_pushed_infos in Hx as (e & Hin & Htarget & ->).
    exists e. split; [done|]. split; [done|].
    destruct Hcase as [[Hi' Hc]|[Hi' Hc]]; [left|right]; by split.
  - intros e Hin Htarget.
    assert (Hx : info_of e ∈ first :: rest).
    { rewrite <- Hsort, (std_sort_by_node_Permutation (pushed_infos edges1 node2)).
      apply elem_of_pushed_infos. exists e. split; [done|]. split; [congruence|done]. }
    destruct (merge_equal_infos_represents _ _ _ _ Hmerge _ Hx)
      as (kept & Hkept & Hn & Hname & Hclass).
    assert (kept = i) as ->.
    { apply (node_lt_unique _ _ _ Hstrict Hkept Hi). simpl in Hn. congruence. }
    done.
Qed.
End CollectEdgeInfo.

(** *** The loops over the nodes and their edges *)

Section FindSegregatedNodesFacts.
Variable INVALID_NAMEID : N.
Variable GetNameForID : N -> string.
Variable get_edge_length : NodeID -> EdgeID -> NodeID -> float.
Variable std_sort : list EdgeInfo.t -> list EdgeInfo.t.
Variable std_sort_by_node : list EdgeInfo.t -> list EdgeInfo.t.
Variable graph : NodeBasedDynamicGraph.
Variable annotation : N -> NodeBasedEdgeAnnotation.t.

Abbreviation collect :=
  (collect_edge_info_fn INVALID_NAMEID GetNameForID std_sort_by_node graph annotation).
Abbreviation edge_is_segregated sourceID edgeID :=
  (isSegregatedFn INVALID_NAMEID GetNameForID std_sort std_sort_by_node graph annotation
     (GetEdgeData graph edgeID)
     (GetAdjacentEdgeRange graph sourceID) sourceID
     (GetAdjacentEdgeRange graph (GetTarget graph edgeID)) (GetTarget graph edgeID)
     (get_edge_length sourceID edgeID (GetTarget graph edgeID))).

Lemma isSegregatedFn_true edgeData edges1 node1 edges2 node2 edgeLength :
  isSegregatedFn INVALID_NAMEID GetNameForID std_sort std_sort_by_node graph annotation
    edgeData edges1 node1 edges2 node2 edgeLength = Ok true
  <-> exists v1 v2 current,
        collect edges1 node2 = Ok v1 /\
        collect edges2 node1 = Ok v2 /\
        get_edge_info INVALID_NAMEID GetNameForID annotation node1 edgeData = Ok current /\
        IsSegregated std_sort v1 v2 current edgeLength = true.
Proof.
  unfold isSegregatedFn. split.
  - destruct (collect edges1 node2) as [v1| | |]; simpl; [|done..].
    destruct (collect edges2 node1) as [v2| | |]; simpl; [|done..].
    destruct (get_edge_info INVALID_NAMEID GetNameForID annotation node1 edgeData)
      as [current| | |]; simpl; [|done..].
    intros [= Hrun]. by exists v1, v2, current.
  - intros (v1 & v2 & current & -> & -> & -> & Hrun). simpl. by rewrite Hrun.
Qed.

Lemma segregated_edges_of_source_Ok sourceID remaining segregated_edges result :
  segregated_edges_of_source INVALID_NAMEID GetNameForID get_edge_length std_sort
    std_sort_by_node graph annotation sourceID (GetAdjacentEdgeRange graph sourceID)
    remaining segregated_edges = Ok result ->
  forall edgeID,
    edgeID ∈ result
    <-> edgeID ∈ segregated_edges
        \/ (edgeID ∈ remaining /\
            NodeBasedEdgeData.reversed (GetEdgeData graph edgeID) = false /\
            edge_is_segregated sourceID edgeID = Ok true).
Proof.
  revert segregated_edges.
  induction remaining as [|e rest IH]; intros segregated_edges; simpl.
  - intros [= <-] edgeID. split; [by left|]. intros [?|[Hin _]]; [done|].
    by apply elem_of_nil in Hin.
  - destruct (NodeBasedEdgeData.reversed (GetEdgeData graph e)) eqn:Hreversed.
    + intros Hrun edgeID. rewrite (IH _ Hrun edgeID). split.
      * intros [?|(Hin & Hrev & Hseg)]; [by left|]. right. split; [by right|done].
      * intros [?|([->|Hin]%elem_of_cons & Hrev & Hseg)]; [by left|congruence|].
        right. done.
    + destruct (edge_is_segregated sourceID e) as [b| | |] eqn:Hseg; simpl; [|done..].
      intros Hrun edgeID. rewrite (IH _ Hrun edgeID). split.
      * intros [Hin|(Hin & Hrev & Hseg')].
        -- destruct b; [|by left].
           apply elem_of_union in Hin as [->%elem_of_singleton|Hin]; [|by left].
           right. split; [by left|done].
        -- right. split; [by right|done].
      * intros [Hin|([->|Hin]%elem_of_cons & Hrev & Hseg')].
        -- left. destruct b; [|done]. apply elem_of_union. by right.
        -- left. rewrite Hseg in Hseg'. injection Hseg' as ->.
           apply elem_of_union. left. by apply elem_of_singleton.
        -- right. done.
Qed.

Lemma segregated_edges_of_sources_Ok sources segregated_edges result :
  segregated_edges_of_sources INVALID_NAMEID GetNameForID get_edge_length std_sort
    std_sort_by_node graph annotation sources segregated_edges = Ok result ->
  forall edgeID,
    edgeID ∈ result
    <-> edgeID ∈ segregated_edges
        \/ exists sourceID, sourceID ∈ sources /\
             edgeID ∈ GetAdjacentEdgeRange graph sourceID /\
             NodeBasedEdgeData.reversed (GetEdgeData graph edgeID) = false /\
             edge_is_segregated sourceID edgeID = Ok true.
Proof.
  revert segregated_edges.
  induction sources as [|s rest IH]; intros segregated_edges; simpl.
  - intros [= <-] edgeID. split; [by left|]. intros [?|(? & Hin & _)]; [done|].
    by apply elem_of_nil in Hin.
  - destruct (segregated_edges_of_source INVALID_NAMEID GetNameForID get_edge_length
                std_sort std_sort_by_node graph annotation s
                (GetAdjacentEdgeRange graph s) (GetAdjacentEdgeRange graph s)
                segregated_edges) as [found| | |] eqn:Hsource; simpl; [|done..].
    intros Hrun edgeID. rewrite (IH _ Hrun edgeID).
    rewrite (segregated_edges_of_source_Ok _ _ _ _ Hsource edgeID). split.
    + intros [[?|Hfound]|(sourceID & Hin & Hrest)]; [by left| |].
      * right. exists s. split; [by left|done].
      * right. exists sourceID. split; [by right|done].
    + intros [?|(sourceID & [->|Hin]%elem_of_cons & Hrest)].
      * left. by left.
      * left. by right.
      * right. by exists sourceID.
Qed.

Lemma elem_of_node_range node : node ∈ node_range graph <-> (node < GetNumberOfNodes graph)%N.
Proof.
  unfold node_range. rewrite list_elem_of_fmap. split.
  - intros (i & -> & Hi%elem_of_seq). lia.
  - intros Hlt. exists (N.to_nat node). split; [by rewrite N2Nat.id|].
    apply elem_of_seq. lia.
Qed.

(** X23.  [FindSegregatedNodes] returns exactly the edges that leave a node
    of the graph, are not reversed, and for which [IsSegregated] holds of the
    infos collected at their two ends, of their own info and of their
    length. *)
Theorem FindSegregatedNodes_flags segregated_edges :
  FindSegregatedNodes INVALID_NAMEID GetNameForID get_edge_length std_sort
    std_sort_by_node graph annotation = Ok segregated_edges ->
  forall edgeID,
    edgeID ∈ segregated_edges
    <-> exists sourceID v1 v2 current,
          (sourceID < GetNumberOfNodes graph)%N /\
          edgeID ∈ GetAdjacentEdgeRange graph sourceID /\
          NodeBasedEdgeData.reversed (GetEdgeData graph edgeID) = false /\
          collect (GetAdjacentEdgeRange graph sourceID) (GetTarget graph edgeID) = Ok v1 /\
          collect (GetAdjacentEdgeRange graph (GetTarget graph edgeID)) sourceID = Ok v2 /\
          get_edge_info INVALID_NAMEID GetNameForID annotation sourceID
            (GetEdgeData graph edgeID) = Ok current /\
          IsSegregated std_sort v1 v2 current
            (get_edge_length sourceID edgeID (GetTarget graph edgeID)) = true.
Proof.
  intros Hrun edgeID. unfold FindSegregatedNodes in Hrun.
  rewrite (segregated_edges_of_sources_Ok _ _ _ Hrun edgeID). split.
  - intros [Hin|(sourceID & Hin & Hrange & Hrev & Hseg)]; [by apply elem_of_empty in Hin|].
    apply isSegregatedFn_true in Hseg as (v1 & v2 & current & Hv1 & Hv2 & Hcurrent & Hseg).
    exists sourceID, v1, v2, current. split; [by apply elem_of_node_range|done].
  - intros (sourceID & v1 & v2 & current & Hlt & Hrange & Hrev & Hv1 & Hv2 & Hcurrent & Hseg).
    right. exists sourceID. split; [by apply elem_of_node_range|].
    split; [done|]. split; [done|]. apply isSegregatedFn_true. by exists v1, v2, current.
Qed.

(** *** Assertions, and nothing thrown *)









End FindSegregatedNodesFacts.

(** *** What a segregated edge needs *)

Lemma node_lt_two_nodes info :
  StronglySorted node_lt info -> 2 <= length info ->
  exists i j, i ∈ info /\ j ∈ info /\ EdgeInfo.node i <> EdgeInfo.node j.
Proof.
  intros Hsorted Hlen. destruct info as [|i [|j rest]]; simpl in Hlen; [lia..|].
  exists i, j. split; [by left|]. split; [right; by left|].
  apply StronglySorted_inv in Hsorted as [_ Hall].
  apply Forall_cons in Hall as [Hij _]. unfold node_lt in Hij. lia.
Qed.

Lemma IsSegregated_true_lengths std_sort v1 v2 current edgeLength :
  IsSegregated std_sort v1 v2 current edgeLength = true ->
  2 <= length v1 /\ 2 <= length v2.
Proof.
  unfold IsSegregated.
  destruct (Nat.ltb_spec (length v1) 2); simpl; [done|].
  destruct (Nat.ltb_spec (length v2) 2); simpl; [done|]. lia.
Qed.

Section SegregatedEdges.
Variable INVALID_NAMEID : N.
Variable GetNameForID : N -> string.
Variable get_edge_length : NodeID -> EdgeID -> NodeID -> float.
Variable std_sort : list EdgeInfo.t -> list EdgeInfo.t.
Variable std_sort_by_node : list EdgeInfo.t -> list EdgeInfo.t.
Variable graph : NodeBasedDynamicGraph.
Variable annotation : N -> NodeBasedEdgeAnnotation.t.
Hypothesis std_sort_Permutation : forall v, std_sort v ≡ₚ v.
Hypothesis std_sort_sorted : forall v, sorted_by_name (std_sort v).
Hypothesis std_sort_by_node_Permutation : forall v, std_sort_by_node v ≡ₚ v.
Hypothesis std_sort_by_node_sorted : forall v, sorted_by_node (std_sort_by_node v).

Lemma IsSegregated_true_at_most_60 v1 v2 current edgeLength :
  IsSegregated std_sort v1 v2 current edgeLength = true ->
  PrimFloat.ltb 60 edgeLength = false.
Proof.
  intros Hrun.
  apply (IsSegregated_by_gates std_sort std_sort_Permutation std_sort_sorted)
    in Hrun as [(_ & Hcommons & _) Hle].
  destruct (length_threshold_pair (common_pairs (std_sort v1) (std_sort v2)))
    as (m & Hm & Hthreshold).
  { intros Hnil. rewrite Hnil in Hcommons. simpl in Hcommons. lia. }
  unfold double_le in Hle. rewrite Hthreshold in Hle.
  by apply (pair_threshold_at_most_60 edgeLength m).
Qed.

Lemma collected_two_other_neighbours node other info :
  collect_edge_info_fn INVALID_NAMEID GetNameForID std_sort_by_node graph annotation
    (GetAdjacentEdgeRange graph node) other = Ok info ->
  2 <= length info ->
  two_other_neighbours graph node other.
Proof.
  intros Hrun Hlen.
  destruct (collect_edge_info_fn_nodes INVALID_NAMEID GetNameForID std_sort_by_node graph
              annotation std_sort_by_node_Permutation std_sort_by_node_sorted _ _ _ Hrun)
    as [Hstrict Hnodes].
  destruct (node_lt_two_nodes info Hstrict Hlen) as (i & j & Hi & Hj & Hij).
  destruct (proj1 (Hnodes (EdgeInfo.node i)) ltac:(by exists i)) as [Hio Hie].
  destruct (proj1 (Hnodes (EdgeInfo.node j)) ltac:(by exists j)) as [Hjo Hje].
  by exists (EdgeInfo.node i), (EdgeInfo.node j).
Qed.

Lemma three_edges_of_range (edges : list EdgeID) (e ea eb : EdgeID) :
  e ∈ edges -> ea ∈ edges -> eb ∈ edges -> e <> ea -> e <> eb -> ea <> eb ->
  3 <= length edges.
Proof.
  intros He Hea Heb Hne1 Hne2 Hne3.
  change 3 with (length [e; ea; eb]). apply submseteq_length, NoDup_submseteq.
  - apply NoDup_cons. split.
    + intros [Heq|[Heq|Hx]%elem_of_cons]%elem_of_cons;
        [done|done|by apply elem_of_nil in Hx].
    + apply NoDup_cons. split; [|apply NoDup_singleton].
      intros Heq%list_elem_of_singleton. done.
  - intros x Hx. repeat (apply elem_of_cons in Hx as [->|Hx]; [done|]).
    by apply elem_of_nil in Hx.
Qed.

(** X24.  An edge that [FindSegregatedNodes] returns leaves a node of the
    graph, is not reversed and is not longer than 60; and at each of its two
    ends the graph has edges to at least two different nodes other than the
    opposite end, so that at least three edges leave its source.  A dead end
    or a node in the middle of a plain chain is the source of no segregated
    edge. *)
Theorem FindSegregatedNodes_needs segregated_edges edgeID :
  FindSegregatedNodes INVALID_NAMEID GetNameForID get_edge_length std_sort
    std_sort_by_node graph annotation = Ok segregated_edges ->
  edgeID ∈ segregated_edges ->
  exists sourceID,
    (sourceID < GetNumberOfNodes graph)%N /\
    edgeID ∈ GetAdjacentEdgeRange graph sourceID /\
    NodeBasedEdgeData.reversed (GetEdgeData graph edgeID) = false /\
    PrimFloat.ltb 60 (get_edge_length sourceID edgeID (GetTarget graph edgeID)) = false /\
    two_other_neighbours graph sourceID (GetTarget graph edgeID) /\
    two_other_neighbours graph (GetTarget graph edgeID) sourceID /\
    3 <= length (GetAdjacentEdgeRange graph sourceID).
Proof.
  intros Hrun Hin. unfold FindSegregatedNodes in Hrun.
  apply (segregated_edges_of_sources_Ok _ _ _ _ _ _ _ _ _ _ Hrun) in Hin
    as [Hin|(sourceID & Hsource & Hrange & Hrev & Hseg)];
    [by apply elem_of_empty in Hin|].
  apply isSegregatedFn_true in Hseg as (v1 & v2 & current & Hv1 & Hv2 & Hcurrent & Hseg).
  destruct (IsSegregated_true_lengths _ _ _ _ _ Hseg) as [Hlen1 Hlen2].
  pose proof (collected_two_other_neighbours _ _ _ Hv1 Hlen1) as Hsource_end.
  exists sourceID. split; [by apply elem_of_node_range|].
  split; [done|]. split; [done|].
  split; [by eapply IsSegregated_true_at_most_60|].
  split; [done|]. split; [by eapply collected_two_other_neighbours|].
  destruct Hsource_end as (a & b & Hab & Ha & Hb & (ea & Hea & Hta) & (eb & Heb & Htb)).
  apply (three_edges_of_range _ edgeID ea eb); try done; congruence.
Qed.
End SegregatedEdges.

(** *** The cross street in the graph of the example *)

#[global] Instance node_le_trans : Transitive node_le.
Proof. intros a b c. unfold node_le. lia. Qed.

#[global] Instance node_le_total : Total node_le.
Proof. intros a b. unfold node_le. lia. Qed.

Lemma merge_sort_by_node_Permutation v : merge_sort_by_node v ≡ₚ v.
Proof. apply merge_sort_Permutation. Qed.

Lemma merge_sort_by_node_sorted v : sorted_by_node (merge_sort_by_node v).
Proof.
  pose proof (StronglySorted_merge_sort node_le v) as Hs.
  fold (merge_sort_by_node v) in Hs. unfold sorted_by_node.
  induction Hs as [|x l Hs IH Hall]; constructor; [done|].
  eapply Forall_impl; [exact Hall|]. intros y Hxy. by apply N.ltb_ge.
Qed.

Example FindSegregatedNodes_example :
  collect_edge_info_fn example_INVALID_NAMEID example_GetNameForID merge_sort_by_node
    example_graph example_annotation [0; 1; 2; 3; 4]%N 1%N = Ok example_collected
  /\ FindSegregatedNodes example_INVALID_NAMEID example_GetNameForID
       example_get_edge_length merge_sort_by_name merge_sort_by_node
       example_graph example_annotation = Ok {[0%N]}
  /\ FindSegregatedNodes example_INVALID_NAMEID example_GetNameForID
       (fun _ _ _ => 21%float) merge_sort_by_name merge_sort_by_node
       example_graph example_annotation = Ok ∅
  /\ FindSegregatedNodes 2%N example_GetNameForID
       example_get_edge_length merge_sort_by_name merge_sort_by_node
       example_graph example_annotation = AssertionFailed.
Proof. vm_compute. repeat split. Qed.

Lemma collect_edge_info_nodes_witness :
  StronglySorted node_lt example_collected /\
  NoDup (EdgeInfo.node <$> example_collected) /\
  (forall node,
     (exists i, i ∈ example_collected /\ EdgeInfo.node i = node)
     <-> node <> 1%N /\ exists e, e ∈ [0; 1; 2; 3; 4]%N /\ GetTarget example_graph e = node) /\
  (example_collected = []
   <-> forall e, e ∈ [0; 1; 2; 3; 4]%N -> GetTarget example_graph e = 1%N).
Proof.
  apply (collect_edge_info_nodes example_INVALID_NAMEID example_GetNameForID
           merge_sort_by_node example_graph example_annotation
           merge_sort_by_node_Permutation merge_sort_by_node_sorted
           [0; 1; 2; 3; 4]%N 1%N example_collected).
  vm_compute. reflexivity.
Defined.

Lemma collect_edge_info_merged_witness :
  let i := set_direction 2 (example_edge 2%N "Broadway" PRIMARY) in
  (exists e, e ∈ [0; 1; 2; 3; 4]%N /\ GetTarget example_graph e = EdgeInfo.node i /\
     ((edges_to example_graph [0; 1; 2; 3; 4]%N (EdgeInfo.node i) = 1 /\
       i = edge_info example_GetNameForID example_annotation
             (GetTarget example_graph e) (GetEdgeData example_graph e)) \/
      (2 <= edges_to example_graph [0; 1; 2; 3; 4]%N (EdgeInfo.node i) /\
       i = set_direction 2
             (edge_info example_GetNameForID example_annotation
                (GetTarget example_graph e) (GetEdgeData example_graph e))))) /\
  (forall e, e ∈ [0; 1; 2; 3; 4]%N -> GetTarget example_graph e = EdgeInfo.node i ->
     EdgeInfo.name (edge_info example_GetNameForID example_annotation
                      (GetTarget example_graph e) (GetEdgeData example_graph e))
     = EdgeInfo.name i /\
     EdgeInfo.road_class (edge_info example_GetNameForID example_annotation
                            (GetTarget example_graph e) (GetEdgeData example_graph e))
     = EdgeInfo.road_class i).
Proof.
  apply (collect_edge_info_merged example_INVALID_NAMEID example_GetNameForID
           merge_sort_by_node example_graph example_annotation
           merge_sort_by_node_Permutation merge_sort_by_node_sorted
           [0; 1; 2; 3; 4]%N 1%N example_collected).
  - vm_compute. reflexivity.
  - left.
Defined.

Lemma FindSegregatedNodes_flags_witness :
  let edgeID := 0%N in
    edgeID ∈ ({[0%N]} : gset N)
    <-> exists sourceID v1 v2 current,
          (sourceID < GetNumberOfNodes example_graph)%N /\
          edgeID ∈ GetAdjacentEdgeRange example_graph sourceID /\
          NodeBasedEdgeData.reversed (GetEdgeData example_graph edgeID) = false /\
          collect_edge_info_fn example_INVALID_NAMEID example_GetNameForID
            merge_sort_by_node example_graph example_annotation
            (GetAdjacentEdgeRange example_graph sourceID)
            (GetTarget example_graph edgeID) = Ok v1 /\
          collect_edge_info_fn example_INVALID_NAMEID example_GetNameForID
            merge_sort_by_node example_graph example_annotation
            (GetAdjacentEdgeRange example_graph (GetTarget example_graph edgeID))
            sourceID = Ok v2 /\
          get_edge_info example_INVALID_NAMEID example_GetNameForID example_annotation
            sourceID (GetEdgeData example_graph edgeID) = Ok current /\
          IsSegregated merge_sort_by_name v1 v2 current
            (example_get_edge_length sourceID edgeID (GetTarget example_graph edgeID))
          = true.
Proof.
  apply (FindSegregatedNodes_flags example_INVALID_NAMEID example_GetNameForID
           example_get_edge_length merge_sort_by_name merge_sort_by_node
           example_graph example_annotation {[0%N]}).
  vm_compute. reflexivity.
Defined.

Lemma FindSegregatedNodes_needs_witness :
  exists sourceID,
    (sourceID < GetNumberOfNodes example_graph)%N /\
    0%N ∈ GetAdjacentEdgeRange example_graph sourceID /\
    NodeBasedEdgeData.reversed (GetEdgeData example_graph 0%N) = false /\
    PrimFloat.ltb 60 (example_get_edge_length sourceID 0%N (GetTarget example_graph 0%N))
    = false /\
    two_other_neighbours example_graph sourceID (GetTarget example_graph 0%N) /\
    two_other_neighbours example_graph (GetTarget example_graph 0%N) sourceID /\
    3 <= length (GetAdjacentEdgeRange example_graph sourceID).
Proof.
  apply (FindSegregatedNodes_needs example_INVALID_NAMEID example_GetNameForID
           example_get_edge_length merge_sort_by_name merge_sort_by_node
           example_graph example_annotation
           merge_sort_by_name_Permutation merge_sort_by_name_sorted
           merge_sort_by_node_Permutation merge_sort_by_node_sorted {[0%N]} 0%N).
  - vm_compute. reflexivity.
  - by apply elem_of_singleton.
Defined.

(** ** WriteCompressedNodeBasedGraph *)

Lemma read_edges_written (pairs : list (NodeID * NodeID)) (rest : list written) :
  read_edges (length pairs)
    (flat_map (fun pair => [WrittenNodeID pair.1; WrittenNodeID pair.2]) pairs ++ rest)
  = Some (pairs, rest).
Proof.
  induction pairs as [|[from_node to_node] pairs IH]; simpl; [done|].
  by rewrite IH.
Qed.

Lemma read_coordinates_written (coordinates : list Coordinate.t) (rest : list written) :
  read_coordinates (length coordinates) (write_coordinates coordinates ++ rest)
  = Some (coordinates, rest).
Proof.
  unfold write_coordinates.
  induction coordinates as [|[lon lat] coordinates IH]; simpl; [done|].
  by rewrite IH.
Qed.

Lemma write_edges_pairs graph :
  write_edges graph
  = flat_map (fun pair => [WrittenNodeID pair.1; WrittenNodeID pair.2]) (edge_pairs graph).
Proof.
  unfold write_edges, edge_pairs.
  induction (node_range graph) as [|from_node nodes IH]; simpl; [done|].
  rewrite flat_map_app, IH. f_equal.
  induction (GetAdjacentEdgeRange graph from_node) as [|edge edges IHe]; simpl; [done|].
  by rewrite IHe.
Qed.

(** X25.  The file of [WriteCompressedNodeBasedGraph] can be read back: when
    the number of edges of the graph is the number of edges in the adjacent
    edge ranges of its nodes, a reader of the layout "fingerprint, number of
    edges, number of nodes, edges, coordinates" gets the (from, to) pairs of
    the graph, node by node, and the coordinates, and is then at the end of
    the file.  The run fails its assertion exactly when the graph has not as
    many nodes as there are coordinates. *)
Theorem WriteCompressedNodeBasedGraph_read_back graph coordinates :
  (WriteCompressedNodeBasedGraph graph coordinates = AssertionFailed
   <-> GetNumberOfNodes graph <> N.of_nat (length coordinates)) /\
  (forall file,
     WriteCompressedNodeBasedGraph graph coordinates = Ok file ->
     GetNumberOfEdges graph = N.of_nat (length (edge_pairs graph)) ->
     read_compressed_node_based_graph file = Some (edge_pairs graph, coordinates)).
Proof.
  unfold WriteCompressedNodeBasedGraph.
  destruct (N.eqb_spec (GetNumberOfNodes graph) (N.of_nat (length coordinates)))
    as [Hnodes|Hnodes]; simpl; [|done].
  split; [done|]. intros file [= <-] Hedges. simpl.
  rewrite Hedges, Hnodes, !Nat2N.id, write_edges_pairs, read_edges_written.
  rewrite <- (app_nil_r (write_coordinates coordinates)), read_coordinates_written.
  done.
Qed.

Lemma WriteCompressedNodeBasedGraph_read_back_witness :
  match WriteCompressedNodeBasedGraph example_graph example_coordinates with
  | Ok file =>
      read_compressed_node_based_graph file
      = Some (edge_pairs example_graph, example_coordinates)
  | _ => False
  end.
Proof.
  destruct (WriteCompressedNodeBasedGraph example_graph example_coordinates)
    as [file| | |] eqn:Hrun; [|by vm_compute in Hrun..].
  apply (proj2 (WriteCompressedNodeBasedGraph_read_back example_graph example_coordinates)
           file Hrun).
  reflexivity.
Defined.

(** ** FindComponents without a turn *)

Section FindComponentsIsolated.
Context `{TarjanSCC}.
Variable small_component_size : N.

Lemma mate_edges_disabled input_node_segments :
  Forall (fun segment =>
            SegmentID.enabled (EdgeBasedNodeSegment.reverse_segment_id segment) = false)
    input_node_segments ->
  mate_edges input_node_segments = [].
Proof.
  induction 1 as [|segment rest Hdisabled Hall IH]; [done|].
  unfold mate_edges in *. simpl. by rewrite Hdisabled, IH.
Qed.

(** X26.  Without edge-based edges and without a segment whose reverse id is
    enabled every node is a component of its own: any two different nodes
    below [number_of_edge_based_nodes] get different component ids, and a
    node is tiny exactly when 1 is less than [small_component_size]. *)
Theorem FindComponents_isolated n input_node_segments nodes_container result a b :
  FindComponents small_component_size n [] input_node_segments nodes_container
  = Ok result ->
  Forall (fun segment =>
            SegmentID.enabled (EdgeBasedNodeSegment.reverse_segment_id segment) = false)
    input_node_segments ->
  (n < 2 ^ 32)%N ->
  (a < n)%N -> (b < n)%N -> a <> b ->
  exists node_a node_b,
    nodes result !! N.to_nat a = Some node_a /\
    nodes result !! N.to_nat b = Some node_b /\
    ComponentID.id (EdgeBasedNode.component_id node_a)
    <> ComponentID.id (EdgeBasedNode.component_id node_b) /\
    ComponentID.is_tiny (EdgeBasedNode.component_id node_a)
    = (1 <? small_component_size)%N.
Proof.
  intros Hrun Hdisabled Hn Ha Hb Hab.
  destruct (FindComponents_Ok _ _ _ _ _ _ Hrun Hn) as (_ & _ & Hwf & Hroom & Hnodes).
  set (g := scc_graph n [] input_node_segments) in *.
  assert (Hno_edge : forall x y, ~ has_edge g x y).
  { intros x y Hxy. unfold has_edge, g, scc_graph in Hxy. simpl in Hxy.
    rewrite (mate_edges_disabled _ Hdisabled) in Hxy.
    apply elem_of_std_unique, elem_of_parallel_sort in Hxy. by apply elem_of_nil in Hxy. }
  assert (Hconnected : forall x y, strongly_connected g x y -> x = y).
  { intros x y [Hxy _]. destruct Hxy as [|x z y Hxz _]; [done|]. by apply Hno_edge in Hxz. }
  destruct (lookup_lt_is_Some_2 (nodes nodes_container) (N.to_nat a)) as [na Hna]; [lia|].
  destruct (lookup_lt_is_Some_2 (nodes nodes_container) (N.to_nat b)) as [nb Hnb]; [lia|].
  eexists _, _. split; [by apply Hnodes|]. split; [by apply Hnodes|].
  rewrite !N2Nat.id. repeat (case_decide; [|lia]). simpl.
  pose proof (GetComponentID_bound g a Hwf Ha) as Hida.
  pose proof (GetComponentID_bound g b Hwf Hb) as Hidb.
  simpl in Hida, Hidb. split.
  - unfold wrap32. rewrite !N.mod_small by lia. intros Hsame.
    apply Hab, Hconnected, (GetComponentID_spec g a b Hwf Ha Hb). lia.
  - rewrite (GetComponentSize_spec g a Hwf Ha).
    rewrite (is_component_of_length g a _ [a] (same_index_is_component g a Hwf Ha)); [done|].
    split; [apply NoDup_singleton|]. intros c. rewrite list_elem_of_singleton. split.
    + intros ->. split; [done|]. split; apply rtc_refl.
    + intros [_ Hc]. symmetry. by apply Hconnected.
Qed.
End FindComponentsIsolated.

Lemma FindComponents_isolated_witness :
  exists node_a node_b,
    nodes {| nodes := [example_node 0 1 true; example_node 1 2 true;
                       example_node 2 3 true; example_node 3 4 true] |}
      !! N.to_nat 0 = Some node_a /\
    nodes {| nodes := [example_node 0 1 true; example_node 1 2 true;
                       example_node 2 3 true; example_node 3 4 true] |}
      !! N.to_nat 1 = Some node_b /\
    ComponentID.id (EdgeBasedNode.component_id node_a)
    <> ComponentID.id (EdgeBasedNode.component_id node_b) /\
    ComponentID.is_tiny (EdgeBasedNode.component_id node_a) = (1 <? 3)%N.
Proof.
  apply (@FindComponents_isolated naive_TarjanSCC 3 4
           [example_segment 0 1 false; example_segment 2 3 false]
           example_nodes_container
           {| nodes := [example_node 0 1 true; example_node 1 2 true;
                        example_node 2 3 true; example_node 3 4 true] |} 0 1).
  - vm_compute. reflexivity.
  - repeat constructor.
  - lia.
  - lia.
  - lia.
  - lia.
Defined.

(** ** The relation pre-pass of ParseOSMData *)

(** *** Binary search with a comparison *)

Section BinarySearchFacts.
Context {A : Type}.
Variable comp : A -> A -> bool.
Hypothesis comp_trans : forall a b c, comp b a = false -> comp c b = false -> comp c a = false.

Lemma std_lower_bound_S fuel (v : list A) value first len :
  std_lower_bound comp (S fuel) v value first len =
  if len =? 0 then first
  else
    match v !! (first + len / 2) with
    | Some e =>
        if comp e value
        then std_lower_bound comp fuel v value (S (first + len / 2)) (len - len / 2 - 1)
        else std_lower_bound comp fuel v value first (len / 2)
    | None => first
    end.
Proof. reflexivity. Qed.

Lemma sorted_lookup (v : list A) i j a b :
  StronglySorted (fun e1 e2 => comp e2 e1 = false) v ->
  i < j -> v !! i = Some a -> v !! j = Some b -> comp b a = false.
Proof.
  intros Hs. revert i j.
  induction Hs as [|x l Hs IH Hall]; intros i j Hij Hi Hj.
  - by rewrite lookup_nil in Hi.
  - destruct j as [|j]; [lia|]. simpl in Hj. destruct i as [|i]; simpl in Hi.
    + injection Hi as <-. rewrite Forall_forall in Hall. apply Hall.
      by eapply list_elem_of_lookup_2.
    + apply (IH i j); [lia|done..].
Qed.

Lemma std_lower_bound_spec (v : list A) value fuel first len :
  StronglySorted (fun e1 e2 => comp e2 e1 = false) v ->
  len <= fuel ->
  first + len <= length v ->
  (forall i e, i < first -> v !! i = Some e -> comp e value = true) ->
  (forall i e, first + len <= i -> v !! i = Some e -> comp e value = false) ->
  let r := std_lower_bound comp fuel v value first len in
  (forall i e, i < r -> v !! i = Some e -> comp e value = true) /\
  (forall i e, r <= i -> v !! i = Some e -> comp e value = false).
Proof.
  intros Hsorted. revert first len.
  induction fuel as [|fuel IH]; intros first len Hfuel Hrange Hbelow Habove; cbv zeta.
  - assert (len = 0) as -> by lia. rewrite Nat.add_0_r in Habove. done.
  - rewrite std_lower_bound_S. destruct (Nat.eqb_spec len 0) as [->|Hpos].
    { rewrite Nat.add_0_r in Habove. done. }
    pose proof (Nat.div_lt len 2 ltac:(lia) ltac:(lia)) as Hhalf.
    destruct (lookup_lt_is_Some_2 v (first + len / 2) ltac:(lia)) as [m Hm].
    rewrite Hm. destruct (comp m value) eqn:Hless.
    + apply IH; [lia|lia| |].
      * intros i e Hi He. destruct (decide (i = first + len / 2)) as [->|Hne].
        -- congruence.
        -- destruct (comp e value) eqn:Hcomp; [done|]. exfalso.
           assert (comp m e = false)
             by (apply (sorted_lookup v i (first + len / 2)); [done|lia|done..]).
           rewrite (comp_trans value e m) in Hless; done.
      * intros i e Hi He. apply (Habove i e); [lia|done].
    + apply IH; [lia|lia|done|].
      intros i e Hi He. destruct (decide (i = first + len / 2)) as [->|Hne].
      * congruence.
      * apply (comp_trans value m e); [done|].
        apply (sorted_lookup v (first + len / 2) i); [done|lia|done..].
Qed.

(** On a sorted vector the search finds exactly the values that have an
    equivalent element. *)
Lemma std_binary_search_spec (v : list A) value :
  StronglySorted (fun e1 e2 => comp e2 e1 = false) v ->
  (std_binary_search comp v value = true
   <-> exists e, e ∈ v /\ comp e value = false /\ comp value e = false).
Proof.
  intros Hsorted. unfold std_binary_search.
  destruct (std_lower_bound_spec v value (length v) 0 (length v) Hsorted)
    as [Hbelow Habove]; [lia|lia|intros; lia| |].
  { intros i e Hi He. apply lookup_lt_Some in He. simpl in Hi. lia. }
  set (r := std_lower_bound comp (length v) v value 0 (length v)) in *.
  split.
  - destruct (v !! r) as [e|] eqn:Hr; [|done].
    intros Hnot%negb_true_iff.
    exists e. split; [by eapply list_elem_of_lookup_2|]. split; [|done].
    by apply (Habove r e).
  - intros (e & Hin & Hle & Hge). apply list_elem_of_lookup_1 in Hin as [i Hi].
    assert (Hir : r <= i).
    { destruct (decide (r <= i)); [done|]. exfalso.
      assert (comp e value = true) by (apply (Hbelow i e); [lia|done]). congruence. }
    destruct (lookup_lt_is_Some_2 v r) as [m Hm].
    { apply lookup_lt_Some in Hi. lia. }
    rewrite Hm. apply negb_true_iff.
    destruct (decide (r = i)) as [->|Hne].
    + assert (m = e) as -> by congruence. done.
    + apply (comp_trans m e value); [|done].
      apply (sorted_lookup v r i); [done|lia|done..].
Qed.
End BinarySearchFacts.

Lemma String_ltb_trans (a b c : string) :
  String.ltb b a = false -> String.ltb c b = false -> String.ltb c a = false.
Proof.
  rewrite !String_ltb_leb, !negb_false_iff, <- !Is_true_true.
  change (String.le a b -> String.le b c -> String.le a c).
  intros Hab Hbc. by trans b.
Qed.

Lemma String_ltb_equal (a b : string) :
  String.ltb a b = false /\ String.ltb b a = false <-> a = b.
Proof.
  split.
  - intros [Hab Hba]. destruct (String.eqb_spec a b) as [|Hne]; [done|].
    apply String.eqb_neq in Hne. rewrite (String_ltb_total a b Hne Hab) in Hba. done.
  - intros ->. rewrite String_ltb_leb.
    assert (String.leb b b = true) as ->; [|done].
    apply Is_true_true. change (String.le b b). done.
Qed.

(** In a sorted vector of strings the search finds the strings that occur. *)
Lemma string_binary_search_spec (v : list string) (value : string) :
  sorted_strings v ->
  (std_binary_search String.ltb v value = true <-> value ∈ v).
Proof.
  intros Hsorted.
  rewrite (std_binary_search_spec String.ltb String_ltb_trans v value Hsorted). split.
  - intros (e & Hin & Hle & Hge).
    by rewrite <- (proj1 (String_ltb_equal e value) (conj Hle Hge)).
  - intros Hin. exists value. split; [done|]. by apply String_ltb_equal.
Qed.

Lemma merge_sort_strings_Permutation v : merge_sort_strings v ≡ₚ v.
Proof. apply merge_sort_Permutation. Qed.

Lemma merge_sort_strings_sorted v : sorted_strings (merge_sort_strings v).
Proof.
  pose proof (StronglySorted_merge_sort String.le v) as Hs.
  fold (merge_sort_strings v) in Hs. unfold sorted_strings.
  induction Hs as [|x l Hs IH Hall]; constructor; [done|].
  eapply Forall_impl; [exact Hall|]. intros y Hxy.
  rewrite String_ltb_leb. by apply negb_false_iff, Is_true_true.
Qed.

(** *** The relations that are kept *)

Lemma add_members_spec members extracted_rel relations :
  add_members members extracted_rel relations
  = ({| ExtractionRelation.id := ExtractionRelation.id extracted_rel;
        ExtractionRelation.attributes := ExtractionRelation.attributes extracted_rel;
        ExtractionRelation.members :=
          ExtractionRelation.members extracted_rel
          ++ ((fun m => ((RelationMember.ref m, RelationMember.type m),
                         RelationMember.role m)) <$> members) |},
     {| ExtractionRelationContainer.relations_data :=
          ExtractionRelationContainer.relations_data relations;
        ExtractionRelationContainer.parents :=
          ExtractionRelationContainer.parents relations
          ++ ((fun m => ((RelationMember.ref m, RelationMember.type m),
                         ExtractionRelation.id extracted_rel)) <$> members) |}).
Proof.
  revert extracted_rel relations.
  induction members as [|m rest IH]; intros extracted_rel relations.
  - simpl. rewrite !app_nil_r. by destruct extracted_rel, relations.
  - simpl. rewrite IH. simpl. by rewrite <- !app_assoc.
Qed.

Lemma cache_relations_cons relation_types entity rest relations :
  cache_relations relation_types (entity :: rest) relations
  = if negb (item_type.is_relation (OSMEntity.type entity))
    then cache_relations relation_types rest relations
    else
      match get_value_by_key (OSMEntity.tags entity) "type" with
      | None => cache_relations relation_types rest relations
      | Some rel_type =>
          if negb (std_binary_search String.ltb relation_types rel_type)
          then cache_relations relation_types rest relations
          else
            let extracted_rel :=
              {| ExtractionRelation.id := (OSMEntity.id entity, item_type.relation);
                 ExtractionRelation.attributes := OSMEntity.tags entity;
                 ExtractionRelation.members := [] |} in
            let '(extracted_rel, relations) :=
              add_members (OSMEntity.members entity) extracted_rel relations in
            cache_relations relation_types rest
              (ExtractionRelationContainer.AddRelation extracted_rel relations)
      end.
Proof. reflexivity. Qed.

Lemma supported_relation_eq GetRelations entity :
  supported_relation GetRelations entity
  = item_type.is_relation (OSMEntity.type entity)
    && match get_value_by_key (OSMEntity.tags entity) "type" with
       | Some rel_type => bool_decide (rel_type ∈ GetRelations)
       | None => false
       end.
Proof. reflexivity. Qed.

Lemma cache_relations_spec relation_types GetRelations buffer relations :
  (forall rel_type, std_binary_search String.ltb relation_types rel_type = true
                    <-> rel_type ∈ GetRelations) ->
  let kept := extracted_relation
                <$> List.filter (supported_relation GetRelations) buffer in
  cache_relations relation_types buffer relations
  = {| ExtractionRelationContainer.relations_data :=
         ExtractionRelationContainer.relations_data relations ++ kept;
       ExtractionRelationContainer.parents :=
         ExtractionRelationContainer.parents relations
         ++ flat_map membership_pairs kept |}.
Proof.
  intros Hsearch. cbv zeta. revert relations.
  induction buffer as [|entity rest IH]; intros relations.
  - simpl. rewrite !app_nil_r. by destruct relations.
  - rewrite cache_relations_cons. cbn [List.filter]. rewrite supported_relation_eq.
    destruct (item_type.is_relation (OSMEntity.type entity)); cbn [negb andb];
      [|apply IH].
    destruct (get_value_by_key (OSMEntity.tags entity) "type") as [rel_type|];
      [|apply IH].
    destruct (std_binary_search String.ltb relation_types rel_type) eqn:Hfound;
      cbn [negb].
    + rewrite bool_decide_eq_true_2 by (by apply Hsearch).
      cbv zeta. rewrite add_members_spec, IH. simpl. rewrite <- !app_assoc. simpl.
      f_equal. f_equal. f_equal. unfold membership_pairs. simpl.
      by rewrite <- list_fmap_compose.
    + rewrite bool_decide_eq_false_2; [apply IH|].
      intros Hin%Hsearch. congruence.
Qed.

Section RelationsPipelineFacts.
Variable std_sort_strings : list string -> list string.
Hypothesis std_sort_strings_Permutation : forall v, std_sort_strings v ≡ₚ v.
Hypothesis std_sort_strings_sorted : forall v, sorted_strings (std_sort_strings v).

Lemma relations_pipeline_spec relation_types GetRelations buffers number_of_relations
    relations :
  (forall rel_type, std_binary_search String.ltb relation_types rel_type = true
                    <-> rel_type ∈ GetRelations) ->
  (number_of_relations < 2 ^ 32)%N ->
  let kept := extracted_relation
                <$> List.filter (supported_relation GetRelations) (concat buffers) in
  relations_pipeline relation_types buffers number_of_relations relations
  = (wrap32 (number_of_relations + N.of_nat (length kept)),
     {| ExtractionRelationContainer.relations_data :=
          ExtractionRelationContainer.relations_data relations ++ kept;
        ExtractionRelationContainer.parents :=
          ExtractionRelationContainer.parents relations
          ++ flat_map membership_pairs kept |}).
Proof.
  intros Hsearch. cbv zeta. revert number_of_relations relations.
  induction buffers as [|buffer rest IH]; intros number_of_relations relations Hnumber.
  - simpl. rewrite !app_nil_r, N.add_0_r. unfold wrap32. rewrite N.mod_small by done.
    by destruct relations.
  - simpl. unfold buffer_relation_cache.
    rewrite (cache_relations_spec relation_types GetRelations buffer _ Hsearch).
    rewrite IH by (unfold wrap32; apply N.mod_lt; lia).
    unfold ExtractionRelationContainer.GetRelationsNum. simpl.
    rewrite List.filter_app, fmap_app, flat_map_app, length_app, <- !app_assoc.
    f_equal. unfold wrap32. rewrite N.Div0.add_mod_idemp_l. f_equal. lia.
Qed.

(** X27.  The relation pre-pass keeps the relations of a supported type and
    nothing else: whatever the order in which the profile lists the types,
    the shared container ends up with the relations extracted from the
    entities of kind relation whose first tag "type" has a value that the
    profile lists - with all their tags and all their members and roles, in
    the order of the input - and, for the membership index, each member of
    each of them paired with its relation; the count of relations is the
    number of the relations kept, modulo 2^32. *)
Theorem parse_relations_supported (GetRelations : list string)
    (buffers : list (list OSMEntity.t)) :
  let parsed := parse_relations std_sort_strings GetRelations buffers in
  let kept := extracted_relation
                <$> List.filter (supported_relation GetRelations) (concat buffers) in
  ExtractionRelationContainer.relations_data parsed.2 = kept /\
  ExtractionRelationContainer.parents parsed.2 = flat_map membership_pairs kept /\
  parsed.1 = wrap32 (N.of_nat (length kept)).
Proof.
  cbv zeta. unfold parse_relations.
  rewrite (relations_pipeline_spec (std_sort_strings GetRelations) GetRelations); [done| |done].
  intros rel_type. rewrite string_binary_search_spec by apply std_sort_strings_sorted.
  by rewrite (std_sort_strings_Permutation GetRelations).
Qed.
End RelationsPipelineFacts.

Lemma parse_relations_supported_witness :
  let parsed := parse_relations merge_sort_strings ["route"; "restriction"]%string
                  example_buffers in
  let kept := extracted_relation
                <$> List.filter (supported_relation ["route"; "restriction"]%string)
                      (concat example_buffers) in
  ExtractionRelationContainer.relations_data parsed.2 = kept /\
  ExtractionRelationContainer.parents parsed.2 = flat_map membership_pairs kept /\
  parsed.1 = wrap32 (N.of_nat (length kept)).
Proof.
  apply (parse_relations_supported merge_sort_strings merge_sort_strings_Permutation
           merge_sort_strings_sorted ["route"; "restriction"]%string example_buffers).
Defined.

Example parse_relations_example :
  ExtractionRelation.id
    <$> ExtractionRelationContainer.relations_data
          (parse_relations merge_sort_strings ["route"; "restriction"]%string
             example_buffers).2
  = [(1, item_type.relation); (3, item_type.relation)]%Z
  /\ (parse_relations merge_sort_strings ["route"; "restriction"]%string
        example_buffers).1 = 2%N
  /\ ExtractionRelationContainer.parents
       (parse_relations merge_sort_strings ["route"; "restriction"]%string
          example_buffers).2
     = [((7, item_type.way), (1, item_type.relation))]%Z.
Proof. vm_compute. repeat split. Qed.
